(** * SPEED typing trainer: a shallow embedding of its generators, metrics,
      score table and session engine

    The development follows the Python sources module by module:

    - [Py]                    the parts of the Python runtime the code relies on
                              (exceptions, [float], [int()], [round()], [str]);
    - [Difficulty]            [models/difficulty.py];
    - [WordSourceLoader]      [game/word_source_loader.py];
    - [WordGenerator]         [speed_word_generator.py];
    - [PerformanceCalculator] [game/performance_calculator.py];
    - [DatabaseManager]       [game/database_manager.py];
    - [SpeedEngine]           [game/speed_engine.py];
    - [WordManager]           [game/word_manager.py] ([get_accuracy_text]).

    Python [float]s are IEEE binary64 values and are modelled by Rocq's
    primitive floats, so that the roundings, the infinities and the [nan]
    of the source are reproduced. Python [int]s are [Z]; [str] is [string]
    (one [ascii] per character, that is, texts over the code points below
    256).
    Each model module is followed, in the second half of the file, by a
    module of facts about it; further modules of facts, on the methods
    around those, close the file. *)

From Stdlib Require Import ZArith QArith Qround Bool Arith List Lia.
From Stdlib Require Import Ascii String Floats Permutation Sorted.
From Equations Require Import Equations.
Import ListNotations.

Set Warnings "-inexact-float".

Local Open Scope Z_scope.

(* ================================================================== *)
(** * The Python runtime *)
(* ================================================================== *)

Module Py.

(** The exception classes the modelled code raises or catches. *)
Inductive Exc : Type :=
| ValueError
| TypeError
| RuntimeError
| OverflowError
| ZeroDivisionError
| FileNotFoundError
| PermissionError.

(** The outcome of a call: a value, or a raised exception. *)
Inductive Result (A : Type) : Type :=
| Ok (a : A)
| Raise (e : Exc).
Arguments Ok {A} a.
Arguments Raise {A} e.

Definition is_ok {A} (r : Result A) : bool :=
  match r with Ok _ => true | Raise _ => false end.

(** ** Numbers *)

(** [float(z)] for an [int]: the nearest binary64 value. (From [2^1024] on
    Python raises [OverflowError] at the conversion itself; here the value
    is infinite, and the [int()] applied to what is computed from it raises
    instead.) *)
Definition float_of_int (z : Z) : float :=
  SF2Prim (binary_normalize prec emax z 0 false).

Definition SF_of_int (z : Z) : spec_float :=
  match z with
  | Z0 => S754_zero false
  | Zpos p => S754_finite false p 0
  | Zneg p => S754_finite true p 0
  end.

(** [x / y] for two [float]s: a zero divisor, of either sign, raises
    [ZeroDivisionError]; a [nan] divisor does not. *)
Definition py_truediv (x y : float) : Result float :=
  if (y =? 0)%float then Raise ZeroDivisionError else Ok (x / y)%float.

(** [a / b] for two [int]s (true division): the exact quotient, rounded once. *)
Definition int_truediv (a b : Z) : float :=
  SF2Prim (SFdiv prec emax (SF_of_int a) (SF_of_int b)).

(** [int(x)] for a [float]: truncation towards zero; [int(nan)] raises
    [ValueError] and [int(inf)] raises [OverflowError]. *)
Definition py_int (x : float) : Result Z :=
  match Prim2SF x with
  | S754_zero _ => Ok 0
  | S754_finite s m e =>
      let mag := if 0 <=? e then Z.shiftl (Z.pos m) e
                 else Z.shiftr (Z.pos m) (- e) in
      Ok (if s then - mag else mag)
  | S754_infinity _ => Raise OverflowError
  | S754_nan => Raise ValueError
  end.

(** [num / den] rounded to the nearest integer, ties to even
    ([0 <= num], [0 < den]). *)
Definition round_half_even (num den : Z) : Z :=
  let q := num / den in
  let r := num mod den in
  match 2 * r ?= den with
  | Lt => q
  | Gt => q + 1
  | Eq => if Z.even q then q else q + 1
  end.

(** [round(x, ndigits)] for a [float]: the exact binary value of [x] is
    rounded half-even to [ndigits] decimals, and the decimal obtained is
    converted back to the nearest [float]. *)
Definition py_round (x : float) (ndigits : nat) : float :=
  match Prim2SF x with
  | S754_finite s m e =>
      let scale := 10 ^ Z.of_nat ndigits in
      let d := if 0 <=? e then Z.pos m * 2 ^ e * scale
               else round_half_even (Z.pos m * scale) (2 ^ (- e)) in
      match d with
      | Zpos p =>
          SF2Prim (SFdiv prec emax (S754_finite s p 0)
                         (S754_finite false (Z.to_pos scale) 0))
      | _ => SF2Prim (S754_zero s)
      end
  | _ => x
  end.

(** ** Strings *)

(** [len(s)] *)
Definition len (s : string) : Z := Z.of_nat (String.length s).

(** [bool(s)]: a string is true when it is not empty. *)
Definition truthy (s : string) : bool :=
  match s with EmptyString => false | String _ _ => true end.

(** [c.isspace()] on the code points below 256. *)
Definition isspace (c : ascii) : bool :=
  let n := nat_of_ascii c in
  ((9 <=? n) && (n <=? 13) || (28 <=? n) && (n <=? 32)
   || (n =? 133) || (n =? 160))%nat.

Fixpoint lstrip (s : string) : string :=
  match s with
  | EmptyString => EmptyString
  | String c s' => if isspace c then lstrip s' else s
  end.

(** Removes trailing white space; the result is empty when [s] is blank. *)
Fixpoint rstrip (s : string) : string :=
  match s with
  | EmptyString => EmptyString
  | String c s' =>
      match rstrip s' with
      | EmptyString => if isspace c then EmptyString else String c EmptyString
      | r => String c r
      end
  end.

(** [s.strip()] *)
Definition strip (s : string) : string := rstrip (lstrip s).

(** [s.startswith(c)] for a one-character prefix. *)
Definition startswith (s : string) (c : ascii) : bool :=
  match s with
  | EmptyString => false
  | String c' _ => Ascii.eqb c' c
  end.

(** [c in s] for a character [c]. *)
Fixpoint contains (c : ascii) (s : string) : bool :=
  match s with
  | EmptyString => false
  | String c' s' => Ascii.eqb c' c || contains c s'
  end.

(** [s.split()]: the maximal runs of non-space characters of [s].
    [cur] holds the run being read, in reverse. *)
Fixpoint split_aux (s : string) (cur : list ascii) : list string :=
  let flush (rest : list string) :=
    match cur with
    | [] => rest
    | _ => string_of_list_ascii (rev cur) :: rest
    end in
  match s with
  | EmptyString => flush []
  | String c s' =>
      if isspace c then flush (split_aux s' [])
      else split_aux s' (c :: cur)
  end.

Definition split (s : string) : list string := split_aux s [].

End Py.

Import Py.

(* ================================================================== *)
(** * models/difficulty.py *)
(* ================================================================== *)

(** [class Difficulty(Enum)]: the members in their order of definition. *)
Inductive Difficulty : Type :=
| SIMPLE
| MEDIUM
| HARD
| EXTRA_HARD.

Definition Difficulty_eqb (a b : Difficulty) : bool :=
  match a, b with
  | SIMPLE, SIMPLE | MEDIUM, MEDIUM | HARD, HARD | EXTRA_HARD, EXTRA_HARD => true
  | _, _ => false
  end.

(** [for difficulty in Difficulty] *)
Definition all_difficulties : list Difficulty :=
  [SIMPLE; MEDIUM; HARD; EXTRA_HARD].

(* ================================================================== *)
(** * game/word_source_loader.py *)
(* ================================================================== *)

Module WordSourceLoader.

(** ** The files, as the loader sees them

    [open(filepath, 'r', encoding=e)] followed by [for line in file] hands
    the loop body a sequence of lines and then stops, at the end of the file
    or with an exception. The text layer decodes the file chunk by chunk, so
    an attempt that ends in [UnicodeDecodeError] may have delivered the lines
    of the chunks before the offending byte. *)

Inductive Encoding : Type := utf_8 | utf_8_sig | latin_1 | cp1252.

Inductive ReadEnd : Type :=
| EndOfFile            (* the file was read to its end *)
| DecodeError          (* UnicodeDecodeError *)
| Denied               (* PermissionError *)
| OtherError.          (* any other Exception *)

Record ReadAttempt : Type := {
  lines_read : list string;
  read_end : ReadEnd
}.

(** An existing file: what reading it under each encoding yields. *)
Definition FileView : Type := Encoding -> ReadAttempt.

(** The file system: [None] where [os.path.exists] is false. *)
Definition FileSystem : Type := string -> option FileView.

(** ** [load_file] *)

Definition encodings_to_try : list Encoding :=
  [utf_8; utf_8_sig; latin_1; cp1252].

(** The body of [for line_num, line in enumerate(file, 1)], acting on the
    list [words]. *)
Definition process_line (allow_phrases : bool) (words : list string)
           (line : string) : list string :=
  let line := strip line in
  if negb (truthy line) || startswith line "#" then words
  else if allow_phrases then words ++ [line]
  else if contains " " line
       then words ++ filter truthy (map strip (split line))
       else words ++ [line].

(** The loop [for encoding in encodings_to_try]. The list [words] is created
    once, before the loop, and every attempt appends to it. *)
Fixpoint try_encodings (view : FileView) (allow_phrases : bool)
         (encodings : list Encoding) (words : list string)
  : Result (list string) :=
  match encodings with
  | [] => Raise ValueError
  | encoding :: rest =>
      let attempt := view encoding in
      let words := fold_left (process_line allow_phrases)
                             (lines_read attempt) words in
      match read_end attempt with
      | EndOfFile => Ok words
      | DecodeError => try_encodings view allow_phrases rest words
      | Denied => Raise PermissionError
      | OtherError => try_encodings view allow_phrases rest words
      end
  end.

(** [load_file(filepath, allow_phrases)] *)
Definition load_file (fs : FileSystem) (filepath : string)
           (allow_phrases : bool) : Result (list string) :=
  match fs filepath with
  | None => Raise FileNotFoundError
  | Some view => try_encodings view allow_phrases encodings_to_try []
  end.

(** ** The cache and [get_words_for_difficulty] *)

(** [self._word_cache] *)
Definition Cache : Type := Difficulty -> option (list string).

Definition empty_cache : Cache := fun _ => None.

Definition cache_set (cache : Cache) (d : Difficulty) (words : list string)
  : Cache :=
  fun d' => if Difficulty_eqb d' d then Some words else cache d'.

(** [self._file_mappings]; every difficulty has an entry. *)
Definition _file_mappings (d : Difficulty) : string :=
  match d with
  | SIMPLE => "simple_words_large.txt"
  | MEDIUM => "medium_unique_words.txt"
  | HARD => "hard_words_expanded.txt"
  | EXTRA_HARD => "extra_hard_words_extended.txt"
  end.

(** [os.path.join(a, b)] *)
Definition path_join (a b : string) : string := (a ++ "/" ++ b)%string.

Definition possible_paths (filename : string) : list string :=
  [filename; path_join "SPEED" filename; path_join ".." filename].

Definition base_words : list string :=
  ["the"; "and"; "for"; "are"; "but"; "not"; "you"; "all"; "can"; "had";
   "her"; "was"; "one"; "our"; "out"; "day"; "get"; "has"; "him"; "his";
   "how"; "man"; "new"; "now"; "old"; "see"; "two"; "way"; "who"; "boy"]%string.

Definition medium_words : list string :=
  ["about"; "after"; "again"; "before"; "being"; "below"; "could"; "every";
   "first"; "found"; "great"; "group"; "hand"; "head"; "help"; "here"]%string.

Definition hard_words : list string :=
  ["ability"; "absence"; "academy"; "account"; "achieve"; "acquire";
   "address"; "advance"; "against"; "already"; "another"; "anxiety";
   "anybody"; "anymore"; "anywhere"; "approve"; "arrange"; "article";
   "attempt"; "attract"; "average"]%string.

Definition extra_hard_words : list string :=
  ["absolutely"; "accelerate"; "accessible"; "accomplish"; "accordance";
   "accumulate"; "achievement"; "acknowledge"; "additional";
   "administration"; "advantage"; "adventure"; "advertising"; "afternoon";
   "aggressive"; "algorithm"; "alternative"; "ambassador"; "anniversary";
   "announcement"; "application"; "appointment"; "appreciate";
   "appropriate"]%string.

(** [_get_fallback_words(difficulty)] *)
Definition _get_fallback_words (d : Difficulty) : list string :=
  match d with
  | SIMPLE => base_words
  | MEDIUM => base_words ++ medium_words
  | HARD => base_words ++ medium_words ++ hard_words
  | EXTRA_HARD => base_words ++ medium_words ++ hard_words ++ extra_hard_words
  end.

(** The loop [for filepath in possible_paths]: [None] when every path raised
    [FileNotFoundError], otherwise the outcome of the first path that did
    not. *)
Fixpoint try_paths (fs : FileSystem) (paths : list string)
  : option (Result (list string)) :=
  match paths with
  | [] => None
  | filepath :: rest =>
      match load_file fs filepath true with
      | Raise FileNotFoundError => try_paths fs rest
      | outcome => Some outcome
      end
  end.

(** [get_words_for_difficulty(difficulty)]: the outcome and the cache
    afterwards. *)
Definition get_words_for_difficulty (fs : FileSystem) (cache : Cache)
           (d : Difficulty) : Result (list string) * Cache :=
  match cache d with
  | Some words => (Ok words, cache)
  | None =>
      match try_paths fs (possible_paths (_file_mappings d)) with
      | Some (Ok words) => (Ok words, cache_set cache d words)
      | Some (Raise e) => (Raise e, cache)
      | None =>
          let fallback_words := _get_fallback_words d in
          (Ok fallback_words, cache_set cache d fallback_words)
      end
  end.


(** ** The other methods of the loader *)

(** [reload_sources()]: [self._word_cache.clear()] *)
Definition reload_sources (cache : Cache) : Cache := empty_cache.

(** The loop [for difficulty in Difficulty] of
    [get_available_difficulties]; an exception skips the difficulty. *)
Fixpoint available_loop (fs : FileSystem) (difficulties : list Difficulty)
         (available : list Difficulty) (cache : Cache)
  : list Difficulty * Cache :=
  match difficulties with
  | [] => (available, cache)
  | difficulty :: rest =>
      match get_words_for_difficulty fs cache difficulty with
      | (Ok (_ :: _), cache) =>
          available_loop fs rest (available ++ [difficulty]) cache
      | (Ok [], cache) => available_loop fs rest available cache
      | (Raise _, cache) => available_loop fs rest available cache
      end
  end.

(** [get_available_difficulties()] *)
Definition get_available_difficulties (fs : FileSystem) (cache : Cache)
  : list Difficulty * Cache :=
  available_loop fs all_difficulties [] cache.

(** [get_word_count_for_difficulty(difficulty)] *)
Definition get_word_count_for_difficulty (fs : FileSystem) (cache : Cache)
           (d : Difficulty) : Z * Cache :=
  match get_words_for_difficulty fs cache d with
  | (Ok words, cache) => (Z.of_nat (List.length words), cache)
  | (Raise _, cache) => (0, cache)
  end.

End WordSourceLoader.

(* ================================================================== *)
(** * speed_word_generator.py *)
(* ================================================================== *)

(** ** [random.Random]

    The generator owns a private [random.Random(seed)] and uses two of its
    methods, [sample] and [shuffle]. They are library code; what the
    generator relies on is their documented contract: [sample(population, k)]
    returns the elements found at [k] pairwise different positions of
    [population], and [shuffle(x)] rearranges [x]. Both are functions of the
    state of the pseudo-random source, which they advance. *)
Class PyRandom : Type := {
  rng : Type;
  Random : Z -> rng;
  sample : rng -> list string -> nat -> list string * rng;
  shuffle : rng -> list string -> list string * rng;
  sample_spec :
    forall (g : rng) (population : list string) (k : nat),
      (k <= List.length population)%nat ->
      exists positions : list nat,
        NoDup positions
        /\ Forall2 (fun i w => nth_error population i = Some w)
                   positions (fst (sample g population k))
        /\ List.length positions = k;
  shuffle_spec :
    forall (g : rng) (x : list string), Permutation x (fst (shuffle g x))
}.

Module WordGenerator.
Import WordSourceLoader.

(** What [self.logger] receives. The texts are abridged to a tag; the
    numbers a message prints are kept. *)
Inductive LogRecord : Type :=
| Info (message : string) (numbers : list Z) (seconds : option float)
| Warning (message : string)
| Error (message : string).

Section Generator.

Context {R : PyRandom}.

(** The word files are those of the directory the program runs in. *)
Variable fs : FileSystem.

(** A [WordGenerator] instance together with the two parts of its
    environment that it uses: the clock behind [time.time()] (its successive
    readings) and the records passed to the logger. *)
Record Gen : Type := {
  _random : rng;
  word_loader : Cache;
  _sources_loaded : bool;
  _allow_phrases : bool;
  clock : nat -> float;
  clock_reads : nat;
  logged : list LogRecord
}.

(** [WordGenerator(seed)] for an integer [seed]. *)
Definition init (seed : Z) (clock : nat -> float) : Gen :=
  {| _random := Random seed;
     word_loader := empty_cache;
     _sources_loaded := false;
     _allow_phrases := false;
     clock := clock;
     clock_reads := 0;
     logged := [] |}.

(** [self.config['session_buffer_percentage']] *)
Definition session_buffer_percentage : Z := 10.

Definition time_options : list Z := [1; 2; 3; 5; 7; 10].
Definition word_counts : list Z := [70; 140; 210; 350; 490; 700].

(** ** Methods as state transformers

    A method call maps the instance to an outcome and the instance
    afterwards; what a call did before it raised is kept. *)
Definition M (A : Type) : Type := Gen -> Result A * Gen.

Definition ret {A} (a : A) : M A := fun s => (Ok a, s).

Definition raise {A} (e : Exc) : M A := fun s => (Raise e, s).

Definition bind {A B} (c : M A) (k : A -> M B) : M B :=
  fun s =>
    match c s with
    | (Ok a, s') => k a s'
    | (Raise e, s') => (Raise e, s')
    end.

(** [try: c  except Exception as e: handler(e)] *)
Definition try_except {A} (c : M A) (handler : Exc -> M A) : M A :=
  fun s =>
    match c s with
    | (Ok a, s') => (Ok a, s')
    | (Raise e, s') => handler e s'
    end.

Definition lift {A} (r : Result A) : M A := fun s => (r, s).

Notation "x <- c ;; k" := (bind c (fun x => k))
  (at level 61, c at next level, right associativity).
Notation "c ;;; k" := (bind c (fun _ => k))
  (at level 61, right associativity).

(** [time.time()] *)
Definition time_time : M float :=
  fun s =>
    (Ok (clock s (clock_reads s)),
     {| _random := _random s; word_loader := word_loader s;
        _sources_loaded := _sources_loaded s;
        _allow_phrases := _allow_phrases s;
        clock := clock s; clock_reads := S (clock_reads s);
        logged := logged s |}).

(** [self.logger.info(...)], [.warning(...)], [.error(...)] *)
Definition logger (r : LogRecord) : M unit :=
  fun s =>
    (Ok tt,
     {| _random := _random s; word_loader := word_loader s;
        _sources_loaded := _sources_loaded s;
        _allow_phrases := _allow_phrases s;
        clock := clock s; clock_reads := clock_reads s;
        logged := logged s ++ [r] |}).

(** A call on [self._random]. *)
Definition with_random {A} (f : rng -> A * rng) : M A :=
  fun s =>
    let (a, g) := f (_random s) in
    (Ok a,
     {| _random := g; word_loader := word_loader s;
        _sources_loaded := _sources_loaded s;
        _allow_phrases := _allow_phrases s;
        clock := clock s; clock_reads := clock_reads s;
        logged := logged s |}).

(** [self.word_loader.get_words_for_difficulty(difficulty)] *)
Definition loader_get_words (d : Difficulty) : M (list string) :=
  fun s =>
    let (outcome, cache) := get_words_for_difficulty fs (word_loader s) d in
    (outcome,
     {| _random := _random s; word_loader := cache;
        _sources_loaded := _sources_loaded s;
        _allow_phrases := _allow_phrases s;
        clock := clock s; clock_reads := clock_reads s;
        logged := logged s |}).

Definition set_allow_phrases (b : bool) : M unit :=
  fun s =>
    (Ok tt,
     {| _random := _random s; word_loader := word_loader s;
        _sources_loaded := _sources_loaded s;
        _allow_phrases := b;
        clock := clock s; clock_reads := clock_reads s;
        logged := logged s |}).

Definition set_sources_loaded (b : bool) : M unit :=
  fun s =>
    (Ok tt,
     {| _random := _random s; word_loader := word_loader s;
        _sources_loaded := b;
        _allow_phrases := _allow_phrases s;
        clock := clock s; clock_reads := clock_reads s;
        logged := logged s |}).

Definition get {A} (field : Gen -> A) : M A := fun s => (Ok (field s), s).

(** ** Loading the sources *)

(** The loop [for difficulty in Difficulty] of [load_default_sources]. *)
Fixpoint preload (difficulties loaded_difficulties : list Difficulty)
  : M (list Difficulty) :=
  match difficulties with
  | [] => ret loaded_difficulties
  | difficulty :: rest =>
      loaded_difficulties <-
        try_except
          (words <- loader_get_words difficulty ;;
           match words with
           | [] => ret loaded_difficulties
           | _ :: _ =>
               logger (Info "Loaded words" [Z.of_nat (List.length words)] None) ;;;
               ret (loaded_difficulties ++ [difficulty])
           end)
          (fun _ =>
             logger (Warning "Could not load words") ;;;
             ret loaded_difficulties) ;;
      preload rest loaded_difficulties
  end.

(** [load_default_sources(allow_phrases)] *)
Definition load_default_sources (allow_phrases : bool) : M unit :=
  set_allow_phrases allow_phrases ;;;
  try_except
    (loaded_difficulties <- preload all_difficulties [] ;;
     match loaded_difficulties with
     | [] => raise RuntimeError
     | _ :: _ =>
         set_sources_loaded true ;;;
         logger (Info "Successfully loaded word sources"
                      [Z.of_nat (List.length loaded_difficulties)] None)
     end)
    (fun _ =>
       logger (Error "Failed to load default sources") ;;;
       raise RuntimeError).

(** [_ensure_sources_loaded()] *)
Definition _ensure_sources_loaded : M unit :=
  loaded <- get _sources_loaded ;;
  if loaded then ret tt
  else
    allow_phrases <- get _allow_phrases ;;
    load_default_sources allow_phrases.

(** [_get_words_for_difficulty(difficulty)] *)
Definition _get_words_for_difficulty (d : Difficulty) : M (list string) :=
  _ensure_sources_loaded ;;;
  loader_get_words d.

(** ** [generate_words] *)

(** A value together with the fact that it is the value of [x]. *)
Definition inspect {A : Type} (x : A) : {y : A | x = y} := exist _ x eq_refl.

(** The loop [while remaining_count > 0] of [generate_words]: whole shuffled
    copies of the pool, then a sample for what is left. The loop is entered
    with a pool that is not empty (the method has raised otherwise), which
    is what makes every batch take at least one word. *)
Equations? fill_batches (available_words : list string)
           (remaining_count : Z) (selected_words : list string) (g : rng)
  : list string * rng by wf (Z.to_nat remaining_count) lt :=
  fill_batches available_words remaining_count selected_words g
    with inspect (0 <? remaining_count) := {
    | exist _ false _ => (selected_words, g)
    | exist _ true Hpos with inspect available_words := {
      | exist _ nil _ => (selected_words, g)
      | exist _ (cons _ _) _ =>
          let batch_size :=
            Z.min remaining_count (Z.of_nat (List.length available_words)) in
          let drawn :=
            if batch_size =? Z.of_nat (List.length available_words)
            then shuffle g available_words
            else sample g available_words (Z.to_nat batch_size) in
          fill_batches available_words (remaining_count - batch_size)
                       (selected_words ++ fst drawn) (snd drawn) } }.
Proof.
  apply Z.ltb_lt in Hpos. subst batch_size. lia.
Defined.

(** [generate_words(difficulty, count)] *)
Definition generate_words (difficulty : Difficulty) (count : Z)
  : M (list string) :=
  if count <=? 0 then raise ValueError
  else
    start_time <- time_time ;;
    available_words <- _get_words_for_difficulty difficulty ;;
    match available_words with
    | [] => raise RuntimeError
    | _ :: _ =>
        selected_words <-
          (if count <=? Z.of_nat (List.length available_words)
           then with_random
                  (fun g => sample g available_words (Z.to_nat count))
           else
             selected_words <-
               with_random (fill_batches available_words count []) ;;
             with_random (fun g => shuffle g selected_words)) ;;
        end_time <- time_time ;;
        logger (Info "Generated words"
                     [Z.of_nat (List.length selected_words)]
                     (Some (end_time - start_time)%float)) ;;;
        ret selected_words
    end.

(** ** [generate_for_session] *)

(** The number of words [generate_for_session] asks for. *)
Definition session_word_count (duration_seconds target_wpm : Z) : Result Z :=
  let duration_minutes := (float_of_int duration_seconds / 60)%float in
  match py_int (duration_minutes * float_of_int target_wpm)%float with
  | Raise e => Raise e
  | Ok base_word_count =>
      let buffer_percentage := session_buffer_percentage in
      let buffer_multiplier :=
        (1 + float_of_int buffer_percentage / 100)%float in
      match py_int (float_of_int base_word_count * buffer_multiplier)%float with
      | Raise e => Raise e
      | Ok total_word_count => Ok (Z.max total_word_count 10)
      end
  end.

(** [generate_for_session(difficulty, duration_seconds, target_wpm)] *)
Definition generate_for_session (difficulty : Difficulty)
           (duration_seconds target_wpm : Z) : M (list string) :=
  if duration_seconds <=? 0 then raise ValueError
  else if target_wpm <=? 0 then raise ValueError
  else
    total_word_count <- lift (session_word_count duration_seconds target_wpm) ;;
    logger (Info "Session calculation"
                 [duration_seconds; target_wpm; total_word_count] None) ;;;
    generate_words difficulty total_word_count.

(** ** [generate_for_time_selection] *)

(** [minutes in self.time_options] *)
Definition is_time_option (minutes : Z) : bool :=
  existsb (Z.eqb minutes) time_options.

(** [dict(zip(keys, values))[key]]; a missing key raises [KeyError], which
    the calls below rule out beforehand. *)
Fixpoint zip_lookup (key : Z) (keys values : list Z) : option Z :=
  match keys, values with
  | k :: keys', v :: values' =>
      match zip_lookup key keys' values' with
      | Some v' => Some v'
      | None => if k =? key then Some v else None
      end
  | _, _ => None
  end.

(** [calculate_word_count_for_time(minutes)] *)
Definition calculate_word_count_for_time (minutes : Z) : Result Z :=
  if negb (is_time_option minutes) then Raise ValueError
  else
    match zip_lookup minutes time_options word_counts with
    | Some n => Ok n
    | None => Raise ValueError
    end.

(** [generate_for_time_selection(difficulty, minutes)] *)
Definition generate_for_time_selection (difficulty : Difficulty)
           (minutes : Z) : M (list string) :=
  if negb (is_time_option minutes) then raise ValueError
  else
    start_time <- time_time ;;
    word_count <- lift (calculate_word_count_for_time minutes) ;;
    logger (Info "Time-based generation" [minutes; word_count] None) ;;;
    words <- generate_words difficulty word_count ;;
    end_time <- time_time ;;
    logger (Info "Generated words for selection"
                 [Z.of_nat (List.length words); minutes]
                 (Some (end_time - start_time)%float)) ;;;
    ret words.

(** ** [generate_paragraph] *)

(** [for x in xs: state = body(state, x)] *)
Fixpoint for_each {A St : Type} (body : St -> A -> M St) (xs : list A)
         (st : St) : M St :=
  match xs with
  | [] => ret st
  | x :: xs' => st' <- body st x ;; for_each body xs' st'
  end.

(** [range(n)] *)
Definition range (n : Z) : list Z := map Z.of_nat (seq 0 (Z.to_nat n)).

(** The local variables that live across the lines of a paragraph. *)
Record Paragraph : Type := {
  available_words : list string;
  word_index : nat;
  formatted_lines : list string
}.

(** The loop [while word_index < len(available_words)]: [upcoming] is
    [available_words[word_index:]]. *)
Fixpoint pack_words (max_line_chars : Z) (upcoming : list string)
         (current_line : string) (word_index : nat) : string * nat :=
  match upcoming with
  | [] => (current_line, word_index)
  | word :: rest =>
      let test_line :=
        if truthy current_line then (current_line ++ " " ++ word)%string
        else word in
      if len test_line <=? max_line_chars
      then pack_words max_line_chars rest test_line (S word_index)
      else (current_line, word_index)
  end.

(** The body of [for line_num in range(lines)]. *)
Definition paragraph_line (difficulty : Difficulty)
           (lines max_line_chars estimated_words_per_line : Z)
           (p : Paragraph) (line_num : Z) : M Paragraph :=
  let available := available_words p in
  let (current_line, word_index) :=
    pack_words max_line_chars (skipn (word_index p) available)
               EmptyString (word_index p) in
  let (current_line, word_index) :=
    if negb (truthy current_line)
       && (word_index <? List.length available)%nat
    then (nth word_index available EmptyString, S word_index)
    else (current_line, word_index) in
  if negb (truthy current_line)
     && (List.length available <=? word_index)%nat
  then
    additional_words <-
      generate_words difficulty (estimated_words_per_line * 2) ;;
    ret {| available_words := available ++ additional_words;
           word_index := word_index;
           formatted_lines := formatted_lines p |}
  else
    let formatted := formatted_lines p ++ [current_line] in
    if (List.length available <=? word_index)%nat && (line_num <? lines - 1)
    then
      additional_words <-
        generate_words difficulty
                       (estimated_words_per_line * (lines - line_num)) ;;
      ret {| available_words := available ++ additional_words;
             word_index := word_index;
             formatted_lines := formatted |}
    else
      ret {| available_words := available;
             word_index := word_index;
             formatted_lines := formatted |}.

(** [generate_paragraph(difficulty, lines, max_line_chars)]. The buffer
    size [int(total_estimated_words * 1.5)] is computed in binary64, and
    raises [OverflowError] beyond the range of a [float]. *)
Definition generate_paragraph (difficulty : Difficulty)
           (lines max_line_chars : Z) : M (list string) :=
  if lines <=? 0 then raise ValueError
  else if max_line_chars <=? 0 then raise ValueError
  else
    start_time <- time_time ;;
    let avg_word_length := 6 in
    let estimated_words_per_line :=
      Z.max 1 (max_line_chars / avg_word_length) in
    let total_estimated_words := lines * estimated_words_per_line in
    buffer_words <-
      lift (py_int (float_of_int total_estimated_words * 1.5)%float) ;;
    available_words <- generate_words difficulty buffer_words ;;
    p <- for_each (paragraph_line difficulty lines max_line_chars
                                  estimated_words_per_line)
                  (range lines)
                  {| available_words := available_words;
                     word_index := 0;
                     formatted_lines := [] |} ;;
    end_time <- time_time ;;
    logger (Info "Generated paragraph lines"
                 [Z.of_nat (List.length (formatted_lines p))]
                 (Some (end_time - start_time)%float)) ;;;
    ret (formatted_lines p).

(** ** [generate_mixed] *)

(** A key of the [weights] dictionary: a [Difficulty], or any other object. *)
Inductive WeightKey : Type :=
| Key (d : Difficulty)
| NotADifficulty.

(** The validation loop [for difficulty, weight in weights.items()]. *)
Fixpoint validate_weights (items : list (WeightKey * float))
  : Result (list (Difficulty * float)) :=
  match items with
  | [] => Ok []
  | (NotADifficulty, _) :: _ => Raise ValueError
  | (Key d, weight) :: rest =>
      if (weight <? 0)%float then Raise ValueError
      else
        match validate_weights rest with
        | Ok checked => Ok ((d, weight) :: checked)
        | Raise e => Raise e
        end
  end.

(** [sum(weights.values())], the partial sums taken from left to right. *)
Definition sum_weights (weights : list (Difficulty * float)) : float :=
  fold_left (fun acc dw => (acc + snd dw)%float) weights 0%float.

(** The loop that fills [difficulty_counts] with
    [int(total_count * weight)]. *)
Fixpoint allocate (total_count : Z)
         (normalized_weights : list (Difficulty * float))
  : Result (list (Difficulty * Z)) :=
  match normalized_weights with
  | [] => Ok []
  | (d, weight) :: rest =>
      match py_int (float_of_int total_count * weight)%float with
      | Raise e => Raise e
      | Ok count =>
          match allocate total_count rest with
          | Ok counts => Ok ((d, count) :: counts)
          | Raise e => Raise e
          end
      end
  end.

(** The list [fractional_parts] of pairs [(fractional_part, difficulty)]. *)
Fixpoint fractional_parts_of (total_count : Z)
         (normalized_weights : list (Difficulty * float))
  : Result (list (float * Difficulty)) :=
  match normalized_weights with
  | [] => Ok []
  | (d, weight) :: rest =>
      let exact_count := (float_of_int total_count * weight)%float in
      match py_int exact_count with
      | Raise e => Raise e
      | Ok whole =>
          let fractional_part := (exact_count - float_of_int whole)%float in
          match fractional_parts_of total_count rest with
          | Ok parts => Ok ((fractional_part, d) :: parts)
          | Raise e => Raise e
          end
      end
  end.

(** [a < b] for two tuples [(float, Difficulty)]: the first components
    decide unless they are equal; then the second ones are compared, and
    two different members of the plain [Enum] [Difficulty] have no order
    ([TypeError]). *)
Definition tuple_lt (a b : float * Difficulty) : Result bool :=
  if (fst a =? fst b)%float
  then if Difficulty_eqb (snd a) (snd b) then Ok false else Raise TypeError
  else Ok (fst a <? fst b)%float.

(** [list.sort(reverse=True)] on such tuples, as an insertion sort: an
    exception raised by a comparison ends the sort. *)
Fixpoint insert_desc (x : float * Difficulty)
         (sorted : list (float * Difficulty))
  : Result (list (float * Difficulty)) :=
  match sorted with
  | [] => Ok [x]
  | y :: rest =>
      match tuple_lt y x with
      | Raise e => Raise e
      | Ok true => Ok (x :: y :: rest)
      | Ok false =>
          match insert_desc x rest with
          | Ok rest' => Ok (y :: rest')
          | Raise e => Raise e
          end
      end
  end.

Definition sort_reverse (l : list (float * Difficulty))
  : Result (list (float * Difficulty)) :=
  fold_left (fun acc x =>
               match acc with
               | Ok sorted => insert_desc x sorted
               | Raise e => Raise e
               end)
            l (Ok []).

(** [difficulty_counts[difficulty] += 1] *)
Fixpoint increment (d : Difficulty) (counts : list (Difficulty * Z))
  : list (Difficulty * Z) :=
  match counts with
  | [] => []
  | (d', c) :: rest =>
      if Difficulty_eqb d' d then (d', c + 1) :: rest
      else (d', c) :: increment d rest
  end.

(** The loop [for difficulty, count in difficulty_counts.items()];
    [first_available] is the first key of [difficulty_counts]. *)
Fixpoint mixed_loop (first_available : Difficulty)
         (items : list (Difficulty * Z)) (all_words : list string)
  : M (list string) :=
  match items with
  | [] => ret all_words
  | (difficulty, count) :: rest =>
      all_words <-
        (if 0 <? count then
           try_except
             (words <- generate_words difficulty count ;;
              logger (Info "Generated words for difficulty"
                           [Z.of_nat (List.length words)] None) ;;;
              ret (all_words ++ words))
             (fun _ =>
                logger (Warning "Could not generate words") ;;;
                if negb (Difficulty_eqb first_available difficulty) then
                  try_except
                    (compensation_words <-
                       generate_words first_available count ;;
                     logger (Info "Compensated"
                                  [Z.of_nat (List.length compensation_words)]
                                  None) ;;;
                     ret (all_words ++ compensation_words))
                    (fun _ =>
                       logger (Error "Could not compensate") ;;;
                       ret all_words)
                else ret all_words)
         else ret all_words) ;;
      mixed_loop first_available rest all_words
  end.

(** [generate_mixed(weights, total_count)]; [weights] lists the items of
    the dictionary in their order of insertion. *)
Definition generate_mixed (weights : list (WeightKey * float))
           (total_count : Z) : M (list string) :=
  if total_count <=? 0 then raise ValueError
  else
    match weights with
    | [] => raise ValueError
    | _ :: _ =>
        weights <- lift (validate_weights weights) ;;
        start_time <- time_time ;;
        let total_weight := sum_weights weights in
        if (total_weight =? 0)%float then raise ValueError
        else
          let normalized_weights :=
            map (fun dw => (fst dw, (snd dw / total_weight)%float)) weights in
          difficulty_counts <- lift (allocate total_count normalized_weights) ;;
          let allocated_count :=
            fold_left Z.add (map snd difficulty_counts) 0 in
          let remaining := total_count - allocated_count in
          difficulty_counts <-
            (if 0 <? remaining then
               fractional_parts <-
                 lift (fractional_parts_of total_count normalized_weights) ;;
               fractional_parts <- lift (sort_reverse fractional_parts) ;;
               ret (fold_left (fun counts part => increment (snd part) counts)
                              (firstn (Z.to_nat remaining) fractional_parts)
                              difficulty_counts)
             else ret difficulty_counts) ;;
          all_words <-
            match difficulty_counts with
            | [] => ret []
            | (first_available, _) :: _ =>
                mixed_loop first_available difficulty_counts []
            end ;;
          all_words <- with_random (fun g => shuffle g all_words) ;;
          end_time <- time_time ;;
          logger (Info "Generated mixed difficulty words"
                       [Z.of_nat (List.length all_words)]
                       (Some (end_time - start_time)%float)) ;;;
          ret all_words
    end.


(** ** The methods about the sources *)

Definition set_word_loader (cache : Cache) : M unit :=
  fun s =>
    (Ok tt,
     {| _random := _random s; word_loader := cache;
        _sources_loaded := _sources_loaded s;
        _allow_phrases := _allow_phrases s;
        clock := clock s; clock_reads := clock_reads s;
        logged := logged s |}).

(** [reload_sources()] *)
Definition reload_sources : M unit :=
  cache <- get word_loader ;;
  set_word_loader (WordSourceLoader.reload_sources cache) ;;;
  set_sources_loaded false ;;;
  logger (Info "Word sources reloaded" [] None).

(** A method of [self.word_loader] that does not raise. *)
Definition with_loader {A} (f : Cache -> A * Cache) : M A :=
  fun s =>
    let (a, cache) := f (word_loader s) in
    (Ok a,
     {| _random := _random s; word_loader := cache;
        _sources_loaded := _sources_loaded s;
        _allow_phrases := _allow_phrases s;
        clock := clock s; clock_reads := clock_reads s;
        logged := logged s |}).

(** [get_available_difficulties()] *)
Definition get_available_difficulties : M (list Difficulty) :=
  _ensure_sources_loaded ;;;
  with_loader (WordSourceLoader.get_available_difficulties fs).

(** [get_word_count_for_difficulty(difficulty)] *)
Definition get_word_count_for_difficulty (difficulty : Difficulty) : M Z :=
  _ensure_sources_loaded ;;;
  with_loader (fun cache =>
                 WordSourceLoader.get_word_count_for_difficulty
                   fs cache difficulty).

(** [get_available_time_options()] *)
Definition get_available_time_options : M (list Z) := ret time_options.

End Generator.

Notation "x <- c ;; k" := (bind c (fun x => k))
  (at level 61, c at next level, right associativity).
Notation "c ;;; k" := (bind c (fun _ => k))
  (at level 61, right associativity).

End WordGenerator.

(* ================================================================== *)
(** * game/performance_calculator.py *)
(* ================================================================== *)

Module PerformanceCalculator.

(** [calculate_wpm(typed_text, time_elapsed_seconds)]. The divisors [60.0]
    and [5.0] are not zero; [time_minutes] is zero for the positive times
    below [60 * 2^-1075], whose quotient by 60 rounds to zero. *)
Definition calculate_wpm (typed_text : string) (time_elapsed_seconds : float)
  : Result float :=
  if (time_elapsed_seconds <=? 0)%float then Ok 0%float
  else
    let total_characters := len typed_text in
    let time_minutes := (time_elapsed_seconds / 60)%float in
    match py_truediv (float_of_int total_characters / 5)%float time_minutes with
    | Raise e => Raise e
    | Ok wpm => Ok (py_round wpm 1)
    end.

(** The body of [for i in range(comparison_length)]: one more correct
    character when [typed_text[i] == target_text[i]]. *)
Definition count_step (typed_text target_text : string)
           (correct_characters : Z) (i : nat) : Z :=
  match String.get i typed_text, String.get i target_text with
  | Some a, Some b =>
      if Ascii.eqb a b then correct_characters + 1 else correct_characters
  | _, _ => correct_characters
  end.

(** [calculate_accuracy(typed_text, target_text)] *)
Definition calculate_accuracy (typed_text target_text : string) : float :=
  if negb (truthy typed_text) then 0%float
  else
    let comparison_length :=
      Nat.min (String.length typed_text) (String.length target_text) in
    let correct_characters :=
      fold_left (count_step typed_text target_text)
                (seq 0 comparison_length) 0 in
    let accuracy :=
      (int_truediv correct_characters (len typed_text) * 100)%float in
    py_round accuracy 1.


(** [calculate_real_time_stats(typed_text, target_text, elapsed_time)] *)
Definition calculate_real_time_stats (typed_text target_text : string)
           (elapsed_time : float) : Result (float * float) :=
  if (elapsed_time <? 0.1)%float then Ok (0%float, 0%float)
  else
    match calculate_wpm typed_text elapsed_time with
    | Raise e => Raise e
    | Ok wpm =>
        let accuracy := calculate_accuracy typed_text target_text in
        Ok (wpm, accuracy)
    end.

(** [get_performance_grade(wpm, accuracy)] *)
Definition get_performance_grade (wpm accuracy : float) : string :=
  if (80 <=? wpm)%float && (98 <=? accuracy)%float then "Exceptional"
  else if (70 <=? wpm)%float && (95 <=? accuracy)%float then "Excellent"
  else if (60 <=? wpm)%float && (92 <=? accuracy)%float then "Very Good"
  else if (50 <=? wpm)%float && (88 <=? accuracy)%float then "Good"
  else if (40 <=? wpm)%float && (85 <=? accuracy)%float then "Average"
  else if (30 <=? wpm)%float && (80 <=? accuracy)%float then "Below Average"
  else "Needs Improvement".

(** The body of the loop of [_count_errors]: one more error when
    [typed_text[i] != target_text[i]]. *)
Definition error_step (typed_text target_text : string)
           (errors : Z) (i : nat) : Z :=
  match String.get i typed_text, String.get i target_text with
  | Some a, Some b => if Ascii.eqb a b then errors else errors + 1
  | _, _ => errors
  end.

(** [_count_errors(typed_text, target_text)] *)
Definition _count_errors (typed_text target_text : string) : Z :=
  let comparison_length :=
    Nat.min (String.length typed_text) (String.length target_text) in
  let errors :=
    fold_left (error_step typed_text target_text)
              (seq 0 comparison_length) 0 in
  if len target_text <? len typed_text
  then errors + (len typed_text - len target_text)
  else errors.

(** [_count_correct_characters(typed_text, target_text)] *)
Definition _count_correct_characters (typed_text target_text : string) : Z :=
  let comparison_length :=
    Nat.min (String.length typed_text) (String.length target_text) in
  fold_left (count_step typed_text target_text) (seq 0 comparison_length) 0.

(** The body of the loop of [_count_correct_words]. *)
Definition word_step (typed_words target_words : list string)
           (correct_words : Z) (i : nat) : Z :=
  match nth_error typed_words i, nth_error target_words i with
  | Some a, Some b =>
      if String.eqb a b then correct_words + 1 else correct_words
  | _, _ => correct_words
  end.

(** [_count_correct_words(typed_words, target_words)] *)
Definition _count_correct_words (typed_words target_words : list string) : Z :=
  let comparison_length :=
    Nat.min (List.length typed_words) (List.length target_words) in
  fold_left (word_step typed_words target_words) (seq 0 comparison_length) 0.

(** ** Keystroke tracking *)

(** The fields a [PerformanceCalculator] keeps from one keystroke to the
    next. *)
Record Tracker : Type := {
  keystroke_times : list float;
  error_positions : list Z;
  backspace_count : Z;
  last_keystroke_time : option float
}.

(** [PerformanceCalculator()] *)
Definition new_tracker : Tracker :=
  {| keystroke_times := [];
     error_positions := [];
     backspace_count := 0;
     last_keystroke_time := None |}.

(** [reset_session()] *)
Definition reset_session (t : Tracker) : Tracker :=
  {| keystroke_times := [];
     error_positions := [];
     backspace_count := 0;
     last_keystroke_time := None |}.

(** [record_keystroke(is_correct, is_backspace)], where [current_time] is
    what [time.time()] returns in the call. *)
Definition record_keystroke (is_correct is_backspace : bool)
           (current_time : float) (t : Tracker) : Tracker :=
  let keystroke_times :=
    match last_keystroke_time t with
    | Some last => keystroke_times t ++ [(current_time - last)%float]
    | None => keystroke_times t
    end in
  {| keystroke_times := keystroke_times;
     error_positions :=
       if is_backspace then error_positions t
       else if negb is_correct
            then error_positions t ++ [Z.of_nat (List.length keystroke_times)]
            else error_positions t;
     backspace_count :=
       if is_backspace then backspace_count t + 1 else backspace_count t;
     last_keystroke_time := Some current_time |}.

(** [calculate_keystroke_speed(time_elapsed_seconds)] *)
Definition calculate_keystroke_speed (time_elapsed_seconds : float)
           (t : Tracker) : float :=
  if (time_elapsed_seconds <=? 0)%float
     || match keystroke_times t with [] => true | _ :: _ => false end
  then 0%float
  else
    let total_keystrokes := Z.of_nat (List.length (keystroke_times t)) in
    py_round (float_of_int total_keystrokes / time_elapsed_seconds)%float 2.

End PerformanceCalculator.

(* ================================================================== *)
(** * game/database_manager.py *)
(* ================================================================== *)

Module DatabaseManager.

(** [ScoreRecord]. The [date] of a record is left out: [save_score] does
    not store it (SQLite fills the column in by itself), and the operations
    below do not read it. *)
Record ScoreRecord : Type := {
  id : option Z;
  user_name : string;
  wpm : float;
  accuracy : float;
  level : string;
  mode : string;
  duration : Z;
  total_characters : Z;
  correct_characters : Z
}.

(** ** The values SQLite stores *)

(** An [INTEGER] column, and a bound [int], hold a signed integer of 64
    bits: [sqlite3] raises [OverflowError] for any other [int]. *)
Definition sql_integer (z : Z) : bool := (- 2 ^ 63 <=? z) && (z <? 2 ^ 63).

(** A [REAL] column: a zero of either sign is stored as the integer 0,
    and read as [0.0]. (A [nan] is bound as [NULL].) *)
Definition sql_real (x : float) : float :=
  if (x =? 0)%float then 0%float else x.


(** The columns of the row that the [INSERT] of [save_score] creates; the
    [id] of the record is not among them. *)
Definition stored (score : ScoreRecord) : ScoreRecord :=
  {| id := None;
     user_name := user_name score;
     wpm := sql_real (wpm score);
     accuracy := sql_real (accuracy score);
     level := level score;
     mode := mode score;
     duration := duration score;
     total_characters := total_characters score;
     correct_characters := correct_characters score |}.

(** A row of the table [scores]: its columns under its primary key. *)
Record Row : Type := {
  row_id : Z;
  row_data : ScoreRecord
}.

Definition row_wpm (r : Row) : float := wpm (row_data r).
Definition row_accuracy (r : Row) : float := accuracy (row_data r).

(** The table [scores]: its rows in the order of their keys, and the
    largest key ever given out ([AUTOINCREMENT]). *)
Record Table : Type := {
  rows : list Row;
  last_id : Z
}.

(** A [DatabaseManager]: the stored table, and whether [self.connection]
    is set. *)
Record Db : Type := {
  connected : bool;
  scores : Table
}.

(** [_row_to_score_record(row)] *)
Definition _row_to_score_record (r : Row) : ScoreRecord :=
  {| id := Some (row_id r);
     user_name := user_name (row_data r);
     wpm := wpm (row_data r);
     accuracy := accuracy (row_data r);
     level := level (row_data r);
     mode := mode (row_data r);
     duration := duration (row_data r);
     total_characters := total_characters (row_data r);
     correct_characters := correct_characters (row_data r) |}.

(** [a] may stand before [b] under [ORDER BY wpm DESC, accuracy DESC]. *)
Definition precedes (a b : Row) : Prop :=
  (row_wpm b <? row_wpm a)%float = true
  \/ ((row_wpm a =? row_wpm b)%float = true
      /\ (row_accuracy b <=? row_accuracy a)%float = true).

Definition precedesb (a b : Row) : bool :=
  (row_wpm b <? row_wpm a)%float
  || (row_wpm a =? row_wpm b)%float
     && (row_accuracy b <=? row_accuracy a)%float.

(** The same order on the records a query returns. *)
Definition record_precedes (a b : ScoreRecord) : Prop :=
  (wpm b <? wpm a)%float = true
  \/ ((wpm a =? wpm b)%float = true
      /\ (accuracy b <=? accuracy a)%float = true).

(** Both [REAL] columns of a row hold a number ([NOT NULL]). *)
Definition has_reals (r : Row) : Prop :=
  is_nan (row_wpm r) = false /\ is_nan (row_accuracy r) = false.

(** [initialize()], for a database file that can be opened. *)
Definition initialize (db : Db) : bool * Db :=
  (true, {| connected := true; scores := scores db |}).

Section Queries.

(** [ORDER BY wpm DESC, accuracy DESC]: SQL fixes the result up to the
    order of the rows that tie on both columns, so the query is any
    function that sorts the rows of a table. *)
Variable order_by : list Row -> list Row.
Hypothesis order_by_permutation : forall l, Permutation l (order_by l).
Hypothesis order_by_sorted :
  forall l, Forall has_reals l -> StronglySorted precedes (order_by l).





(** [LIMIT n]: a negative [n] is no limit. *)
Definition sql_limit {A} (n : Z) (l : list A) : list A :=
  if n <? 0 then l else firstn (Z.to_nat n) l.

(** [get_leaderboard(mode, limit)]; a [limit] that is no integer of 64
    bits makes the query raise, and the method return [[]]. *)
Definition get_leaderboard (db : Db) (mode_filter : option string)
           (limit : Z) : list ScoreRecord * Db :=
  let db := if connected db then db else snd (initialize db) in
  if negb (sql_integer limit) then ([], db)
  else
    let selected :=
      match mode_filter with
      | Some m =>
          if truthy m
          then filter (fun r => String.eqb (mode (row_data r)) m)
                      (rows (scores db))
          else rows (scores db)
      | None => rows (scores db)
      end in
    (map _row_to_score_record (sql_limit limit (order_by selected)), db).


End Queries.

End DatabaseManager.

(* ================================================================== *)
(** * game/speed_engine.py *)
(* ================================================================== *)

Module SpeedEngine.
Import DatabaseManager.

Inductive GameMode : Type :=
| PRACTICE | TIMED_CHALLENGE | ACCURACY_FOCUS | SPEED_BURST | ENDURANCE.

Inductive DifficultyLevel : Type :=
| BEGINNER | INTERMEDIATE | ADVANCED | EXPERT.

(** [GameSession]; times are clock readings. *)
Record GameSession : Type := {
  session_id : string;
  session_user_name : string;
  session_mode : GameMode;
  session_difficulty : DifficultyLevel;
  start_time : Z;
  target_text : string;
  duration_seconds : Z;
  is_active : bool;
  end_time : option Z;
  typed_text : string;
  current_wpm : float;
  current_accuracy : float
}.

Section Engine.

(** The engine's collaborators, taken as they are: [World] holds the state
    of the word generator, of the legacy word manager and of the clock;
    the text generators and the clock act on it, and a text generator
    returns a text or raises. The computation of the final score and of
    the planned duration are functions of their arguments. *)
Variable World : Type.
Variable _generate_target_text :
  GameMode -> DifficultyLevel -> Z -> World -> Result string * World.
Variable _generate_time_based_text :
  GameMode -> DifficultyLevel -> Z -> World -> Result string * World.
Variable _calculate_dynamic_duration :
  string -> DifficultyLevel -> GameMode -> Z.
Variable clock_now : World -> Z * World.
Variable make_session_id : string -> Z -> string.
Variable final_score : GameSession -> ScoreRecord.

(** A [SpeedEngine]. A registered callback is known by a number;
    [callback_calls] lists the calls made to callbacks so far, each with
    its argument. *)
Record Engine : Type := {
  current_session : option GameSession;
  session_timer : option Z;
  session_end_callbacks : list nat;
  callback_calls : list (nat * option ScoreRecord);
  world : World
}.

(** [self.current_session and self.current_session.is_active] *)
Definition is_session_active (e : Engine) : bool :=
  match current_session e with
  | Some session => is_active session
  | None => false
  end.

(** [register_session_end_callback(callback)] *)
Definition register_session_end_callback (callback : nat) (e : Engine)
  : Engine :=
  {| current_session := current_session e;
     session_timer := session_timer e;
     session_end_callbacks := session_end_callbacks e ++ [callback];
     callback_calls := callback_calls e;
     world := world e |}.

(** What a method leaves of the engine when the text generator raises:
    the exception passes through, and only the generator has acted. *)
Definition with_world (e : Engine) (w : World) : Engine :=
  {| current_session := current_session e;
     session_timer := session_timer e;
     session_end_callbacks := session_end_callbacks e;
     callback_calls := callback_calls e;
     world := w |}.

(** [start_session(user_name, mode, difficulty, duration)] *)
Definition start_session (user : string) (mode : GameMode)
           (difficulty : DifficultyLevel) (duration : Z) (e : Engine)
  : Result bool * Engine :=
  if is_session_active e then (Ok false, e)
  else
    match _generate_target_text mode difficulty duration (world e) with
    | (Raise exc, w1) => (Raise exc, with_world e w1)
    | (Ok text, w1) =>
        let dynamic_duration :=
          _calculate_dynamic_duration text difficulty mode in
        let (t, w2) := clock_now w1 in
        let (started, w3) := clock_now w2 in
        (Ok true,
         {| current_session :=
              Some {| session_id := make_session_id user t;
                      session_user_name := user;
                      session_mode := mode;
                      session_difficulty := difficulty;
                      start_time := started;
                      target_text := text;
                      duration_seconds := dynamic_duration;
                      is_active := true;
                      end_time := None;
                      typed_text := EmptyString;
                      current_wpm := 0%float;
                      current_accuracy := 0%float |};
            session_timer := None;
            session_end_callbacks := session_end_callbacks e;
            callback_calls := callback_calls e;
            world := w3 |})
    end.

(** [start_time_based_session(user_name, mode, difficulty, minutes)] *)
Definition start_time_based_session (user : string) (mode : GameMode)
           (difficulty : DifficultyLevel) (minutes : Z) (e : Engine)
  : Result bool * Engine :=
  if is_session_active e then (Ok false, e)
  else
    match _generate_time_based_text mode difficulty minutes (world e) with
    | (Raise exc, w1) => (Raise exc, with_world e w1)
    | (Ok text, w1) =>
        let (t, w2) := clock_now w1 in
        let (started, w3) := clock_now w2 in
        (Ok true,
         {| current_session :=
              Some {| session_id := make_session_id user t;
                      session_user_name := user;
                      session_mode := mode;
                      session_difficulty := difficulty;
                      start_time := started;
                      target_text := text;
                      duration_seconds := minutes * 60;
                      is_active := true;
                      end_time := None;
                      typed_text := EmptyString;
                      current_wpm := 0%float;
                      current_accuracy := 0%float |};
            session_timer := None;
            session_end_callbacks := session_end_callbacks e;
            callback_calls := callback_calls e;
            world := w3 |})
    end.

(** [_finalize_session()] *)
Definition _finalize_session (e : Engine) : option ScoreRecord * Engine :=
  match current_session e with
  | None => (None, e)
  | Some session =>
      let (ended, w1) := clock_now (world e) in
      let finished :=
        {| session_id := session_id session;
           session_user_name := session_user_name session;
           session_mode := session_mode session;
           session_difficulty := session_difficulty session;
           start_time := start_time session;
           target_text := target_text session;
           duration_seconds := duration_seconds session;
           is_active := false;
           end_time := Some ended;
           typed_text := typed_text session;
           current_wpm := current_wpm session;
           current_accuracy := current_accuracy session |} in
      (Some (final_score finished),
       {| current_session := Some finished;
          session_timer := None;
          session_end_callbacks := session_end_callbacks e;
          callback_calls := callback_calls e;
          world := w1 |})
  end.

(** The loop [for callback in self.session_end_callbacks]. *)
Definition notify_session_end (score_record : option ScoreRecord)
           (e : Engine) : Engine :=
  {| current_session := current_session e;
     session_timer := session_timer e;
     session_end_callbacks := session_end_callbacks e;
     callback_calls :=
       callback_calls e
       ++ map (fun callback => (callback, score_record))
              (session_end_callbacks e);
     world := world e |}.

(** [end_session()] *)
Definition end_session (e : Engine) : option ScoreRecord * Engine :=
  if negb (is_session_active e) then (None, e)
  else
    let (score_record, e1) := _finalize_session e in
    (score_record, notify_session_end score_record e1).


(** [reset_session()] *)
Definition reset_session (e : Engine) : Engine :=
  {| current_session := None;
     session_timer := None;
     session_end_callbacks := session_end_callbacks e;
     callback_calls := callback_calls e;
     world := world e |}.

End Engine.

(** ** The target texts *)

Section Texts.

Context {R : PyRandom}.
Variable fs : WordSourceLoader.FileSystem.

(** The legacy [WordManager], taken as it is: its state (with that of the
    module [random], which it draws from) and its five text methods, each
    of which returns a text or raises. *)
Variable WordManager : Type.
Variables get_practice_text get_challenge_text get_accuracy_text
          get_speed_text get_endurance_text :
  DifficultyLevel -> Z -> WordManager -> Result string * WordManager.

(** The two sources of text of a [SpeedEngine]; [word_generator] is [None]
    when the default sources could not be loaded. *)
Record Sources : Type := {
  word_generator : option (@WordGenerator.Gen R);
  word_manager : WordManager
}.

(** What [__init__] does with its new [WordGenerator()]. *)
Definition init_word_generator (generator : @WordGenerator.Gen R)
  : option (@WordGenerator.Gen R) :=
  match WordGenerator.load_default_sources fs true generator with
  | (Ok _, generator) => Some generator
  | (Raise _, _) => None
  end.

(** [difficulty_map] *)
Definition difficulty_map (difficulty : DifficultyLevel) : Difficulty :=
  match difficulty with
  | BEGINNER => SIMPLE
  | INTERMEDIATE => MEDIUM
  | ADVANCED => HARD
  | EXPERT => EXTRA_HARD
  end.

(** [_get_target_wpm_for_difficulty(difficulty)] *)
Definition _get_target_wpm_for_difficulty (difficulty : DifficultyLevel) : Z :=
  match difficulty with
  | BEGINNER => 25
  | INTERMEDIATE => 40
  | ADVANCED => 55
  | EXPERT => 70
  end.

Definition newline : string := String (ascii_of_nat 10) EmptyString.

(** The [try] block of [_generate_target_text]: the calls made to the word
    generator. *)
Definition advanced_target_text (mode : GameMode)
           (difficulty : DifficultyLevel) (duration : Z)
  : @WordGenerator.M R string :=
  let advanced_difficulty := difficulty_map difficulty in
  match mode with
  | PRACTICE =>
      WordGenerator.bind
        (WordGenerator.generate_paragraph fs advanced_difficulty 6 200)
        (fun lines => WordGenerator.ret (String.concat newline lines))
  | TIMED_CHALLENGE =>
      let target_wpm := _get_target_wpm_for_difficulty difficulty in
      WordGenerator.bind
        (WordGenerator.generate_for_session fs advanced_difficulty
                                            duration target_wpm)
        (fun words => WordGenerator.ret (String.concat " " words))
  | ACCURACY_FOCUS =>
      let weights :=
        [(WordGenerator.Key advanced_difficulty, 0.7%float);
         (WordGenerator.Key
            (if negb (Difficulty_eqb advanced_difficulty HARD)
             then HARD else EXTRA_HARD), 0.3%float)] in
      WordGenerator.bind
        (WordGenerator.generate_mixed fs weights 100)
        (fun words => WordGenerator.ret (String.concat " " words))
  | SPEED_BURST =>
      WordGenerator.bind
        (WordGenerator.generate_words fs advanced_difficulty 50)
        (fun words => WordGenerator.ret (String.concat " " words))
  | ENDURANCE =>
      let target_wpm := _get_target_wpm_for_difficulty difficulty in
      WordGenerator.bind
        (WordGenerator.generate_for_session fs advanced_difficulty
                                            (duration * 2) target_wpm)
        (fun words => WordGenerator.ret (String.concat " " words))
  end.

(** The fallback of [_generate_target_text] on the legacy word manager. *)
Definition legacy_target_text (mode : GameMode) (difficulty : DifficultyLevel)
           (duration : Z) : WordManager -> Result string * WordManager :=
  match mode with
  | PRACTICE => get_practice_text difficulty duration
  | TIMED_CHALLENGE => get_challenge_text difficulty duration
  | ACCURACY_FOCUS => get_accuracy_text difficulty duration
  | SPEED_BURST => get_speed_text difficulty duration
  | ENDURANCE => get_endurance_text difficulty duration
  end.

(** [if self.word_generator: try: ... except Exception: ...] followed by the
    fallback: the text of the generator when there is a generator and it
    does not raise, the outcome of the legacy method otherwise; what that
    method raises is not caught. *)
Definition generator_or_legacy (advanced : @WordGenerator.M R string)
           (legacy : WordManager -> Result string * WordManager)
           (w : Sources)
  : Result string * Sources :=
  match word_generator w with
  | Some generator =>
      match advanced generator with
      | (Ok text, generator) =>
          (Ok text, {| word_generator := Some generator;
                       word_manager := word_manager w |})
      | (Raise _, generator) =>
          let (outcome, manager) := legacy (word_manager w) in
          (outcome, {| word_generator := Some generator;
                       word_manager := manager |})
      end
  | None =>
      let (outcome, manager) := legacy (word_manager w) in
      (outcome, {| word_generator := None; word_manager := manager |})
  end.

(** [_generate_target_text(mode, difficulty, duration)] *)
Definition _generate_target_text (mode : GameMode)
           (difficulty : DifficultyLevel) (duration : Z)
  : Sources -> Result string * Sources :=
  generator_or_legacy (advanced_target_text mode difficulty duration)
                      (legacy_target_text mode difficulty duration).

(** The [try] block of [_generate_time_based_text]. *)
Definition advanced_time_based_text (mode : GameMode)
           (difficulty : DifficultyLevel) (minutes : Z)
  : @WordGenerator.M R string :=
  let advanced_difficulty := difficulty_map difficulty in
  match mode with
  | TIMED_CHALLENGE =>
      WordGenerator.bind
        (WordGenerator.generate_for_time_selection fs advanced_difficulty
                                                   minutes)
        (fun words => WordGenerator.ret (String.concat " " words))
  | ACCURACY_FOCUS =>
      WordGenerator.bind
        (WordGenerator.generate_for_time_selection fs advanced_difficulty
                                                   minutes)
        (fun base_words => WordGenerator.ret (String.concat " " base_words))
  | SPEED_BURST =>
      WordGenerator.bind
        (WordGenerator.generate_for_time_selection fs advanced_difficulty
                                                   minutes)
        (fun words => WordGenerator.ret (String.concat " " words))
  | ENDURANCE =>
      WordGenerator.bind
        (WordGenerator.generate_for_time_selection fs advanced_difficulty
                                                   minutes)
        (fun words => WordGenerator.ret (String.concat " " words))
  | PRACTICE =>
      WordGenerator.bind
        (WordGenerator.generate_for_time_selection fs advanced_difficulty
                                                   minutes)
        (fun words => WordGenerator.ret (String.concat " " words))
  end.

(** The fallback of [_generate_time_based_text]. *)
Definition legacy_time_based_text (mode : GameMode)
           (difficulty : DifficultyLevel) (minutes : Z)
  : WordManager -> Result string * WordManager :=
  let duration := minutes * 60 in
  match mode with
  | TIMED_CHALLENGE => get_challenge_text difficulty duration
  | ACCURACY_FOCUS => get_accuracy_text difficulty duration
  | SPEED_BURST => get_speed_text difficulty duration
  | ENDURANCE => get_endurance_text difficulty duration
  | PRACTICE => get_challenge_text difficulty duration
  end.

(** [_generate_time_based_text(mode, difficulty, minutes)] *)
Definition _generate_time_based_text (mode : GameMode)
           (difficulty : DifficultyLevel) (minutes : Z)
  : Sources -> Result string * Sources :=
  generator_or_legacy (advanced_time_based_text mode difficulty minutes)
                      (legacy_time_based_text mode difficulty minutes).

End Texts.
End SpeedEngine.

(* ================================================================== *)
(** * game/word_manager.py *)
(* ================================================================== *)

Module WordManager.
Import SpeedEngine.

Section Manager.

(** The state of a [WordManager] and of the module [random]. *)
Variable State : Type.

(** The two upper levels of [get_accuracy_text]: patterns mixed by
    [_mix_patterns], which draws from [random], and laid out by
    [_format_multiline_text]; taken as they are. *)
Variable patterned_accuracy_text :
  DifficultyLevel -> Z -> State -> Result string * State.

(** [get_accuracy_text(difficulty, duration)]. At the two lower levels the
    number of words is asked for before anything is drawn, by
    [self._calculate_words_needed(difficulty, duration, 0.8)]: the class
    defines that method twice, the second definition, which replaces the
    first, has the parameters [difficulty] and [duration] only, and the
    call raises [TypeError]. *)
Definition get_accuracy_text (difficulty : DifficultyLevel) (duration : Z)
           (manager : State) : Result string * State :=
  match difficulty with
  | BEGINNER | INTERMEDIATE => (Raise TypeError, manager)
  | ADVANCED | EXPERT => patterned_accuracy_text difficulty duration manager
  end.

End Manager.

End WordManager.

(* ================================================================== *)
(** * Binary64 values: exact results and rounded ones *)
(* ================================================================== *)

Module BinaryFacts.

(** ** Counting the binary digits *)

Lemma digits2_bounds (p : positive) :
  2 ^ (Zpos (digits2_pos p) - 1) <= Zpos p < 2 ^ Zpos (digits2_pos p).
Proof.
  induction p as [p IH | p IH |]; cbn [digits2_pos].
  - rewrite Pos2Z.inj_succ.
    replace (Z.succ (Zpos (digits2_pos p)) - 1) with
      (Z.succ (Zpos (digits2_pos p) - 1)) by lia.
    rewrite !Z.pow_succ_r by lia. lia.
  - rewrite Pos2Z.inj_succ.
    replace (Z.succ (Zpos (digits2_pos p)) - 1) with
      (Z.succ (Zpos (digits2_pos p) - 1)) by lia.
    rewrite !Z.pow_succ_r by lia. lia.
  - cbn. lia.
Qed.

Lemma digits2_unique (p : positive) (d : Z) :
  2 ^ (d - 1) <= Zpos p < 2 ^ d -> Zpos (digits2_pos p) = d.
Proof.
  intros [Hlow Hhigh]. pose proof (digits2_bounds p) as [Hl Hh].
  assert (Hd : 0 < d).
  { destruct (Z_lt_le_dec 0 d) as [H | H]; [exact H |].
    destruct (Z.eq_dec d 0) as [-> | Hne]; [cbn in Hhigh; lia |].
    rewrite Z.pow_neg_r in Hhigh by lia. lia. }
  destruct (Z_lt_le_dec (Zpos (digits2_pos p)) d) as [Hlt | Hge].
  - assert (2 ^ Zpos (digits2_pos p) <= 2 ^ (d - 1))
      by (apply Z.pow_le_mono_r; lia).
    lia.
  - destruct (Z_lt_le_dec d (Zpos (digits2_pos p))) as [Hgt | Hle]; [| lia].
    assert (2 ^ d <= 2 ^ (Zpos (digits2_pos p) - 1))
      by (apply Z.pow_le_mono_r; lia).
    lia.
Qed.

(** ** Shifting to the right what was shifted to the left *)

Lemma iter_pos_nat {A} (f : A -> A) (p : positive) :
  forall x, iter_pos f p x = Nat.iter (Pos.to_nat p) f x.
Proof.
  induction p as [p IH | p IH |]; intro x; cbn [iter_pos].
  - rewrite !IH, Pos2Nat.inj_xI.
    replace (S (2 * Pos.to_nat p))%nat
      with (Pos.to_nat p + (Pos.to_nat p + 1))%nat by lia.
    rewrite !Nat.iter_add. reflexivity.
  - rewrite !IH, Pos2Nat.inj_xO.
    replace (2 * Pos.to_nat p)%nat
      with (Pos.to_nat p + Pos.to_nat p)%nat by lia.
    rewrite Nat.iter_add. reflexivity.
  - reflexivity.
Qed.

Lemma shr_1_even (q : positive) :
  shr_1 {| shr_m := Zpos q~0; shr_r := false; shr_s := false |}
  = {| shr_m := Zpos q; shr_r := false; shr_s := false |}.
Proof. reflexivity. Qed.

Lemma shr_shifted (n : nat) :
  forall q p : positive,
    Zpos p = Zpos q * 2 ^ Z.of_nat n ->
    Nat.iter n shr_1 {| shr_m := Zpos p; shr_r := false; shr_s := false |}
    = {| shr_m := Zpos q; shr_r := false; shr_s := false |}.
Proof.
  induction n as [| n IH]; intros q p Hp.
  - cbn in Hp. cbn. f_equal. lia.
  - rewrite Nat2Z.inj_succ, Z.pow_succ_r in Hp by lia.
    destruct p as [p | p |]; [lia | | lia].
    rewrite Nat.iter_succ_r, shr_1_even. apply IH. lia.
Qed.

(** ** Rounding what needs no rounding *)

(** A mantissa of 53 digits followed by [n] zeros is rounded to itself. *)
Lemma binary_round_aux_exact (s : bool) (q p : positive) (n e : Z) :
  Zpos (digits2_pos q) = prec ->
  0 <= n ->
  Zpos p = Zpos q * 2 ^ n ->
  SpecFloat.emin prec emax <= e + n <= emax - prec ->
  binary_round_aux prec emax s (Zpos p) e loc_Exact
  = S754_finite s q (e + n).
Proof.
  intros Hq Hn Hp He.
  assert (Hdp : Zpos (digits2_pos p) = prec + n).
  { apply digits2_unique. pose proof (digits2_bounds q) as Hb.
    rewrite Hq in Hb. rewrite Hp.
    replace (prec + n - 1) with (prec - 1 + n) by lia.
    rewrite !Z.pow_add_r by (unfold prec; lia).
    assert (0 < 2 ^ n) by (apply Z.pow_pos_nonneg; lia). nia. }
  unfold binary_round_aux, shr_fexp.
  cbn [Zdigits2 shr_record_of_loc]. rewrite Hdp.
  assert (Hf : SpecFloat.fexp prec emax (prec + n + e) - e = n).
  { unfold SpecFloat.fexp, SpecFloat.emin, prec, emax in *. lia. }
  rewrite Hf.
  assert (Hshift :
            shr {| shr_m := Zpos p; shr_r := false; shr_s := false |} e n
            = ({| shr_m := Zpos q; shr_r := false; shr_s := false |}, e + n)).
  { unfold shr. destruct n as [| k | k]; [| | lia].
    - rewrite Z.add_0_r. f_equal. f_equal. cbn in Hp. lia.
    - f_equal. rewrite iter_pos_nat. apply shr_shifted.
      rewrite positive_nat_Z. exact Hp. }
  rewrite Hshift. cbn [shr_m loc_of_shr_record round_nearest_even Zdigits2].
  rewrite Hq.
  assert (Hf' : SpecFloat.fexp prec emax (prec + (e + n)) - (e + n) = 0).
  { unfold SpecFloat.fexp, SpecFloat.emin, prec, emax in *. lia. }
  rewrite Hf'. cbn [shr shr_m].
  destruct (e + n <=? emax - prec) eqn:E; [reflexivity |].
  apply Z.leb_gt in E. lia.
Qed.

Lemma iter_xO_value (p d : positive) :
  Zpos (Pos.iter xO p d) = Zpos p * 2 ^ Zpos d.
Proof.
  induction d as [| d IH] using Pos.peano_ind.
  - cbn. lia.
  - rewrite Pos.iter_succ, Pos2Z.inj_succ, Z.pow_succ_r by lia.
    rewrite Pos2Z.inj_xO, IH. lia.
Qed.

Lemma shl_align_value (mx : positive) (ex ex' : Z) :
  ex' <= ex ->
  exists mz, shl_align mx ex ex' = (mz, ex')
             /\ Zpos mz = Zpos mx * 2 ^ (ex - ex').
Proof.
  intro Hle. unfold shl_align. destruct (ex' - ex) as [| k | k] eqn:E.
  - exists mx. replace ex' with ex by lia. rewrite Z.sub_diag.
    split; [reflexivity | cbn; lia].
  - lia.
  - exists (Pos.iter xO mx k). split; [reflexivity |].
    rewrite iter_xO_value. f_equal. f_equal. lia.
Qed.

(** Every positive number below [2^53] is a mantissa of 53 digits, once
    shifted to the left. *)
Lemma normalised (w : Z) :
  0 < w < 2 ^ prec ->
  exists (q : positive) (i : Z),
    0 <= i < prec
    /\ Zpos q = w * 2 ^ i
    /\ Zpos (digits2_pos q) = prec
    /\ forall p, w = Zpos p -> i = prec - Zpos (digits2_pos p).
Proof.
  intros [Hpos Hlt]. destruct w as [| p | p]; [lia | | lia].
  pose proof (digits2_bounds p) as [Hl Hh].
  set (D := Zpos (digits2_pos p)) in *.
  assert (HD : 1 <= D <= prec).
  { split; [unfold D; lia |].
    destruct (Z_lt_le_dec prec D) as [Hgt | Hle]; [| exact Hle].
    assert (2 ^ prec <= 2 ^ (D - 1)) by (apply Z.pow_le_mono_r; lia).
    lia. }
  assert (Hpow : 0 < 2 ^ (prec - D)) by (apply Z.pow_pos_nonneg; lia).
  exists (Z.to_pos (Zpos p * 2 ^ (prec - D))), (prec - D).
  assert (Hq : Zpos (Z.to_pos (Zpos p * 2 ^ (prec - D)))
               = Zpos p * 2 ^ (prec - D)) by (apply Z2Pos.id; nia).
  split; [unfold prec in *; lia |]. split; [exact Hq |]. split.
  - apply digits2_unique. rewrite Hq.
    assert (Hlow : 2 ^ (prec - 1) = 2 ^ (D - 1) * 2 ^ (prec - D))
      by (rewrite <- Z.pow_add_r by lia; f_equal; lia).
    assert (Hhigh : 2 ^ prec = 2 ^ D * 2 ^ (prec - D))
      by (rewrite <- Z.pow_add_r by lia; f_equal; lia).
    rewrite Hlow, Hhigh.
    split.
    + apply Z.mul_le_mono_nonneg_r; lia.
    + apply Z.mul_lt_mono_pos_r; lia.
  - intros p' Hp'. injection Hp' as <-. reflexivity.
Qed.

Lemma finite_valid (s : bool) (q : positive) (e : Z) :
  Zpos (digits2_pos q) = prec ->
  SpecFloat.emin prec emax <= e <= emax - prec ->
  valid_binary (S754_finite s q e) = true.
Proof.
  intros Hq He. cbn [SpecFloat.valid_binary]. unfold bounded, canonical_mantissa.
  rewrite Hq. apply andb_true_intro. split.
  - apply Z.eqb_eq. unfold SpecFloat.fexp, SpecFloat.emin, prec, emax in *. lia.
  - apply Z.leb_le. lia.
Qed.

(** [float(z)] is exact below [2^53]. *)
Lemma binary_normalize_exact (z : Z) :
  0 < z < 2 ^ prec ->
  exists (q : positive) (i : Z),
    0 <= i < prec
    /\ Zpos q = z * 2 ^ i
    /\ Zpos (digits2_pos q) = prec
    /\ binary_normalize prec emax z 0 false = S754_finite false q (- i).
Proof.
  intro Hz. destruct (normalised z Hz) as [q [i [Hi [Hq [Hdq Hdigits]]]]].
  exists q, i. split; [exact Hi |]. split; [exact Hq |].
  split; [exact Hdq |].
  destruct z as [| p | p]; [lia | | lia].
  specialize (Hdigits p eq_refl).
  cbn [binary_normalize]. unfold binary_round.
  assert (Hf : SpecFloat.fexp prec emax (Zpos (digits2_pos p) + 0) = - i).
  { unfold SpecFloat.fexp, SpecFloat.emin, prec, emax in *. lia. }
  rewrite Hf.
  destruct (shl_align_value p 0 (- i)) as [mz [Halign Hmz]]; [lia |].
  rewrite Halign.
  assert (mz = q) as -> .
  { apply Pos2Z.inj. rewrite Hmz, Hq. f_equal. f_equal. lia. }
  rewrite (binary_round_aux_exact false q q 0 (- i)).
  - rewrite Z.add_0_r. reflexivity.
  - exact Hdq.
  - lia.
  - cbn. lia.
  - unfold SpecFloat.emin, prec, emax in *. lia.
Qed.

(** ** Rounding a long mantissa *)

Lemma shr_1_half (r : shr_record) :
  0 <= shr_m r -> shr_m (shr_1 r) = shr_m r / 2.
Proof.
  destruct r as [m b s]. cbn [shr_m]. intro Hm.
  destruct m as [| p | p]; [reflexivity | | lia].
  destruct p as [p | p |]; cbn [shr_1 shr_m].
  - rewrite Pos2Z.inj_xI. apply Z.div_unique with (r := 1); lia.
  - rewrite Pos2Z.inj_xO. apply Z.div_unique with (r := 0); lia.
  - reflexivity.
Qed.

Lemma shr_halves (n : nat) (r : shr_record) :
  0 <= shr_m r ->
  shr_m (Nat.iter n shr_1 r) = shr_m r / 2 ^ Z.of_nat n.
Proof.
  intro Hm. induction n as [| n IH].
  - cbn. rewrite Z.div_1_r. reflexivity.
  - rewrite Nat.iter_succ, shr_1_half.
    + rewrite IH, Nat2Z.inj_succ, Z.pow_succ_r by lia.
      rewrite Z.div_div by (try apply Z.pow_pos_nonneg; lia).
      f_equal. lia.
    + rewrite IH. apply Z.div_pos; [exact Hm |].
      apply Z.pow_pos_nonneg; lia.
Qed.

Lemma round_nearest_even_next (m : Z) (l : location) :
  round_nearest_even m l = m \/ round_nearest_even m l = m + 1.
Proof.
  destruct l as [| [| |]]; cbn [round_nearest_even]; auto.
  destruct (Z.even m); auto.
Qed.

Lemma shr_drops (p : positive) (e n : Z) :
  0 <= n ->
  exists r,
    shr {| shr_m := Zpos p; shr_r := false; shr_s := false |} e n
    = (r, e + n)
    /\ shr_m r = Zpos p / 2 ^ n.
Proof.
  intro Hn. unfold shr. destruct n as [| k | k]; [| | lia].
  - eexists. split; [rewrite Z.add_0_r; reflexivity |].
    cbn [shr_m]. rewrite Z.div_1_r. reflexivity.
  - eexists. split; [reflexivity |].
    rewrite iter_pos_nat, shr_halves by (cbn; lia).
    rewrite positive_nat_Z. reflexivity.
Qed.

(** A mantissa of [prec] digits or more, rounded: the result has [prec]
    digits, and an exponent larger by the number of digits dropped, or by
    one more; it is infinite when that exponent is too large. *)
Lemma binary_round_aux_long (s : bool) (p : positive) (e : Z) :
  prec <= Zpos (digits2_pos p) ->
  SpecFloat.emin prec emax <= e + Zpos (digits2_pos p) - prec ->
  exists (q : positive) (e' : Z),
    Zpos (digits2_pos q) = prec
    /\ e + Zpos (digits2_pos p) - prec <= e'
       <= e + Zpos (digits2_pos p) - prec + 1
    /\ binary_round_aux prec emax s (Zpos p) e loc_Exact
       = if e' <=? emax - prec then S754_finite s q e' else S754_infinity s.
Proof.
  intros Hlong Hmin.
  pose proof (digits2_bounds p) as [Hlow Hhigh].
  set (D := Zpos (digits2_pos p)) in *.
  set (n := D - prec).
  assert (Hn : 0 <= n) by (unfold n; lia).
  assert (Hpow : 0 < 2 ^ n) by (apply Z.pow_pos_nonneg; lia).
  (* the mantissa once the digits beyond [prec] are dropped *)
  set (m1 := Zpos p / 2 ^ n).
  assert (Hm1 : 2 ^ (prec - 1) <= m1 < 2 ^ prec).
  { unfold m1. split.
    - apply Z.div_le_lower_bound; [exact Hpow |].
      rewrite <- Z.pow_add_r by (unfold prec; lia).
      replace (n + (prec - 1)) with (D - 1) by (unfold n; lia). exact Hlow.
    - apply Z.div_lt_upper_bound; [exact Hpow |].
      rewrite <- Z.pow_add_r by (unfold prec; lia).
      replace (n + prec) with D by (unfold n; lia). exact Hhigh. }
  unfold binary_round_aux, shr_fexp.
  cbn [Zdigits2 shr_record_of_loc]. fold D.
  assert (Hf : SpecFloat.fexp prec emax (D + e) - e = n).
  { unfold SpecFloat.fexp, n. unfold SpecFloat.emin, prec, emax in *. lia. }
  rewrite Hf.
  destruct (shr_drops p e n Hn) as [r [Hshift Hr]]. fold m1 in Hr.
  rewrite Hshift, Hr.
  set (m2 := round_nearest_even m1 (loc_of_shr_record r)).
  assert (Hm2 : 2 ^ (prec - 1) <= m2 <= 2 ^ prec).
  { destruct (round_nearest_even_next m1 (loc_of_shr_record r)) as [H | H];
      unfold m2; rewrite H; lia. }
  destruct (Z.eq_dec m2 (2 ^ prec)) as [Htop | Hbelow].
  - (* the rounding carries into one more digit *)
    rewrite Htop.
    exists (Z.to_pos (2 ^ (prec - 1))), (e + n + 1).
    split; [reflexivity |]. split; [unfold n; lia |].
    change (Zdigits2 (2 ^ prec)) with (prec + 1).
    assert (Hf1 : SpecFloat.fexp prec emax (prec + 1 + (e + n))
                  - (e + n) = 1).
    { unfold SpecFloat.fexp. unfold n, SpecFloat.emin, prec, emax in *. lia. }
    rewrite Hf1. reflexivity.
  - (* the rounded mantissa still has [prec] digits *)
    assert (Hpos : 0 < m2).
    { assert (0 < 2 ^ (prec - 1)) by (apply Z.pow_pos_nonneg; unfold prec; lia).
      lia. }
    destruct m2 as [| q | q] eqn:Hq; [lia | | lia].
    assert (Hdq : Zpos (digits2_pos q) = prec)
      by (apply digits2_unique; lia).
    exists q, (e + n). split; [exact Hdq |]. split; [unfold n; lia |].
    cbn [Zdigits2]. rewrite Hdq.
    assert (Hf0 : SpecFloat.fexp prec emax (prec + (e + n)) - (e + n) = 0).
    { unfold SpecFloat.fexp. unfold n, SpecFloat.emin, prec, emax in *. lia. }
    rewrite Hf0. reflexivity.
Qed.

(** The double nearest to a positive int: a mantissa of [prec] digits and
    an exponent of [-52] or more, or infinity for an int of more than 1021
    binary digits that rounds beyond the largest double. *)
Lemma float_of_int_positive (p : positive) :
  exists (q : positive) (e : Z),
    Zpos (digits2_pos q) = prec
    /\ - 52 <= e <= Z.max 0 (Zpos (digits2_pos p) - 52)
    /\ Prim2SF (float_of_int (Zpos p))
       = if e <=? emax - prec then S754_finite false q e
         else S754_infinity false.
Proof.
  unfold float_of_int.
  destruct (Z_lt_le_dec (Zpos p) (2 ^ prec)) as [Hshort | Hlong].
  - destruct (binary_normalize_exact (Zpos p)) as [q [i [Hi [Hq [Hdq Hn]]]]];
      [lia |].
    exists q, (- i). split; [exact Hdq |].
    split; [unfold prec in *; lia |].
    destruct (- i <=? emax - prec) eqn:E;
      [| apply Z.leb_gt in E; unfold prec, emax in *; lia].
    rewrite Hn. apply Prim2SF_SF2Prim, finite_valid; [exact Hdq |].
    unfold SpecFloat.emin, prec, emax in *. lia.
  - pose proof (digits2_bounds p) as [Hlow Hhigh].
    assert (Hd : prec < Zpos (digits2_pos p)).
    { destruct (Z_lt_le_dec prec (Zpos (digits2_pos p))) as [H | H];
        [exact H |].
      assert (2 ^ Zpos (digits2_pos p) <= 2 ^ prec)
        by (apply Z.pow_le_mono_r; lia).
      lia. }
    cbn [binary_normalize]. unfold binary_round.
    assert (Hf : SpecFloat.fexp prec emax (Zpos (digits2_pos p) + 0)
                 = Zpos (digits2_pos p) - prec).
    { unfold SpecFloat.fexp, SpecFloat.emin, prec, emax in *. lia. }
    rewrite Hf. unfold shl_align.
    destruct (Zpos (digits2_pos p) - prec - 0) as [| k | k] eqn:Ek;
      [lia | | lia].
    destruct (binary_round_aux_long false p 0) as [q [e [Hdq [He Hr]]]];
      [lia | unfold SpecFloat.emin, prec, emax in *; lia |].
    exists q, e. split; [exact Hdq |].
    split; [unfold prec in *; lia |].
    rewrite Hr. apply Prim2SF_SF2Prim.
    destruct (e <=? emax - prec) eqn:E; [| reflexivity].
    apply Z.leb_le in E. apply finite_valid; [exact Hdq |].
    unfold SpecFloat.emin, prec, emax in *. lia.
Qed.

End BinaryFacts.

(* ================================================================== *)
(** * The order of the binary64 values *)
(* ================================================================== *)

Module FloatOrder.

(** The comparison of two [float]s is the lexicographic comparison of
    their class (infinite, finite or zero, with the sign), exponent and
    mantissa. *)
Definition key (x : spec_float) : Z * Z * Z :=
  match x with
  | S754_zero _ => (0, 0, 0)
  | S754_infinity false => (2, 0, 0)
  | S754_infinity true => (-2, 0, 0)
  | S754_finite false m e => (1, e, Zpos m)
  | S754_finite true m e => (-1, - e, Zneg m)
  | S754_nan => (0, 0, 0)
  end.

Definition key_compare (a b : Z * Z * Z) : comparison :=
  let '(c1, e1, m1) := a in
  let '(c2, e2, m2) := b in
  match c1 ?= c2 with
  | Eq => match e1 ?= e2 with Eq => m1 ?= m2 | other => other end
  | other => other
  end.

Definition below (a b : Z * Z * Z) : Prop :=
  let '(c1, e1, m1) := a in
  let '(c2, e2, m2) := b in
  c1 < c2 \/ (c1 = c2 /\ (e1 < e2 \/ (e1 = e2 /\ m1 < m2))).

Definition rank (x : float) : Z * Z * Z := key (Prim2SF x).

Lemma SFcompare_key (x y : spec_float) :
  x <> S754_nan -> y <> S754_nan ->
  SFcompare x y = Some (key_compare (key x) (key y)).
Proof.
  intros Hx Hy.
  destruct x as [sx | sx | | sx mx ex]; [| | contradiction |];
    destruct y as [sy | sy | | sy my ey]; try contradiction;
    try (destruct sx; destruct sy; reflexivity);
    try (destruct sx; reflexivity); try (destruct sy; reflexivity).
  destruct sx, sy; cbn [SFcompare key key_compare]; try reflexivity.
  change (-1 ?= -1) with Eq. cbv iota. rewrite Z.compare_opp.
  rewrite (Z.compare_antisym ex ey).
  destruct (ex ?= ey); reflexivity.
Qed.

Lemma key_compare_lt a b : key_compare a b = Lt <-> below a b.
Proof.
  destruct a as [[c1 e1] m1], b as [[c2 e2] m2]. unfold key_compare, below.
  destruct (Z.compare_spec c1 c2), (Z.compare_spec e1 e2),
    (Z.compare_spec m1 m2); split; intro Hc; try discriminate;
    try reflexivity; lia.
Qed.

Lemma key_compare_eq a b : key_compare a b = Eq <-> a = b.
Proof.
  destruct a as [[c1 e1] m1], b as [[c2 e2] m2]. unfold key_compare.
  destruct (Z.compare_spec c1 c2), (Z.compare_spec e1 e2),
    (Z.compare_spec m1 m2); split; intro Hc; try discriminate;
    try reflexivity; try (injection Hc; lia); subst; reflexivity.
Qed.

Lemma key_compare_gt a b : key_compare a b = Gt <-> below b a.
Proof.
  destruct a as [[c1 e1] m1], b as [[c2 e2] m2]. unfold key_compare, below.
  destruct (Z.compare_spec c1 c2), (Z.compare_spec e1 e2),
    (Z.compare_spec m1 m2); split; intro Hc; try discriminate;
    try reflexivity; lia.
Qed.

(** ** The order on the keys *)

Lemma below_trans a b c : below a b -> below b c -> below a c.
Proof.
  destruct a as [[c1 e1] m1], b as [[c2 e2] m2], c as [[c3 e3] m3].
  unfold below. lia.
Qed.

Lemma below_irrefl a : ~ below a a.
Proof. destruct a as [[c1 e1] m1]. unfold below. lia. Qed.

Lemma below_total a b : below a b \/ a = b \/ below b a.
Proof.
  destruct a as [[c1 e1] m1], b as [[c2 e2] m2]. unfold below.
  destruct (Z.lt_trichotomy c1 c2) as [H | [H | H]];
    destruct (Z.lt_trichotomy e1 e2) as [H' | [H' | H']];
    destruct (Z.lt_trichotomy m1 m2) as [H'' | [H'' | H'']];
    subst;
    first [ left; lia | right; left; reflexivity | right; right; lia ].
Qed.

(** ** The comparisons of [float]s *)

Lemma is_nan_spec (x : float) :
  is_nan x = false <-> Prim2SF x <> S754_nan.
Proof.
  unfold is_nan. rewrite FloatAxioms.eqb_spec. unfold SFeqb. split.
  - intros H Hnan. rewrite Hnan in H. discriminate.
  - intro H. rewrite (SFcompare_key _ _ H H).
    rewrite (proj2 (key_compare_eq _ _) eq_refl). reflexivity.
Qed.

Lemma compared_not_nan (x y : float) (c : comparison) :
  SFcompare (Prim2SF x) (Prim2SF y) = Some c ->
  is_nan x = false /\ is_nan y = false.
Proof.
  intro H. split; apply is_nan_spec; intro Hnan; rewrite Hnan in H.
  - discriminate.
  - destruct (Prim2SF x); discriminate.
Qed.

Lemma ltb_below (x y : float) :
  (x <? y)%float = true
  <-> is_nan x = false /\ is_nan y = false /\ below (rank x) (rank y).
Proof.
  rewrite FloatAxioms.ltb_spec. unfold SFltb, rank. split.
  - destruct (SFcompare (Prim2SF x) (Prim2SF y)) as [c |] eqn:E;
      [| discriminate].
    destruct (compared_not_nan x y c E) as [Hx Hy].
    rewrite (SFcompare_key _ _ (proj1 (is_nan_spec x) Hx)
                           (proj1 (is_nan_spec y) Hy)) in E.
    injection E as <-. intro H. split; [exact Hx | split; [exact Hy |]].
    apply key_compare_lt. destruct (key_compare _ _); congruence.
  - intros [Hx [Hy H]].
    rewrite (SFcompare_key _ _ (proj1 (is_nan_spec x) Hx)
                           (proj1 (is_nan_spec y) Hy)).
    rewrite (proj2 (key_compare_lt _ _) H). reflexivity.
Qed.

Lemma eqb_rank (x y : float) :
  (x =? y)%float = true
  <-> is_nan x = false /\ is_nan y = false /\ rank x = rank y.
Proof.
  rewrite FloatAxioms.eqb_spec. unfold SFeqb, rank. split.
  - destruct (SFcompare (Prim2SF x) (Prim2SF y)) as [c |] eqn:E;
      [| discriminate].
    destruct (compared_not_nan x y c E) as [Hx Hy].
    rewrite (SFcompare_key _ _ (proj1 (is_nan_spec x) Hx)
                           (proj1 (is_nan_spec y) Hy)) in E.
    injection E as <-. intro H. split; [exact Hx | split; [exact Hy |]].
    apply key_compare_eq. destruct (key_compare _ _); congruence.
  - intros [Hx [Hy H]].
    rewrite (SFcompare_key _ _ (proj1 (is_nan_spec x) Hx)
                           (proj1 (is_nan_spec y) Hy)).
    rewrite (proj2 (key_compare_eq _ _) H). reflexivity.
Qed.

Lemma leb_not_below (x y : float) :
  (x <=? y)%float = true
  <-> is_nan x = false /\ is_nan y = false /\ ~ below (rank y) (rank x).
Proof.
  rewrite FloatAxioms.leb_spec. unfold SFleb, rank. split.
  - destruct (SFcompare (Prim2SF x) (Prim2SF y)) as [c |] eqn:E;
      [| discriminate].
    destruct (compared_not_nan x y c E) as [Hx Hy].
    rewrite (SFcompare_key _ _ (proj1 (is_nan_spec x) Hx)
                           (proj1 (is_nan_spec y) Hy)) in E.
    injection E as <-. intro H. split; [exact Hx | split; [exact Hy |]].
    intro Hgt. apply key_compare_gt in Hgt. rewrite Hgt in H. discriminate.
  - intros [Hx [Hy H]].
    rewrite (SFcompare_key _ _ (proj1 (is_nan_spec x) Hx)
                           (proj1 (is_nan_spec y) Hy)).
    destruct (key_compare (key (Prim2SF x)) (key (Prim2SF y))) eqn:E;
      [reflexivity | reflexivity |].
    apply key_compare_gt in E. contradiction.
Qed.

End FloatOrder.

(* ================================================================== *)
(** * Properties of the performance calculator *)
(* ================================================================== *)

Module PerformanceCalculatorFacts.
Import PerformanceCalculator.

(** The number of positions, among the first [min(len, len)], at which the
    two texts carry the same character (the [matches] of the specification). *)
Fixpoint matches (typed_text target_text : string) : Z :=
  match typed_text, target_text with
  | String a s, String b t =>
      (if Ascii.eqb a b then 1 else 0) + matches s t
  | _, _ => 0
  end.

(** A positive elapsed time does not take the [<= 0] exit. *)
Lemma positive_not_leb_zero (t : float) :
  (0 <? t)%float = true -> (t <=? 0)%float = false.
Proof.
  rewrite ltb_spec, leb_spec.
  unfold SFltb, SFleb.
  change (Prim2SF 0) with (S754_zero false).
  destruct (Prim2SF t) as [s | s | | s m e]; simpl; try discriminate.
  - destruct s; [discriminate | reflexivity].
  - destruct s; [discriminate | reflexivity].
Qed.

(** The index loop counts exactly the matching positions of the common
    prefix, whatever offset the texts are read from. *)
Lemma count_loop_matches (s t : string) :
  forall (typed target : string) (k : nat) (acc : Z),
    (forall i, String.get (k + i) typed = String.get i s) ->
    (forall i, String.get (k + i) target = String.get i t) ->
    fold_left (count_step typed target)
              (seq k (Nat.min (String.length s) (String.length t))) acc
    = acc + matches s t.
Proof.
  revert t. induction s as [| a s IH]; intros t typed target k acc Hs Ht.
  - simpl. lia.
  - destruct t as [| b t].
    + simpl. lia.
    + cbn [String.length Nat.min seq fold_left matches].
      unfold count_step at 2.
      pose proof (Hs 0%nat) as Hs0. pose proof (Ht 0%nat) as Ht0.
      rewrite Nat.add_0_r in Hs0, Ht0. rewrite Hs0, Ht0. cbn [String.get].
      rewrite (IH t typed target (S k)).
      * destruct (Ascii.eqb a b); lia.
      * intro i. specialize (Hs (S i)).
        rewrite Nat.add_succ_r in Hs. exact Hs.
      * intro i. specialize (Ht (S i)).
        rewrite Nat.add_succ_r in Ht. exact Ht.
Qed.


(** The smallest positive [float], [2^-1074] (about [5e-324]). *)
Definition smallest_positive : float := 0x1p-1074%float.



(** C8. [calculate_wpm(typed, t)] does not return a value for every [t > 0]:
    for a positive [t] so small that [t / 60.0] is zero in double precision
    the division [(len(typed) / 5.0) / time_minutes] raises
    [ZeroDivisionError]; so it does at the smallest positive [float], which
    passes the guard [time_elapsed_seconds <= 0], whereas
    [calculate_real_time_stats] returns [(0.0, 0.0)] there. *)
Theorem calculate_wpm_raises_on_underflow :
  (forall typed t,
     (0 <? t)%float = true ->
     (t / 60 =? 0)%float = true ->
     calculate_wpm typed t = Raise ZeroDivisionError)
  /\ (0 <? smallest_positive)%float = true
  /\ (smallest_positive / 60 =? 0)%float = true
  /\ calculate_wpm "hello world" smallest_positive = Raise ZeroDivisionError
  /\ calculate_real_time_stats "hello world" "hello world" smallest_positive
     = Ok (0%float, 0%float).
Proof.
  split; [| repeat split; vm_compute; reflexivity].
  intros typed t Ht Hminutes. unfold calculate_wpm, py_truediv.
  rewrite (positive_not_leb_zero t Ht), Hminutes. reflexivity.
Qed.

End PerformanceCalculatorFacts.

(* ================================================================== *)
(** * Properties of the session engine *)
(* ================================================================== *)

Module SpeedEngineFacts.
Import DatabaseManager SpeedEngine.

Section Engine.

Variable World : Type.
Variable gen_text gen_time_text :
  GameMode -> DifficultyLevel -> Z -> World -> Result string * World.
Variable dynamic_duration : string -> DifficultyLevel -> GameMode -> Z.
Variable clock_now : World -> Z * World.
Variable make_session_id : string -> Z -> string.
Variable final_score : GameSession -> ScoreRecord.

Abbreviation start :=
  (start_session World gen_text dynamic_duration clock_now make_session_id).
Abbreviation start_timed :=
  (start_time_based_session World gen_time_text clock_now make_session_id).
Abbreviation finish := (end_session World clock_now final_score).

(** A start that is not refused returns true and leaves the engine with an
    active session when the text generator returns a text; it raises what
    the generator raises otherwise, and no session is started. *)
Lemma start_session_activates user mode difficulty duration
      (e : Engine World) :
  is_session_active World e = false ->
  match fst (gen_text mode difficulty duration (world World e)) with
  | Ok _ =>
      fst (start user mode difficulty duration e) = Ok true
      /\ is_session_active World (snd (start user mode difficulty duration e))
         = true
  | Raise exc =>
      fst (start user mode difficulty duration e) = Raise exc
      /\ is_session_active World (snd (start user mode difficulty duration e))
         = false
  end.
Proof.
  intro Hidle. unfold start_session. rewrite Hidle.
  destruct (gen_text mode difficulty duration (world World e))
    as [[text | exc] w1]; cbn [fst].
  - destruct (clock_now w1) as [t w2].
    destruct (clock_now w2) as [started w3].
    split; reflexivity.
  - split; [reflexivity | exact Hidle].
Qed.

(** C4. While a session is active, [start_session] and
    [start_time_based_session] return false and leave the engine, hence the
    current session, as it was. On an idle engine, [start_session] returns
    true when the text generator returns a text, and a second start, by
    either method, then returns false; when the text generator raises, the
    exception passes through and no session is started. [end_session]
    without an active session returns nothing, calls no session-end
    callback and changes nothing. *)
Theorem session_guard :
  forall (e : Engine World),
    (is_session_active World e = true ->
     forall user mode difficulty n,
       start user mode difficulty n e = (Ok false, e)
       /\ start_timed user mode difficulty n e = (Ok false, e))
    /\ (is_session_active World e = false ->
        (forall user mode difficulty n user' mode' difficulty' n',
           (forall exc, fst (gen_text mode difficulty n (world World e))
                        <> Raise exc) ->
           fst (start user mode difficulty n e) = Ok true
           /\ start user' mode' difficulty' n'
                    (snd (start user mode difficulty n e))
              = (Ok false, snd (start user mode difficulty n e))
           /\ start_timed user' mode' difficulty' n'
                          (snd (start user mode difficulty n e))
              = (Ok false, snd (start user mode difficulty n e)))
        /\ (forall user mode difficulty n exc,
               fst (gen_text mode difficulty n (world World e)) = Raise exc ->
               fst (start user mode difficulty n e) = Raise exc
               /\ is_session_active World
                                    (snd (start user mode difficulty n e))
                  = false)
        /\ finish e = (None, e)
        /\ callback_calls World (snd (finish e)) = callback_calls World e).
Proof.
  intro e. split.
  - intros Hactive user mode difficulty n.
    unfold start_session, start_time_based_session.
    rewrite Hactive. split; reflexivity.
  - intro Hidle. split; [| split; [| split]].
    + intros user mode difficulty n user' mode' difficulty' n' Htext.
      pose proof (start_session_activates user mode difficulty n e Hidle)
        as Hstart.
      destruct (fst (gen_text mode difficulty n (world World e)))
        as [text | exc]; [| exfalso; exact (Htext exc eq_refl)].
      destruct Hstart as [Hstarted Hactive].
      split; [exact Hstarted |].
      unfold start_session at 1, start_time_based_session at 1.
      rewrite Hactive. split; reflexivity.
    + intros user mode difficulty n exc Hraise.
      pose proof (start_session_activates user mode difficulty n e Hidle)
        as Hstart.
      rewrite Hraise in Hstart. exact Hstart.
    + unfold end_session. rewrite Hidle. reflexivity.
    + unfold end_session. rewrite Hidle. reflexivity.
Qed.

End Engine.

(** An engine whose collaborators are trivial: the text is fixed and the
    clock stands still. *)
Definition idle_engine : Engine unit :=
  {| current_session := None;
     session_timer := None;
     session_end_callbacks := [1%nat; 2%nat];
     callback_calls := [];
     world := tt |}.

Definition fixed_text (_ : GameMode) (_ : DifficultyLevel) (_ : Z) (w : unit)
  : Result string * unit := (Ok "the and for"%string, w).

Definition zero_score (_ : GameSession) : ScoreRecord :=
  {| id := None; user_name := "ann"; wpm := 0%float; accuracy := 0%float;
     level := "beginner"; mode := "practice"; duration := 0;
     total_characters := 0; correct_characters := 0 |}.

Lemma session_guard_witness :
  is_session_active unit idle_engine = false
  /\ fst (start_session unit fixed_text (fun _ _ _ => 60)
                        (fun w => (0, w)) (fun user _ => user)
                        "ann" PRACTICE BEGINNER 60 idle_engine) = Ok true
  /\ fst (start_session
            unit fixed_text (fun _ _ _ => 60)
            (fun w => (0, w)) (fun user _ => user)
            "bob" PRACTICE BEGINNER 60
            (snd (start_session unit fixed_text (fun _ _ _ => 60)
                                (fun w => (0, w)) (fun user _ => user)
                                "ann" PRACTICE BEGINNER 60 idle_engine)))
     = Ok false
  /\ end_session unit (fun w => (0, w)) zero_score idle_engine
     = (None, idle_engine).
Proof.
  pose proof (session_guard unit fixed_text fixed_text (fun _ _ _ => 60)
                (fun w => (0, w)) (fun user _ => user) zero_score
                idle_engine) as [_ Hidle].
  specialize (Hidle eq_refl). destruct Hidle as [Hstart [_ [Hend _]]].
  destruct (Hstart "ann"%string PRACTICE BEGINNER 60
                   "bob"%string PRACTICE BEGINNER 60)
    as [Hfirst [Hsecond _]]; [discriminate |].
  split; [reflexivity | split; [exact Hfirst | split; [| exact Hend]]].
  rewrite Hsecond. reflexivity.
Defined.

End SpeedEngineFacts.

(* ================================================================== *)
(** * Properties of the word source loader *)
(* ================================================================== *)

Module WordSourceLoaderFacts.
Import WordSourceLoader.

(** What the specification asks of [load_file] on an existing file: the
    entries of the first encoding that decodes the file, and nothing else. *)
Fixpoint first_decoding (view : FileView) (encodings : list Encoding)
  : option (list string) :=
  match encodings with
  | [] => None
  | encoding :: rest =>
      match read_end (view encoding) with
      | EndOfFile => Some (lines_read (view encoding))
      | _ => first_decoding view rest
      end
  end.

Definition parse_lines (allow_phrases : bool) (lines : list string)
  : list string :=
  fold_left (process_line allow_phrases) lines [].

(** ** Entries are never empty *)

Definition all_truthy (words : list string) : Prop :=
  Forall (fun w => truthy w = true) words.

Lemma process_line_truthy allow_phrases words line :
  all_truthy words -> all_truthy (process_line allow_phrases words line).
Proof.
  intro Hwords. unfold process_line.
  destruct (truthy (strip line)) eqn:Hline; cbn [negb orb]; [| exact Hwords].
  destruct (startswith (strip line) "#"); [exact Hwords |].
  assert (Hone : all_truthy (words ++ [strip line])).
  { apply Forall_app. split; [exact Hwords |]. constructor; [exact Hline |].
    constructor. }
  destruct allow_phrases; [exact Hone |].
  destruct (contains " " (strip line)); [| exact Hone].
  apply Forall_app. split; [exact Hwords |].
  apply Forall_forall. intros w Hin. apply filter_In in Hin. apply Hin.
Qed.

Lemma process_lines_truthy allow_phrases lines :
  forall words,
    all_truthy words ->
    all_truthy (fold_left (process_line allow_phrases) lines words).
Proof.
  induction lines as [| line lines IH]; intros words Hwords; cbn [fold_left].
  - exact Hwords.
  - apply IH. apply process_line_truthy. exact Hwords.
Qed.

Lemma try_encodings_truthy view allow_phrases encodings :
  forall words result,
    all_truthy words ->
    try_encodings view allow_phrases encodings words = Ok result ->
    all_truthy result.
Proof.
  induction encodings as [| encoding rest IH]; intros words result Hwords Hrun;
    cbn [try_encodings] in Hrun.
  - discriminate.
  - pose proof (process_lines_truthy allow_phrases
                  (lines_read (view encoding)) words Hwords) as Hnext.
    destruct (read_end (view encoding)).
    + injection Hrun as <-. exact Hnext.
    + exact (IH _ _ Hnext Hrun).
    + discriminate.
    + exact (IH _ _ Hnext Hrun).
Qed.

Lemma load_file_truthy fs filepath allow_phrases result :
  load_file fs filepath allow_phrases = Ok result -> all_truthy result.
Proof.
  unfold load_file. destruct (fs filepath) as [view |]; [| discriminate].
  apply try_encodings_truthy. constructor.
Qed.

Lemma fallback_words_truthy d : all_truthy (_get_fallback_words d).
Proof.
  destruct d; repeat (constructor; [reflexivity |]); constructor.
Qed.

Lemma fallback_words_not_empty d : _get_fallback_words d <> [].
Proof. destruct d; discriminate. Qed.

(** ** The load attempts and the cache *)

Lemma try_paths_cases fs paths :
  match try_paths fs paths with
  | Some (Raise FileNotFoundError) => False
  | Some (Ok words) => all_truthy words
  | _ => True
  end.
Proof.
  induction paths as [| filepath rest IH]; cbn [try_paths]; [exact I |].
  destruct (load_file fs filepath true) as [words | e] eqn:Hload.
  - exact (load_file_truthy _ _ _ _ Hload).
  - destruct e; try exact I. exact IH.
Qed.

Lemma try_paths_no_file fs paths :
  (forall filepath, In filepath paths -> fs filepath = None) ->
  try_paths fs paths = None.
Proof.
  induction paths as [| filepath rest IH]; intro Hnone; cbn [try_paths].
  - reflexivity.
  - unfold load_file. rewrite (Hnone filepath (or_introl eq_refl)).
    apply IH. intros p Hp. apply Hnone. right. exact Hp.
Qed.

Lemma Difficulty_eqb_eq a b : Difficulty_eqb a b = true <-> a = b.
Proof. destruct a, b; cbn; split; intro H; try reflexivity; discriminate. Qed.

Lemma Difficulty_eqb_refl a : Difficulty_eqb a a = true.
Proof. destruct a; reflexivity. Qed.

Lemma cache_set_same cache d words : cache_set cache d words d = Some words.
Proof. unfold cache_set. rewrite Difficulty_eqb_refl. reflexivity. Qed.

Lemma cache_set_other cache d words d' :
  d' <> d -> cache_set cache d words d' = cache d'.
Proof.
  intro Hneq. unfold cache_set.
  destruct (Difficulty_eqb d' d) eqn:E; [| reflexivity].
  apply Difficulty_eqb_eq in E. contradiction.
Qed.

(** The words of a difficulty: what [get_words_for_difficulty] returns for
    it, given the files and the cache. *)
Definition pool (fs : FileSystem) (cache : Cache) (d : Difficulty)
  : Result (list string) :=
  fst (get_words_for_difficulty fs cache d).

(** The words of a difficulty depend on the cache through its entry for
    that difficulty only. *)
Lemma pool_ext fs cache1 cache2 d :
  cache1 d = cache2 d -> pool fs cache1 d = pool fs cache2 d.
Proof.
  intro Heq. unfold pool, get_words_for_difficulty. rewrite Heq.
  destruct (cache2 d); [reflexivity |].
  destruct (try_paths fs (possible_paths (_file_mappings d))) as [[? | ?] |];
    reflexivity.
Qed.

(** A call of [get_words_for_difficulty] changes the words of no
    difficulty. *)
Lemma get_words_keeps_pools fs cache d d' :
  pool fs (snd (get_words_for_difficulty fs cache d)) d' = pool fs cache d'.
Proof.
  destruct (Difficulty_eqb d' d) eqn:E.
  - apply Difficulty_eqb_eq in E. subst d'.
    unfold pool, get_words_for_difficulty.
    destruct (cache d) as [cached |] eqn:Hcached.
    + cbn [snd]. rewrite Hcached. reflexivity.
    + destruct (try_paths fs (possible_paths (_file_mappings d)))
        as [[words | e] |] eqn:Hpaths; cbn [snd fst].
      * rewrite cache_set_same. reflexivity.
      * rewrite ?Hcached, ?Hpaths. reflexivity.
      * rewrite cache_set_same. reflexivity.
  - assert (Hneq : d' <> d).
    { intro Heq. subst d'. rewrite Difficulty_eqb_refl in E. discriminate. }
    apply pool_ext. unfold get_words_for_difficulty.
    destruct (cache d) as [cached |]; [reflexivity |].
    destruct (try_paths fs (possible_paths (_file_mappings d)))
      as [[words | e] |]; cbn [snd];
      rewrite ?cache_set_other by exact Hneq; reflexivity.
Qed.

(** A cache that any sequence of loads can produce holds no empty entry. *)
Definition cache_ok (cache : Cache) : Prop :=
  forall d words, cache d = Some words -> all_truthy words.

Lemma empty_cache_ok : cache_ok empty_cache.
Proof. intros d words H. discriminate. Qed.

Lemma cache_set_ok cache d words :
  cache_ok cache -> all_truthy words -> cache_ok (cache_set cache d words).
Proof.
  intros Hcache Hwords d' words'. unfold cache_set.
  destruct (Difficulty_eqb d' d).
  - intro H. injection H as <-. exact Hwords.
  - apply Hcache.
Qed.

Lemma get_words_truthy fs cache d words :
  cache_ok cache -> pool fs cache d = Ok words -> all_truthy words.
Proof.
  intros Hcache. unfold pool, get_words_for_difficulty.
  destruct (cache d) as [cached |] eqn:Hcached.
  - cbn. intro H. injection H as <-. exact (Hcache d cached Hcached).
  - pose proof (try_paths_cases fs (possible_paths (_file_mappings d))) as Hp.
    destruct (try_paths fs (possible_paths (_file_mappings d)))
      as [[loaded | e] |]; cbn; intro H.
    + injection H as <-. exact Hp.
    + discriminate.
    + injection H as <-. apply fallback_words_truthy.
Qed.

Lemma get_words_cache_ok fs cache d :
  cache_ok cache -> cache_ok (snd (get_words_for_difficulty fs cache d)).
Proof.
  intro Hcache. unfold get_words_for_difficulty.
  destruct (cache d) as [cached |]; [exact Hcache |].
  pose proof (try_paths_cases fs (possible_paths (_file_mappings d))) as Hp.
  destruct (try_paths fs (possible_paths (_file_mappings d)))
    as [[loaded | e] |]; cbn [snd].
  - apply cache_set_ok; assumption.
  - exact Hcache.
  - apply cache_set_ok; [exact Hcache | apply fallback_words_truthy].
Qed.

(** ** Reading a file under several encodings *)

(** The content of [words] when the first successful attempt starts: what
    the attempts before it have appended. *)
Fixpoint carried_over (view : FileView) (allow_phrases : bool)
         (encodings : list Encoding) (words : list string) : list string :=
  match encodings with
  | [] => words
  | encoding :: rest =>
      match read_end (view encoding) with
      | EndOfFile => words
      | _ => carried_over view allow_phrases rest
                          (fold_left (process_line allow_phrases)
                                     (lines_read (view encoding)) words)
      end
  end.

(** On a readable file that some encoding decodes, [load_file] returns the
    entries of the first such encoding, appended to what the failed
    attempts left in [words]. *)
Lemma try_encodings_result view allow_phrases encodings :
  forall words lines,
    first_decoding view encodings = Some lines ->
    (forall encoding, read_end (view encoding) <> Denied) ->
    try_encodings view allow_phrases encodings words
    = Ok (fold_left (process_line allow_phrases) lines
                    (carried_over view allow_phrases encodings words)).
Proof.
  induction encodings as [| encoding rest IH]; intros words lines Hfirst Hperm;
    cbn [first_decoding try_encodings carried_over] in *.
  - discriminate.
  - destruct (read_end (view encoding)) eqn:Hend.
    + injection Hfirst as <-. reflexivity.
    + apply IH; assumption.
    + exfalso. exact (Hperm encoding Hend).
    + apply IH; assumption.
Qed.

(** When no failed attempt delivered a line, nothing is carried over, and
    the result is the parse of the first decoding. *)
Lemma carried_over_clean view allow_phrases encodings :
  forall words,
    (forall encoding, read_end (view encoding) = EndOfFile
                      \/ lines_read (view encoding) = []) ->
    carried_over view allow_phrases encodings words = words.
Proof.
  induction encodings as [| encoding rest IH]; intros words Hclean;
    cbn [carried_over]; [reflexivity |].
  destruct (Hclean encoding) as [Hend | Hlines].
  - rewrite Hend. reflexivity.
  - rewrite Hlines. cbn [fold_left].
    destruct (read_end (view encoding)); try reflexivity; apply IH; exact Hclean.
Qed.

(** A word list of 9005 bytes: 1500 lines [alpha] and a last line whose
    last byte, 233, is the Latin-1 code of an accented letter. Read as
    UTF-8, the first chunk of 8192 bytes decodes, and gives 1365 whole
    lines; the next chunk holds the byte 233 and raises
    [UnicodeDecodeError]. Read as Latin-1, every byte decodes. *)
Definition accented_word : string :=
  String "c" (String "a" (String "f" (String (ascii_of_nat 233) EmptyString))).

Definition latin_1_word_list : FileView :=
  fun encoding =>
    match encoding with
    | utf_8 | utf_8_sig =>
        {| lines_read := repeat "alpha"%string 1365;
           read_end := DecodeError |}
    | latin_1 | cp1252 =>
        {| lines_read := repeat "alpha"%string 1500 ++ [accented_word];
           read_end := EndOfFile |}
    end.

(** A directory that holds one file. *)
Definition single_file (name : string) (view : FileView) : FileSystem :=
  fun filepath => if String.eqb filepath name then Some view else None.

(** C7 (the code departs from it). On the word list above the first
    encoding that decodes the file is Latin-1, with 1501 entries;
    [load_file] returns 4231 entries, the first 2730 of them appended by the
    two failed UTF-8 attempts, and not the 1501 entries of the Latin-1
    parse. *)
Theorem load_file_keeps_entries_of_failed_attempts :
  let fs := single_file "words.txt" latin_1_word_list in
  let decoded := repeat "alpha"%string 1500 ++ [accented_word] in
  first_decoding latin_1_word_list encodings_to_try = Some decoded
  /\ parse_lines false decoded = decoded
  /\ load_file fs "words.txt" false
     = Ok (repeat "alpha"%string 2730 ++ decoded)
  /\ load_file fs "words.txt" false <> Ok (parse_lines false decoded).
Proof.
  cbv zeta.
  assert (Hparse : parse_lines false
                     (repeat "alpha"%string 1500 ++ [accented_word])
                   = repeat "alpha"%string 1500 ++ [accented_word]).
  { vm_compute. reflexivity. }
  assert (Hload : load_file (single_file "words.txt" latin_1_word_list)
                            "words.txt" false
                  = Ok (repeat "alpha"%string 2730
                        ++ repeat "alpha"%string 1500 ++ [accented_word])).
  { vm_compute. reflexivity. }
  split; [reflexivity | split; [exact Hparse | split; [exact Hload |]]].
  rewrite Hload, Hparse. intro Heq.
  apply (f_equal (fun r => match r with
                           | Ok l => List.length l
                           | Raise _ => 0%nat
                           end)) in Heq.
  cbv beta iota in Heq.
  rewrite !length_app, !repeat_length in Heq. cbn [List.length] in Heq. lia.
Qed.

End WordSourceLoaderFacts.

(* ================================================================== *)
(** * A pseudo-random source *)
(* ================================================================== *)

(** An instance of [PyRandom] to run the generator on: a linear
    congruential generator, positions drawn without replacement. *)
Module Lcg.

Definition step (s : Z) : Z :=
  (s * 6364136223846793005 + 1442695040888963407) mod 2 ^ 64.

(** A number below [n], and the next state. *)
Definition randbelow (s : Z) (n : nat) : nat * Z :=
  let s' := step s in
  (Z.to_nat ((s' / 2 ^ 33) mod Z.of_nat n), s').

(** [k] elements of [pool], each drawn at random and taken out. *)
Fixpoint draw (k : nat) (pool : list nat) (s : Z) : list nat * Z :=
  match k, pool with
  | S k', _ :: _ =>
      let (j, s1) := randbelow s (List.length pool) in
      let (rest, s2) := draw k' (firstn j pool ++ skipn (S j) pool) s1 in
      (nth j pool 0%nat :: rest, s2)
  | _, _ => ([], s)
  end.

Definition pick (population : list string) (positions : list nat)
  : list string :=
  map (fun i => nth i population EmptyString) positions.

Definition sample (s : Z) (population : list string) (k : nat)
  : list string * Z :=
  let (positions, s') := draw k (seq 0 (List.length population)) s in
  (pick population positions, s').

Definition shuffle (s : Z) (x : list string) : list string * Z :=
  sample s x (List.length x).

Lemma randbelow_lt s n : (0 < n)%nat -> (fst (randbelow s n) < n)%nat.
Proof.
  intro Hn. unfold randbelow. cbn [fst].
  pose proof (Z.mod_pos_bound (step s / 2 ^ 33) (Z.of_nat n)) as Hb.
  lia.
Qed.

Lemma split_at_nth (pool : list nat) (j : nat) :
  (j < List.length pool)%nat ->
  pool = firstn j pool ++ nth j pool 0%nat :: skipn (S j) pool.
Proof.
  revert j. induction pool as [| x pool IH]; intros j Hj; cbn in Hj.
  - lia.
  - destruct j as [| j]; cbn.
    + reflexivity.
    + f_equal. apply IH. lia.
Qed.

Lemma draw_step k pool s :
  pool <> [] ->
  draw (S k) pool s
  = let (j, s1) := randbelow s (List.length pool) in
    let (rest, s2) := draw k (firstn j pool ++ skipn (S j) pool) s1 in
    (nth j pool 0%nat :: rest, s2).
Proof. destruct pool; [contradiction | reflexivity]. Qed.

Lemma draw_spec k :
  forall pool s,
    NoDup pool ->
    NoDup (fst (draw k pool s))
    /\ incl (fst (draw k pool s)) pool
    /\ List.length (fst (draw k pool s)) = Nat.min k (List.length pool)
    /\ ((List.length pool <= k)%nat -> Permutation pool (fst (draw k pool s))).
Proof.
  induction k as [| k IH]; intros pool s Hnd.
  - cbn. repeat split.
    + constructor.
    + intros x [].
    + intro Hlen. destruct pool; [constructor | cbn in Hlen; lia].
  - destruct (list_eq_dec Nat.eq_dec pool []) as [Hempty | Hpool].
    + subst pool. cbn.
      repeat split; [constructor | intros y [] | constructor].
    + assert (Hpos : (0 < List.length pool)%nat).
      { destruct pool; [contradiction | cbn; lia]. }
      rewrite (draw_step k pool s Hpool).
      pose proof (randbelow_lt s (List.length pool) Hpos) as Hj.
      destruct (randbelow s (List.length pool)) as [j s1]. cbn [fst] in Hj.
      pose proof (split_at_nth pool j Hj) as Hsplit.
      set (rest_pool := firstn j pool ++ skipn (S j) pool) in *.
      assert (Hperm : Permutation pool (nth j pool 0%nat :: rest_pool)).
      { rewrite Hsplit at 1. symmetry. apply Permutation_middle. }
      assert (Hnd' : NoDup (nth j pool 0%nat :: rest_pool)).
      { eapply Permutation_NoDup; [exact Hperm | exact Hnd]. }
      inversion Hnd' as [| ? ? Hnotin Hrest]. subst.
      destruct (IH rest_pool s1 Hrest) as [Hnd_r [Hincl [Hlen Hfull]]].
      destruct (draw k rest_pool s1) as [rest s2]. cbn [fst] in *.
      assert (Hlen_rest : S (List.length rest_pool) = List.length pool).
      { apply Permutation_length in Hperm. cbn in Hperm. lia. }
      repeat split.
      * constructor; [| exact Hnd_r].
        intro Hin. apply Hnotin. apply Hincl. exact Hin.
      * intros y [Hy | Hy].
        -- subst y. apply nth_In. exact Hj.
        -- eapply Permutation_in; [symmetry; exact Hperm |].
           right. apply Hincl. exact Hy.
      * cbn [List.length]. rewrite Hlen. lia.
      * intro Hk. etransitivity; [exact Hperm |].
        constructor. apply Hfull. lia.
Qed.

Lemma pick_all (x : list string) : pick x (seq 0 (List.length x)) = x.
Proof.
  unfold pick. induction x as [| w x IH]; [reflexivity |].
  cbn [List.length seq map nth]. f_equal.
  rewrite <- seq_shift, map_map. exact IH.
Qed.

Lemma sample_positions s population k :
  (k <= List.length population)%nat ->
  exists positions : list nat,
    NoDup positions
    /\ Forall2 (fun i w => nth_error population i = Some w)
               positions (fst (sample s population k))
    /\ List.length positions = k.
Proof.
  intro Hk. unfold sample.
  destruct (draw_spec k (seq 0 (List.length population)) s
                      (seq_NoDup _ _)) as [Hnd [Hincl [Hlen _]]].
  destruct (draw k (seq 0 (List.length population)) s) as [positions s'].
  cbn [fst] in *. exists positions. repeat split.
  - exact Hnd.
  - unfold pick. clear Hnd Hlen.
    induction positions as [| i positions IH]; cbn [map]; constructor.
    + apply nth_error_nth'. specialize (Hincl i (or_introl eq_refl)).
      apply in_seq in Hincl. lia.
    + apply IH. intros y Hy. apply Hincl. right. exact Hy.
  - rewrite Hlen, length_seq. lia.
Qed.

Lemma shuffle_permutation s (x : list string) :
  Permutation x (fst (shuffle s x)).
Proof.
  unfold shuffle, sample.
  destruct (draw_spec (List.length x) (seq 0 (List.length x)) s
                      (seq_NoDup _ _)) as [_ [_ [_ Hfull]]].
  rewrite length_seq in Hfull. specialize (Hfull (le_n _)).
  destruct (draw (List.length x) (seq 0 (List.length x)) s)
    as [positions s'].
  cbn [fst] in *. rewrite <- (pick_all x) at 1.
  unfold pick. apply Permutation_map. exact Hfull.
Qed.

Definition random : PyRandom :=
  Build_PyRandom Z (fun seed => seed) sample shuffle
                 sample_positions shuffle_permutation.

End Lcg.

(* ================================================================== *)
(** * Properties of the word generator *)
(* ================================================================== *)

Module WordGeneratorFacts.
Import WordSourceLoader WordSourceLoaderFacts WordGenerator.

Section Generator.

Context {R : PyRandom}.
Variable fs : FileSystem.

Abbreviation Gen := (@WordGenerator.Gen R).
Abbreviation M := (@WordGenerator.M R).

(** The words of a difficulty, as an instance sees them. *)
Definition words_of (st : Gen) (d : Difficulty) : Result (list string) :=
  pool fs (word_loader st) d.

(** ** What every method leaves in place

    No method changes the words of any difficulty, nor puts an empty entry
    in the cache. *)
Definition sources_kept (st st' : Gen) : Prop :=
  (forall d, words_of st' d = words_of st d)
  /\ (cache_ok (word_loader st) -> cache_ok (word_loader st')).

Definition keeps {A} (c : M A) : Prop :=
  forall st, sources_kept st (snd (c st)).

Lemma sources_kept_refl st : sources_kept st st.
Proof. split; [reflexivity | exact (fun H => H)]. Qed.

Lemma sources_kept_trans st1 st2 st3 :
  sources_kept st1 st2 -> sources_kept st2 st3 -> sources_kept st1 st3.
Proof.
  intros [H1 K1] [H2 K2]. split.
  - intro d. rewrite H2. apply H1.
  - intro H. exact (K2 (K1 H)).
Qed.

Lemma keeps_ret {A} (a : A) : keeps (ret a).
Proof. intro st. apply sources_kept_refl. Qed.

Lemma keeps_raise {A} e : keeps (@raise R A e).
Proof. intro st. apply sources_kept_refl. Qed.

Lemma keeps_lift {A} (r : Result A) : keeps (lift r).
Proof. intro st. apply sources_kept_refl. Qed.

Lemma keeps_get {A} (field : Gen -> A) : keeps (get field).
Proof. intro st. apply sources_kept_refl. Qed.

Lemma same_loader_kept st st' :
  word_loader st' = word_loader st -> sources_kept st st'.
Proof.
  intro Heq. unfold sources_kept, words_of. rewrite Heq.
  split; [reflexivity | exact (fun H => H)].
Qed.

Lemma keeps_time : keeps time_time.
Proof. intro st. apply same_loader_kept. reflexivity. Qed.

Lemma keeps_logger r : keeps (logger r).
Proof. intro st. apply same_loader_kept. reflexivity. Qed.

Lemma keeps_set_allow_phrases b : keeps (set_allow_phrases b).
Proof. intro st. apply same_loader_kept. reflexivity. Qed.

Lemma keeps_set_sources_loaded b : keeps (set_sources_loaded b).
Proof. intro st. apply same_loader_kept. reflexivity. Qed.

Lemma keeps_with_random {A} (f : rng -> A * rng) : keeps (with_random f).
Proof.
  intro st. unfold with_random. destruct (f (_random st)).
  apply same_loader_kept. reflexivity.
Qed.

Lemma keeps_loader_get_words d : keeps (loader_get_words fs d).
Proof.
  intro st. unfold loader_get_words, sources_kept, words_of.
  pose proof (get_words_keeps_pools fs (word_loader st) d) as Hpools.
  pose proof (get_words_cache_ok fs (word_loader st) d) as Hcache.
  destruct (get_words_for_difficulty fs (word_loader st) d) as [outcome cache].
  cbn [snd word_loader] in *. split; assumption.
Qed.

Lemma keeps_bind {A B} (c : M A) (k : A -> M B) :
  keeps c -> (forall a, keeps (k a)) -> keeps (bind c k).
Proof.
  intros Hc Hk st. unfold bind. specialize (Hc st).
  destruct (c st) as [[a | e] st1]; cbn [snd] in *.
  - eapply sources_kept_trans; [exact Hc | apply Hk].
  - exact Hc.
Qed.

Lemma keeps_try_except {A} (c : M A) (handler : Exc -> M A) :
  keeps c -> (forall e, keeps (handler e)) -> keeps (try_except c handler).
Proof.
  intros Hc Hh st. unfold try_except. specialize (Hc st).
  destruct (c st) as [[a | e] st1]; cbn [snd] in *.
  - exact Hc.
  - eapply sources_kept_trans; [exact Hc | apply Hh].
Qed.

Lemma keeps_if {A} (b : bool) (c1 c2 : M A) :
  keeps c1 -> keeps c2 -> keeps (if b then c1 else c2).
Proof. destruct b; auto. Qed.

Create HintDb keeps discriminated.
#[local] Hint Resolve keeps_ret keeps_raise keeps_lift keeps_get keeps_time
  keeps_logger keeps_set_allow_phrases keeps_set_sources_loaded
  keeps_with_random keeps_loader_get_words : keeps.

(** Splits a computation along its binds, handlers and branches. *)
Ltac keeps_step :=
  repeat first
    [ apply keeps_bind; [| intro]
    | apply keeps_try_except; [| intro]
    | apply keeps_if
    | match goal with
      | |- keeps (match ?x with _ => _ end) => destruct x
      end
    | solve [auto with keeps] ].

Lemma keeps_preload ds : forall loaded, keeps (preload fs ds loaded).
Proof.
  induction ds as [| d ds IH]; intro loaded; cbn [preload].
  - auto with keeps.
  - apply keeps_bind; [| intro; apply IH]. keeps_step.
Qed.

Lemma keeps_load_default_sources b : keeps (load_default_sources fs b).
Proof.
  unfold load_default_sources.
  apply keeps_bind; [auto with keeps | intros _].
  apply keeps_try_except; [| intro; keeps_step].
  apply keeps_bind; [apply keeps_preload | intro]. keeps_step.
Qed.

Lemma keeps_ensure_sources_loaded : keeps (_ensure_sources_loaded fs).
Proof.
  unfold _ensure_sources_loaded.
  apply keeps_bind; [auto with keeps | intros []].
  - auto with keeps.
  - apply keeps_bind; [auto with keeps | intro].
    apply keeps_load_default_sources.
Qed.

Lemma keeps_get_words_for_difficulty d :
  keeps (_get_words_for_difficulty fs d).
Proof.
  unfold _get_words_for_difficulty.
  apply keeps_bind; [apply keeps_ensure_sources_loaded | intro].
  auto with keeps.
Qed.

Lemma keeps_generate_words d count : keeps (generate_words fs d count).
Proof.
  unfold generate_words.
  destruct (count <=? 0); [auto with keeps |].
  apply keeps_bind; [auto with keeps | intro].
  apply keeps_bind; [apply keeps_get_words_for_difficulty | intro].
  keeps_step.
Qed.


(** ** What [sample] and [shuffle] return *)

Lemma sample_length g population k :
  (k <= List.length population)%nat ->
  List.length (fst (sample g population k)) = k.
Proof.
  intro Hk. destruct (sample_spec g population k Hk)
    as [positions [_ [Hall Hlen]]].
  apply Forall2_length in Hall. lia.
Qed.

Lemma sample_incl g population k :
  (k <= List.length population)%nat ->
  forall w, In w (fst (sample g population k)) -> In w population.
Proof.
  intro Hk. destruct (sample_spec g population k Hk)
    as [positions [_ [Hall _]]].
  induction Hall as [| i w positions words Hi _ IH]; intros w' Hin.
  - destruct Hin.
  - destruct Hin as [<- | Hin].
    + eapply nth_error_In. exact Hi.
    + apply IH. exact Hin.
Qed.

Lemma shuffle_length g x : List.length (fst (shuffle g x)) = List.length x.
Proof. symmetry. apply Permutation_length. apply shuffle_spec. Qed.

Lemma shuffle_incl g x : forall w, In w (fst (shuffle g x)) -> In w x.
Proof.
  intros w Hin. eapply Permutation_in; [| exact Hin].
  symmetry. apply shuffle_spec.
Qed.

(** The loop of [generate_words] adds exactly [remaining_count] words of the
    pool to [selected_words]. *)
Lemma fill_batches_spec available remaining selected g :
  available <> [] ->
  0 <= remaining ->
  List.length (fst (fill_batches available remaining selected g))
  = (List.length selected + Z.to_nat remaining)%nat
  /\ (forall w, In w (fst (fill_batches available remaining selected g)) ->
                In w selected \/ In w available).
Proof.
  funelim (fill_batches available remaining selected g).
  - intros _ Hrem. pose proof (proj1 (Z.ltb_ge _ _) e) as Hle. cbn [fst].
    split; [lia | intros w Hw; left; exact Hw].
  - intros Hne. contradiction.
  - intros Hne Hrem. pose proof (proj1 (Z.ltb_lt _ _) Hpos) as Hgt.
    set (pool := s :: l) in *.
    set (batch := Z.min remaining_count (Z.of_nat (List.length pool))) in *.
    set (drawn := if batch =? Z.of_nat (List.length pool)
                  then shuffle g pool
                  else sample g pool (Z.to_nat batch)) in *.
    assert (Hdrawn : List.length (fst drawn) = Z.to_nat batch
                     /\ forall w, In w (fst drawn) -> In w pool).
    { subst drawn. destruct (batch =? Z.of_nat (List.length pool)) eqn:E.
      - apply Z.eqb_eq in E.
        split; [rewrite shuffle_length; lia | apply shuffle_incl].
      - split; [apply sample_length; lia | apply sample_incl; lia]. }
    destruct Hdrawn as [Hlen Hin].
    assert (Hrest : 0 <= remaining_count - batch) by lia.
    destruct (H Hne Hrest) as [IHlen IHin].
    split.
    + rewrite IHlen, length_app, Hlen. lia.
    + intros w Hw. destruct (IHin w Hw) as [Hsel | Hp]; [| right; exact Hp].
      apply in_app_or in Hsel.
      destruct Hsel; [left | right; apply Hin]; assumption.
Qed.


(** ** Loading succeeds as soon as one difficulty has words *)

Definition has_words (st : Gen) (d : Difficulty) (ws : list string) : Prop :=
  words_of st d = Ok ws /\ ws <> [].

Lemma has_words_kept st st' d ws :
  sources_kept st st' -> has_words st d ws -> has_words st' d ws.
Proof.
  intros [Hsame _] [Hws Hne]. split; [| exact Hne].
  rewrite Hsame. exact Hws.
Qed.

Lemma loader_get_words_outcome d (st : Gen) :
  fst (loader_get_words fs d st) = words_of st d.
Proof.
  unfold loader_get_words, words_of, pool.
  destruct (get_words_for_difficulty fs (word_loader st) d). reflexivity.
Qed.

(** One round of the loop of [load_default_sources] never raises, and
    records the difficulty when it has words. *)
Lemma preload_round d loaded (st : Gen) :
  let round :=
    try_except
      (words <- loader_get_words fs d ;;
       match words with
       | [] => ret loaded
       | _ :: _ =>
           logger (Info "Loaded words" [Z.of_nat (List.length words)] None) ;;;
           ret (loaded ++ [d])
       end)
      (fun _ => logger (Warning "Could not load words") ;;; ret loaded) in
  exists loaded',
    fst (round st) = Ok loaded'
    /\ incl loaded loaded'
    /\ (forall ws, has_words st d ws -> In d loaded')
    /\ sources_kept st (snd (round st)).
Proof.
  intro round.
  assert (Hkept : keeps round).
  { unfold round. keeps_step. }
  specialize (Hkept st).
  pose proof (loader_get_words_outcome d st) as Hout.
  unfold round, try_except, bind in *.
  destruct (loader_get_words fs d st) as [[[| w words] | e] st1];
    cbn [fst snd] in *.
  - exists loaded. repeat split.
    + apply incl_refl.
    + intros ws [Hws Hne]. rewrite <- Hout in Hws.
      injection Hws as <-. contradiction.
    + apply Hkept.
    + apply Hkept.
  - exists (loaded ++ [d]). repeat split.
    + apply incl_appl, incl_refl.
    + intros _ _. apply in_or_app. right. left. reflexivity.
    + apply Hkept.
    + apply Hkept.
  - exists loaded. repeat split.
    + apply incl_refl.
    + intros ws [Hws _]. rewrite <- Hout in Hws. discriminate.
    + apply Hkept.
    + apply Hkept.
Qed.

Lemma preload_runs ds :
  forall loaded (st : Gen),
  exists loaded',
    fst (preload fs ds loaded st) = Ok loaded'
    /\ incl loaded loaded'
    /\ (forall d ws, In d ds -> has_words st d ws -> In d loaded').
Proof.
  induction ds as [| d ds IH]; intros loaded st.
  - exists loaded. cbn. repeat split; [apply incl_refl | intros ? ? []].
  - cbn [preload].
    destruct (preload_round d loaded st)
      as [loaded1 [Hround [Hincl1 [Hd Hkept]]]].
    cbv zeta in Hround, Hkept.
    unfold bind at 1.
    match goal with
    | |- context [match ?c st with _ => _ end] =>
        change c with
          (try_except
             (words <- loader_get_words fs d ;;
              match words with
              | [] => ret loaded
              | _ :: _ =>
                  logger (Info "Loaded words"
                               [Z.of_nat (List.length words)] None) ;;;
                  ret (loaded ++ [d])
              end)
             (fun _ => logger (Warning "Could not load words") ;;;
                       ret loaded)) in *;
        destruct (c st) as [[l1 | e] st1]
    end; cbn [fst snd] in *; [| discriminate].
    injection Hround as ->.
    destruct (IH loaded1 st1) as [loaded' [Hrun [Hincl Hall]]].
    exists loaded'. repeat split.
    + exact Hrun.
    + eapply incl_tran; eassumption.
    + intros d' ws [<- | Hin] Hws.
      * apply Hincl. exact (Hd ws Hws).
      * apply (Hall d' ws Hin). exact (has_words_kept _ _ _ _ Hkept Hws).
Qed.

Lemma all_difficulties_complete d : In d all_difficulties.
Proof. destruct d; cbn; tauto. Qed.

Lemma load_default_sources_runs b (st : Gen) d ws :
  has_words st d ws ->
  exists st', load_default_sources fs b st = (Ok tt, st').
Proof.
  intro Hws. unfold load_default_sources, bind at 1.
  cbn [set_allow_phrases].
  set (st0 := {| _random := _random st; word_loader := word_loader st;
                 _sources_loaded := _sources_loaded st;
                 _allow_phrases := b; clock := clock st;
                 clock_reads := clock_reads st; logged := logged st |}).
  assert (Hws0 : has_words st0 d ws) by exact Hws.
  destruct (preload_runs all_difficulties [] st0)
    as [loaded [Hrun [_ Hall]]].
  specialize (Hall d ws (all_difficulties_complete d) Hws0).
  unfold try_except, bind.
  destruct (preload fs all_difficulties [] st0) as [outcome st1].
  cbn [fst] in Hrun. subst outcome.
  destruct loaded as [| d0 loaded]; [destruct Hall |].
  cbn. eexists. reflexivity.
Qed.

Lemma ensure_sources_loaded_runs (st : Gen) d ws :
  has_words st d ws ->
  exists st', _ensure_sources_loaded fs st = (Ok tt, st').
Proof.
  intro Hws. unfold _ensure_sources_loaded, bind, get.
  destruct (_sources_loaded st).
  - eexists. reflexivity.
  - exact (load_default_sources_runs (_allow_phrases st) st d ws Hws).
Qed.

Lemma get_words_for_difficulty_runs (st : Gen) d ws :
  has_words st d ws ->
  exists st',
    _get_words_for_difficulty fs d st = (Ok ws, st')
    /\ sources_kept st st'.
Proof.
  intro Hws.
  pose proof (keeps_get_words_for_difficulty d st) as Hkept.
  pose proof (keeps_ensure_sources_loaded st) as Hkept1.
  destruct (ensure_sources_loaded_runs st d ws Hws) as [st1 Hrun].
  unfold _get_words_for_difficulty, bind in *. rewrite Hrun in *.
  cbn [snd] in Hkept1.
  pose proof (loader_get_words_outcome d st1) as Hout.
  destruct (has_words_kept _ _ _ _ Hkept1 Hws) as [Hws1 _].
  rewrite Hws1 in Hout.
  destruct (loader_get_words fs d st1) as [outcome st2].
  cbn [fst snd] in *. subst outcome.
  exists st2. split; [reflexivity | exact Hkept].
Qed.

(** ** [generate_words] on a difficulty that has words *)

Lemma bind_ok {A B} (c : M A) (k : A -> M B) st a st1 :
  c st = (Ok a, st1) -> bind c k st = k a st1.
Proof. intro H. unfold bind. rewrite H. reflexivity. Qed.

Lemma bind_raise {A B} (c : M A) (k : A -> M B) st e st1 :
  c st = (Raise e, st1) -> bind c k st = (Raise e, st1).
Proof. intro H. unfold bind. rewrite H. reflexivity. Qed.

Lemma generate_words_runs d count (st : Gen) ws :
  0 < count ->
  has_words st d ws ->
  exists words st',
    generate_words fs d count st = (Ok words, st')
    /\ sources_kept st st'
    /\ Z.of_nat (List.length words) = count
    /\ (forall w, In w words -> In w ws)
    /\ (count <= Z.of_nat (List.length ws) ->
        exists positions : list nat,
          NoDup positions
          /\ Forall2 (fun i w => nth_error ws i = Some w) positions words).
Proof.
  intros Hcount Hws.
  pose proof (keeps_generate_words d count st) as Hkept.
  unfold generate_words in *.
  destruct (count <=? 0) eqn:Hle; [apply Z.leb_le in Hle; lia |].
  unfold bind at 1 in Hkept. unfold bind at 1.
  cbn [time_time] in *.
  match goal with
  | |- context [bind _ _ ?s] => set (st0 := s) in *
  end.
  assert (Hws0 : has_words st0 d ws) by exact Hws.
  destruct (get_words_for_difficulty_runs st0 d ws Hws0) as [st1 [Hrun _]].
  rewrite (bind_ok _ _ _ _ _ Hrun) in *.
  destruct Hws as [_ Hne].
  destruct ws as [| w0 ws0] eqn:Hpool; [contradiction |].
  rewrite <- Hpool in *.
  destruct (count <=? Z.of_nat (List.length ws)) eqn:Hfit.
  - apply Z.leb_le in Hfit.
    assert (Hk : (Z.to_nat count <= List.length ws)%nat) by lia.
    pose proof (sample_length (_random st1) ws (Z.to_nat count) Hk) as Hlen.
    pose proof (sample_incl (_random st1) ws (Z.to_nat count) Hk) as Hin.
    destruct (sample_spec (_random st1) ws (Z.to_nat count) Hk)
      as [positions [Hnd [Hall _]]].
    unfold bind, with_random in *.
    destruct (sample (_random st1) ws (Z.to_nat count)) as [words g1].
    cbn [fst snd time_time logger ret] in *.
    eexists. eexists. split; [reflexivity |].
    split; [exact Hkept |]. split; [lia |]. split; [exact Hin |].
    intros _. exists positions. split; assumption.
  - apply Z.leb_gt in Hfit.
    assert (Hne' : ws <> []) by (rewrite Hpool; discriminate).
    assert (H0 : 0 <= count) by lia.
    destruct (fill_batches_spec ws count [] (_random st1) Hne' H0)
      as [Hlen Hin].
    unfold bind, with_random in *.
    destruct (fill_batches ws count [] (_random st1)) as [selected g1].
    cbn [fst snd _random List.length] in *.
    pose proof (shuffle_length g1 selected) as Hslen.
    pose proof (shuffle_incl g1 selected) as Hsin.
    destruct (shuffle g1 selected) as [words g2].
    cbn [fst snd time_time logger ret] in *.
    eexists. eexists. split; [reflexivity |].
    split; [exact Hkept |]. split; [lia |]. split.
    + intros w Hw. destruct (Hin w (Hsin w Hw)) as [[] | Hp]. exact Hp.
    + intro Hcontra. lia.
Qed.

Lemma positions_distinct_words (ws : list string) positions words :
  NoDup ws ->
  NoDup positions ->
  Forall2 (fun i w => nth_error ws i = Some w) positions words ->
  NoDup words.
Proof.
  intros Hws Hpos Hall.
  induction Hall as [| i w positions words Hi Hall IH].
  - constructor.
  - inversion Hpos as [| ? ? Hnotin Hpos']. subst.
    constructor; [| exact (IH Hpos')].
    intro Hin. apply Hnotin.
    clear IH Hpos Hpos' Hnotin.
    induction Hall as [| j w' positions words Hj _ IH'].
    + destruct Hin.
    + destruct Hin as [-> | Hin].
      * left. symmetry.
        apply (proj1 (NoDup_nth_error ws) Hws i j).
        -- apply nth_error_Some. rewrite Hi. discriminate.
        -- rewrite Hi, Hj. reflexivity.
      * right. apply IH'. exact Hin.
Qed.

(** C5 (amended). For a difficulty whose pool [ws] is not empty,
    [generate_words(d, count)] raises [ValueError] when [count <= 0];
    otherwise it returns exactly [count] words, every one of them in the
    pool. When [count] is at most the size of the pool, the words are the
    entries found at pairwise different positions of the pool, hence
    pairwise different themselves when the pool lists no word twice; when
    [count] exceeds the size of the pool, some word is returned more than
    once. *)
Theorem generate_words_spec d count (st : Gen) ws :
  has_words st d ws ->
  (count <= 0 -> fst (generate_words fs d count st) = Raise ValueError)
  /\ (0 < count ->
      exists words,
        fst (generate_words fs d count st) = Ok words
        /\ Z.of_nat (List.length words) = count
        /\ (forall w, In w words -> In w ws)
        /\ (count <= Z.of_nat (List.length ws) ->
            (exists positions : list nat,
                NoDup positions
                /\ Forall2 (fun i w => nth_error ws i = Some w)
                           positions words)
            /\ (NoDup ws -> NoDup words))
        /\ (Z.of_nat (List.length ws) < count -> ~ NoDup words)).
Proof.
  intro Hws. split.
  - intro Hcount. unfold generate_words.
    destruct (count <=? 0) eqn:Hle; [reflexivity |].
    apply Z.leb_gt in Hle. lia.
  - intro Hcount.
    destruct (generate_words_runs d count st ws Hcount Hws)
      as [words [st' [Hrun [_ [Hlen [Hin Hpos]]]]]].
    exists words. rewrite Hrun. cbn [fst].
    split; [reflexivity |]. split; [exact Hlen |]. split; [exact Hin |].
    split.
    + intro Hfit. destruct (Hpos Hfit) as [positions [Hnd Hall]].
      split; [exists positions; split; assumption |].
      intro Hws_nd. exact (positions_distinct_words ws positions words
                             Hws_nd Hnd Hall).
    + intros Hover Hnd.
      assert (Hle : (List.length words <= List.length ws)%nat).
      { apply NoDup_incl_length; [exact Hnd | exact Hin]. }
      lia.
Qed.

(** ** [generate_for_session] *)

(** The word count of the specification: the base count times the buffer,
    rounded down once, and at least 10. *)
Definition spec_session_word_count (duration_seconds target_wpm : Z) : Z :=
  Z.max 10 (Qfloor (inject_Z duration_seconds / 60
                    * inject_Z target_wpm * (11 # 10))%Q).

Lemma buffer_multiplier_value :
  (1 + float_of_int session_buffer_percentage / 100)%float = 1.1%float.
Proof. vm_compute. reflexivity. Qed.

(** C6 (amended). [generate_for_session] raises [ValueError] on a
    non-positive duration or target; otherwise the base word count
    [duration_seconds / 60 * target_wpm] is truncated to an integer, the
    product of that integer by 1.1 is truncated again, and exactly the
    larger of the result and 10 words are requested from [generate_words]
    (both products in binary64; an overflow of either is raised as it
    is). *)
Theorem generate_for_session_spec d duration_seconds target_wpm (st : Gen) :
  (duration_seconds <= 0 \/ target_wpm <= 0 ->
   fst (generate_for_session fs d duration_seconds target_wpm st)
   = Raise ValueError)
  /\ (0 < duration_seconds -> 0 < target_wpm ->
      match py_int (float_of_int duration_seconds / 60
                    * float_of_int target_wpm)%float with
      | Raise e =>
          fst (generate_for_session fs d duration_seconds target_wpm st)
          = Raise e
      | Ok base_word_count =>
          match py_int (float_of_int base_word_count * 1.1)%float with
          | Raise e =>
              fst (generate_for_session fs d duration_seconds target_wpm st)
              = Raise e
          | Ok buffered =>
              generate_for_session fs d duration_seconds target_wpm st
              = generate_words fs d (Z.max buffered 10)
                  (snd (logger (Info "Session calculation"
                                     [duration_seconds; target_wpm;
                                      Z.max buffered 10] None) st))
          end
      end).
Proof.
  split.
  - intros [Hd | Hw]; unfold generate_for_session.
    + destruct (duration_seconds <=? 0) eqn:E; [reflexivity |].
      apply Z.leb_gt in E. lia.
    + destruct (duration_seconds <=? 0); [reflexivity |].
      destruct (target_wpm <=? 0) eqn:E; [reflexivity |].
      apply Z.leb_gt in E. lia.
  - intros Hd Hw. unfold generate_for_session, session_word_count.
    destruct (duration_seconds <=? 0) eqn:E1; [apply Z.leb_le in E1; lia |].
    destruct (target_wpm <=? 0) eqn:E2; [apply Z.leb_le in E2; lia |].
    rewrite buffer_multiplier_value.
    destruct (py_int (float_of_int duration_seconds / 60
                      * float_of_int target_wpm)%float)
      as [base_word_count | e]; [| reflexivity].
    destruct (py_int (float_of_int base_word_count * 1.1)%float)
      as [buffered | e]; reflexivity.
Qed.

(** For whole minutes, up to an hour, and targets up to 200 words per
    minute the two truncations can be read as exact: the count is
    [max(10, floor(minutes * target_wpm * 11 / 10))]. *)
Lemma session_word_count_whole_minutes :
  forallb (fun minutes =>
             forallb (fun target_wpm =>
                        match session_word_count (60 * minutes) target_wpm with
                        | Ok n => n =? Z.max 10 (minutes * target_wpm * 11 / 10)
                        | Raise _ => false
                        end)
                     (map Z.of_nat (seq 1 200)))
          (map Z.of_nat (seq 1 60)) = true.
Proof. vm_compute. reflexivity. Qed.

(** ** [generate_mixed] *)

(** C2 (the code departs from it). With equal weights for two difficulties
    and three words to share out, each gets one word and the two fractional
    parts are both one half; sorting the pairs [(0.5, SIMPLE)] and
    [(0.5, MEDIUM)] compares the two [Difficulty] members, and the method
    raises [TypeError] instead of returning three words. *)
Theorem generate_mixed_tie_raises (st : Gen) :
  let weights := [(Key SIMPLE, 0.5%float); (Key MEDIUM, 0.5%float)] in
  validate_weights weights = Ok [(SIMPLE, 0.5%float); (MEDIUM, 0.5%float)]
  /\ allocate 3 [(SIMPLE, 0.5%float); (MEDIUM, 0.5%float)]
     = Ok [(SIMPLE, 1); (MEDIUM, 1)]
  /\ fractional_parts_of 3 [(SIMPLE, 0.5%float); (MEDIUM, 0.5%float)]
     = Ok [(0.5%float, SIMPLE); (0.5%float, MEDIUM)]
  /\ sort_reverse [(0.5%float, SIMPLE); (0.5%float, MEDIUM)] = Raise TypeError
  /\ fst (generate_mixed fs weights 3 st) = Raise TypeError.
Proof.
  cbv zeta. repeat split; try (vm_compute; reflexivity).
Qed.

(** ** [generate_paragraph] *)

(** The buffer size [int(total * 1.5)] of a paragraph is [3 * total // 2]
    as long as [total] is below [2^51]: the conversion and the product are
    exact then. *)
Lemma buffer_words_exact (total : Z) :
  0 < total < 2 ^ 51 ->
  py_int (float_of_int total * 1.5)%float = Ok (3 * total / 2).
Proof.
  intros [Hpos Hlt].
  destruct (BinaryFacts.binary_normalize_exact total) as [q [i [Hi [Hq [Hdq Hnorm]]]]].
  { unfold prec. lia. }
  destruct (BinaryFacts.normalised (3 * total)) as [q' [i' [Hi' [Hq' [Hdq' _]]]]].
  { unfold prec. lia. }
  assert (Hi2 : 2 <= i).
  { destruct (Z_lt_le_dec i 2) as [Hsmall | Hbig]; [| exact Hbig].
    pose proof (BinaryFacts.digits2_bounds q) as [Hlow _]. rewrite Hdq in Hlow.
    assert (2 ^ i <= 2 ^ 1) by (apply Z.pow_le_mono_r; lia).
    unfold prec in *. cbn in Hlow. nia. }
  assert (Hx : Prim2SF (float_of_int total) = S754_finite false q (- i)).
  { unfold float_of_int. rewrite Hnorm. apply Prim2SF_SF2Prim.
    apply BinaryFacts.finite_valid; [exact Hdq |].
    unfold SpecFloat.emin, prec, emax in *. lia. }
  unfold py_int. rewrite mul_spec, Hx.
  change (Prim2SF 1.5) with (S754_finite false 6755399441055744 (-52)).
  unfold SF64mul, SFmul. cbn [xorb].
  rewrite (BinaryFacts.binary_round_aux_exact false q' (q * 6755399441055744)
                                  (i + 51 - i') (- i + -52)).
  - replace (- i + -52 + (i + 51 - i')) with (- (1 + i')) by lia.
    destruct (0 <=? - (1 + i')) eqn:E; [apply Z.leb_le in E; lia |].
    rewrite Z.opp_involutive, Z.shiftr_div_pow2 by lia.
    f_equal. rewrite Hq', Z.pow_add_r by lia.
    change (2 ^ 1) with 2.
    apply Z.div_mul_cancel_r; [lia |].
    apply Z.pow_nonzero; lia.
  - exact Hdq'.
  - unfold prec in *. lia.
  - rewrite Pos2Z.inj_mul, Hq, Hq'.
    change (Zpos 6755399441055744) with (3 * 2 ^ 51).
    replace (i + 51 - i') with (i + 51 + - i') by lia.
    assert (H2 : 2 ^ i' * 2 ^ (i + 51 - i') = 2 ^ i * 2 ^ 51).
    { rewrite <- !Z.pow_add_r by (unfold prec in *; lia). f_equal. lia. }
    replace (i + 51 + - i') with (i + 51 - i') by lia. nia.
  - unfold SpecFloat.emin, prec, emax in *. lia.
Qed.

(** The buffer size [int(total * 1.5)] of a positive [total]: a positive
    int, or [OverflowError] when [total] or the product is beyond the
    largest double, which takes a [total] of 1022 binary digits or more. *)
Lemma buffer_words_outcome (total : Z) :
  0 < total ->
  (total < 2 ^ 1021 ->
   exists b, py_int (float_of_int total * 1.5)%float = Ok b)
  /\ match py_int (float_of_int total * 1.5)%float with
     | Ok b => 1 <= b
     | Raise e => e = OverflowError
     end.
Proof.
  intro Hpos. destruct total as [| p | p]; [lia | | lia].
  destruct (BinaryFacts.float_of_int_positive p) as [q [e [Hdq [He Hx]]]].
  pose proof (BinaryFacts.digits2_bounds q) as [Hqlow Hqhigh]. rewrite Hdq in Hqlow, Hqhigh.
  unfold py_int. rewrite mul_spec, Hx.
  change (Prim2SF 1.5) with (S754_finite false 6755399441055744 (-52)).
  destruct (e <=? emax - prec) eqn:Efin.
  - apply Z.leb_le in Efin.
    unfold SF64mul, SFmul. cbn [xorb].
    assert (Hprod : 2 ^ 104 <= Zpos (q * 6755399441055744) < 2 ^ 106).
    { rewrite Pos2Z.inj_mul.
      change (Zpos 6755399441055744) with (3 * 2 ^ 51).
      unfold prec in *. cbn in Hqlow, Hqhigh |- *. lia. }
    assert (Hdp : 105 <= Zpos (digits2_pos (q * 6755399441055744)) <= 106).
    { pose proof (BinaryFacts.digits2_bounds (q * 6755399441055744)) as [Hl Hh].
      split.
      - destruct (Z_lt_le_dec (Zpos (digits2_pos (q * 6755399441055744))) 105)
          as [H | H]; [| exact H].
        assert (2 ^ Zpos (digits2_pos (q * 6755399441055744)) <= 2 ^ 104)
          by (apply Z.pow_le_mono_r; lia).
        lia.
      - destruct (Z_lt_le_dec 106 (Zpos (digits2_pos (q * 6755399441055744))))
          as [H | H]; [| exact H].
        assert (2 ^ 106 <= 2 ^ (Zpos (digits2_pos (q * 6755399441055744)) - 1))
          by (apply Z.pow_le_mono_r; lia).
        lia. }
    destruct (BinaryFacts.binary_round_aux_long false (q * 6755399441055744) (e + -52))
      as [q' [e' [Hdq' [He' Hr]]]];
      [unfold prec; lia | unfold SpecFloat.emin, prec, emax in *; lia |].
    rewrite Hr.
    pose proof (BinaryFacts.digits2_bounds q') as [Hql Hqh]. rewrite Hdq' in Hql, Hqh.
    destruct (e' <=? emax - prec) eqn:Efin'.
    + split; [intros _; eexists; reflexivity |].
      destruct (0 <=? e') eqn:Esign.
      * apply Z.leb_le in Esign. rewrite Z.shiftl_mul_pow2 by exact Esign.
        assert (0 < 2 ^ e') by (apply Z.pow_pos_nonneg; lia). nia.
      * apply Z.leb_gt in Esign. rewrite Z.shiftr_div_pow2 by lia.
        apply Z.div_le_lower_bound; [apply Z.pow_pos_nonneg; lia |].
        rewrite Z.mul_1_r.
        transitivity (2 ^ (prec - 1)); [| exact Hql].
        apply Z.pow_le_mono_r; unfold prec in *; lia.
    + split; [| reflexivity].
      intro Hsmall. apply Z.leb_gt in Efin'.
      assert (Hd : Zpos (digits2_pos p) <= 1021).
      { pose proof (BinaryFacts.digits2_bounds p) as [Hl _].
        destruct (Z_lt_le_dec 1021 (Zpos (digits2_pos p))) as [H | H];
          [| exact H].
        assert (2 ^ 1021 <= 2 ^ (Zpos (digits2_pos p) - 1))
          by (apply Z.pow_le_mono_r; lia).
        lia. }
      unfold prec, emax in *. lia.
  - cbn [SF64mul SFmul xorb]. split; [| reflexivity].
    intro Hsmall. apply Z.leb_gt in Efin.
    assert (Hd : Zpos (digits2_pos p) <= 1021).
    { pose proof (BinaryFacts.digits2_bounds p) as [Hl _].
      destruct (Z_lt_le_dec 1021 (Zpos (digits2_pos p))) as [H | H];
        [| exact H].
      assert (2 ^ 1021 <= 2 ^ (Zpos (digits2_pos p) - 1))
        by (apply Z.pow_le_mono_r; lia).
      lia. }
    unfold prec, emax in *. lia.
Qed.

Lemma truthy_append_space current word :
  truthy current = true -> truthy (current ++ " " ++ word)%string = true.
Proof. destruct current; [discriminate | reflexivity]. Qed.

Lemma pack_words_keeps_line max_line_chars upcoming :
  forall current wi,
    truthy current = true ->
    truthy (fst (pack_words max_line_chars upcoming current wi)) = true.
Proof.
  induction upcoming as [| word rest IH]; intros current wi Hcur;
    cbn [pack_words]; [exact Hcur |].
  rewrite Hcur.
  destruct (len (current ++ " " ++ word)%string <=? max_line_chars).
  - apply IH. apply truthy_append_space. exact Hcur.
  - exact Hcur.
Qed.

(** The packing loop: it stops within the words it was given; a line it
    has put a word on respects the limit; it leaves the line empty only
    when the next word is too long for a line of its own. *)
Lemma pack_words_spec max_line_chars upcoming :
  forall current wi,
    all_truthy upcoming ->
    (truthy current = true -> len current <= max_line_chars) ->
    (wi <= snd (pack_words max_line_chars upcoming current wi)
        <= wi + List.length upcoming)%nat
    /\ (truthy (fst (pack_words max_line_chars upcoming current wi)) = true ->
        len (fst (pack_words max_line_chars upcoming current wi))
        <= max_line_chars)
    /\ (truthy (fst (pack_words max_line_chars upcoming current wi)) = false ->
        snd (pack_words max_line_chars upcoming current wi) = wi
        /\ forall w rest, upcoming = w :: rest -> max_line_chars < len w).
Proof.
  induction upcoming as [| word rest IH]; intros current wi Hall Hcur;
    cbn [pack_words].
  - cbn [fst snd List.length]. split; [lia | split; [exact Hcur |]].
    intros _. split; [reflexivity | intros w rest Heq; discriminate].
  - inversion Hall as [| ? ? Hword Hrest]. subst.
    set (test_line := if truthy current
                      then (current ++ " " ++ word)%string else word).
    assert (Htest : truthy test_line = true).
    { subst test_line. destruct (truthy current) eqn:E.
      - apply truthy_append_space. exact E.
      - exact Hword. }
    destruct (len test_line <=? max_line_chars) eqn:Hfit.
    + apply Z.leb_le in Hfit.
      destruct (IH test_line (S wi) Hrest (fun _ => Hfit))
        as [Hidx [Hlen _]].
      cbn [List.length]. split; [lia | split; [exact Hlen |]].
      intro Hfalse.
      rewrite (pack_words_keeps_line max_line_chars rest test_line (S wi)
                 Htest) in Hfalse.
      discriminate.
    + apply Z.leb_gt in Hfit. cbn [fst snd List.length].
      split; [lia | split; [exact Hcur |]].
      intro Hfalse. split; [reflexivity |].
      intros w rest' Heq. injection Heq as <- <-.
      subst test_line. rewrite Hfalse in Hfit. exact Hfit.
Qed.


Section Paragraph.

Variable d : Difficulty.
Variables lines max_line_chars : Z.
Variable ws : list string.
Hypothesis lines_positive : 0 < lines.
Hypothesis ws_truthy : all_truthy ws.

(** A line respects the limit, or is a single word of the pool that is
    longer than the limit. *)
Definition line_fits (line : string) : Prop :=
  len line <= max_line_chars \/ (In line ws /\ max_line_chars < len line).

Definition paragraph_ok (p : Paragraph) : Prop :=
  incl (available_words p) ws /\ Forall line_fits (formatted_lines p).

Lemma skipn_head (l : list string) (i : nat) :
  (i < List.length l)%nat ->
  skipn i l = nth i l EmptyString :: skipn (S i) l.
Proof.
  revert i. induction l as [| x l IH]; intros i Hi; cbn in Hi; [lia |].
  destruct i as [| i]; [reflexivity |].
  cbn [skipn nth]. apply IH. lia.
Qed.

(** The end of the loop body: the line is stored, and more words are
    generated when the buffer is used up and lines remain. *)
Lemma refill_runs ewpl available wi formatted line line_num (st : Gen) :
  1 <= ewpl ->
  0 <= line_num < lines ->
  has_words st d ws ->
  incl available ws ->
  Forall line_fits formatted ->
  line_fits line ->
  (wi <= List.length available)%nat ->
  exists p' st',
    (if (List.length available <=? wi)%nat && (line_num <? lines - 1)
     then
       additional_words <-
         generate_words fs d (ewpl * (lines - line_num)) ;;
       ret {| available_words := available ++ additional_words;
              word_index := wi;
              formatted_lines := formatted ++ [line] |}
     else
       ret {| available_words := available;
              word_index := wi;
              formatted_lines := formatted ++ [line] |}) st
    = (Ok p', st')
    /\ sources_kept st st'
    /\ paragraph_ok p'
    /\ formatted_lines p' = formatted ++ [line]
    /\ (line_num < lines - 1 ->
        (word_index p' < List.length (available_words p'))%nat).
Proof.
  intros Hewpl Hnum Hws Hincl Hformatted Hline Hwi.
  assert (Hall : Forall line_fits (formatted ++ [line])).
  { apply Forall_app. split; [exact Hformatted |].
    constructor; [exact Hline | constructor]. }
  destruct ((List.length available <=? wi)%nat && (line_num <? lines - 1))
    eqn:Hrefill.
  - apply andb_prop in Hrefill. destruct Hrefill as [Hused Hmore].
    apply Nat.leb_le in Hused. apply Z.ltb_lt in Hmore.
    assert (Hcount : 0 < ewpl * (lines - line_num)) by nia.
    destruct (generate_words_runs d _ st ws Hcount Hws)
      as [additional [st' [Hrun [Hkept [Hlen [Hin _]]]]]].
    rewrite (bind_ok _ _ _ _ _ Hrun). unfold ret.
    eexists. eexists. split; [reflexivity |].
    cbn [available_words word_index formatted_lines].
    split; [exact Hkept |]. split; [| split; [reflexivity |]].
    + split; [| exact Hall]. cbn [available_words].
      apply incl_app; [exact Hincl | exact Hin].
    + intros _. rewrite length_app. lia.
  - unfold ret. eexists. eexists. split; [reflexivity |].
    cbn [available_words word_index formatted_lines].
    split; [apply sources_kept_refl |]. split; [| split; [reflexivity |]].
    + split; assumption.
    + intro Hmore. apply andb_false_iff in Hrefill.
      destruct Hrefill as [Hused | Hlast].
      * apply Nat.leb_gt in Hused. exact Hused.
      * apply Z.ltb_ge in Hlast. lia.
Qed.

(** One round of the loop over the lines, entered with a word left in the
    buffer: it stores exactly one line. *)
Lemma paragraph_line_runs ewpl p line_num (st : Gen) :
  1 <= ewpl ->
  0 <= line_num < lines ->
  has_words st d ws ->
  paragraph_ok p ->
  (word_index p < List.length (available_words p))%nat ->
  exists p' st',
    paragraph_line fs d lines max_line_chars ewpl p line_num st = (Ok p', st')
    /\ sources_kept st st'
    /\ paragraph_ok p'
    /\ List.length (formatted_lines p') = S (List.length (formatted_lines p))
    /\ (line_num < lines - 1 ->
        (word_index p' < List.length (available_words p'))%nat).
Proof.
  intros Hewpl Hnum Hws [Hincl Hformatted] Hwi.
  assert (Havail : all_truthy (available_words p)).
  { apply Forall_forall. intros w Hw.
    exact (proj1 (Forall_forall _ _) ws_truthy w (Hincl w Hw)). }
  assert (Hup : all_truthy (skipn (word_index p) (available_words p))).
  { apply Forall_forall. intros w Hw.
    apply (proj1 (Forall_forall _ _) Havail).
    rewrite <- (firstn_skipn (word_index p)). apply in_or_app. right.
    exact Hw. }
  destruct (pack_words_spec max_line_chars
              (skipn (word_index p) (available_words p))
              EmptyString (word_index p) Hup)
    as [Hidx [Hlen Hempty]]; [discriminate |].
  rewrite length_skipn in Hidx.
  unfold paragraph_line.
  destruct (pack_words max_line_chars
              (skipn (word_index p) (available_words p))
              EmptyString (word_index p)) as [line wi] eqn:Hpack.
  cbn [fst snd] in *.
  destruct (truthy line) eqn:Hline; cbn [negb andb].
  - rewrite Hline. cbn [negb andb].
    destruct (refill_runs ewpl (available_words p) wi (formatted_lines p)
                          line line_num st)
      as [p' [st' [Hrun [Hkept [Hok [Hfmt Hnext]]]]]]; try assumption.
    + left. exact (Hlen eq_refl).
    + lia.
    + exists p', st'. rewrite Hrun.
      split; [reflexivity |]. split; [exact Hkept |].
      split; [exact Hok |]. split; [| exact Hnext].
      rewrite Hfmt, length_app. cbn. lia.
  - destruct (Hempty eq_refl) as [Hsame Hlong]. subst wi.
    destruct (word_index p <? List.length (available_words p))%nat eqn:Hlt;
      [| apply Nat.ltb_ge in Hlt; lia].
    pose proof (skipn_head (available_words p) (word_index p) Hwi) as Hhead.
    set (word := nth (word_index p) (available_words p) EmptyString) in *.
    assert (Hin : In word (available_words p)).
    { apply nth_In. exact Hwi. }
    assert (Hword : truthy word = true).
    { exact (proj1 (Forall_forall _ _) Havail word Hin). }
    rewrite Hword. cbn [negb andb].
    destruct (refill_runs ewpl (available_words p) (S (word_index p))
                          (formatted_lines p) word line_num st)
      as [p' [st' [Hrun [Hkept [Hok [Hfmt Hnext]]]]]]; try assumption.
    + right. split; [exact (Hincl word Hin) |].
      exact (Hlong word _ Hhead).
    + exists p', st'. rewrite Hrun.
      split; [reflexivity |]. split; [exact Hkept |].
      split; [exact Hok |]. split; [| exact Hnext].
      rewrite Hfmt, length_app. cbn. lia.
Qed.


(** The loop over the lines stores one line per round. *)
Lemma paragraph_loop_runs ewpl :
  1 <= ewpl ->
  forall k i p (st : Gen),
    Z.of_nat i + Z.of_nat k = lines ->
    has_words st d ws ->
    paragraph_ok p ->
    List.length (formatted_lines p) = i ->
    ((0 < k)%nat ->
     (word_index p < List.length (available_words p))%nat) ->
    exists p' st',
      for_each (paragraph_line fs d lines max_line_chars ewpl)
               (map Z.of_nat (seq i k)) p st = (Ok p', st')
      /\ sources_kept st st'
      /\ paragraph_ok p'
      /\ List.length (formatted_lines p') = (i + k)%nat.
Proof.
  intro Hewpl. induction k as [| k IH]; intros i p st Hsum Hws Hok Hlen Hwi.
  - exists p, st. cbn. split; [reflexivity |].
    split; [apply sources_kept_refl |]. split; [exact Hok | lia].
  - cbn [seq map for_each].
    destruct (paragraph_line_runs ewpl p (Z.of_nat i) st Hewpl)
      as [p1 [st1 [Hrun [Hkept [Hok1 [Hlen1 Hwi1]]]]]];
      [lia | exact Hws | exact Hok | apply Hwi; lia |].
    rewrite (bind_ok _ _ _ _ _ Hrun).
    destruct (IH (S i) p1 st1) as [p' [st' [Hrest [Hkept' [Hok' Hlen']]]]].
    + lia.
    + exact (has_words_kept _ _ _ _ Hkept Hws).
    + exact Hok1.
    + lia.
    + intro Hk. apply Hwi1. lia.
    + exists p', st'. split; [exact Hrest |].
      split; [exact (sources_kept_trans _ _ _ Hkept Hkept') |].
      split; [exact Hok' | lia].
Qed.

End Paragraph.

(** The paragraph, once the buffer size is known to be positive. *)
Lemma generate_paragraph_runs d lines max_line_chars (st : Gen) ws
      buffer_words :
  0 < lines ->
  0 < max_line_chars ->
  cache_ok (word_loader st) ->
  has_words st d ws ->
  py_int (float_of_int (lines * Z.max 1 (max_line_chars / 6)) * 1.5)%float
  = Ok buffer_words ->
  0 < buffer_words ->
  exists formatted,
    fst (generate_paragraph fs d lines max_line_chars st) = Ok formatted
    /\ Z.of_nat (List.length formatted) = lines
    /\ Forall (fun line =>
                 len line <= max_line_chars
                 \/ (In line ws /\ max_line_chars < len line))
              formatted.
Proof.
  intros Hlines Hmax Hcache Hws Hsize Hbuffer.
  assert (Htruthy : all_truthy ws).
  { exact (get_words_truthy fs _ d ws Hcache (proj1 Hws)). }
  unfold generate_paragraph.
  destruct (lines <=? 0) eqn:E1; [apply Z.leb_le in E1; lia |].
  destruct (max_line_chars <=? 0) eqn:E2; [apply Z.leb_le in E2; lia |].
  cbv zeta.
  set (ewpl := Z.max 1 (max_line_chars / 6)) in *.
  assert (Hewpl : 1 <= ewpl) by lia.
  unfold bind at 1. cbn [time_time].
  rewrite Hsize. unfold bind at 1, lift.
  match goal with
  | |- context [bind _ _ ?s] => set (st0 := s)
  end.
  assert (Hws0 : has_words st0 d ws) by exact Hws.
  destruct (generate_words_runs d _ st0 ws Hbuffer Hws0)
    as [available [st1 [Hrun [Hkept [Hlen [Hin _]]]]]].
  rewrite (bind_ok _ _ _ _ _ Hrun).
  destruct (paragraph_loop_runs d lines max_line_chars ws Hlines Htruthy
              ewpl Hewpl
              (Z.to_nat lines) 0%nat
              {| available_words := available; word_index := 0;
                 formatted_lines := [] |} st1)
    as [p [st2 [Hloop [_ [[_ Hfits] Hcount]]]]].
  - lia.
  - exact (has_words_kept _ _ _ _ Hkept Hws0).
  - split; [exact Hin | constructor].
  - reflexivity.
  - intros _. cbn [word_index available_words]. lia.
  - unfold range. rewrite (bind_ok _ _ _ _ _ Hloop).
    unfold bind, time_time, logger, ret. cbn [fst].
    exists (formatted_lines p). split; [reflexivity |].
    split; [lia | exact Hfits].
Qed.

(** C9 (amended). For positive [lines] and [max_line_chars] and a difficulty
    whose pool [ws] is not empty, let [total] be
    [lines * max(1, max_line_chars // 6)]. The buffer size
    [int(total * 1.5)] is computed in double precision. When that yields an
    int it is a positive one, and [generate_paragraph] returns exactly
    [lines] strings, each of them at most [max_line_chars] characters long
    unless it is a single word of the pool that is longer than that; this is
    so for every [total] below [2^1021]. Otherwise the computation raises
    [OverflowError] ([total] is beyond the range of a [float]) and so does
    the call. (The cache of the loader holds what the loader has put there:
    no empty word.) *)
Theorem generate_paragraph_spec d lines max_line_chars (st : Gen) ws :
  0 < lines ->
  0 < max_line_chars ->
  cache_ok (word_loader st) ->
  has_words st d ws ->
  let total := lines * Z.max 1 (max_line_chars / 6) in
  let returns_lines :=
    exists formatted,
      fst (generate_paragraph fs d lines max_line_chars st) = Ok formatted
      /\ Z.of_nat (List.length formatted) = lines
      /\ Forall (fun line =>
                   len line <= max_line_chars
                   \/ (In line ws /\ max_line_chars < len line))
                formatted in
  (total < 2 ^ 1021 -> returns_lines)
  /\ match py_int (float_of_int total * 1.5)%float with
     | Ok buffer_words => 1 <= buffer_words /\ returns_lines
     | Raise e =>
         e = OverflowError
         /\ fst (generate_paragraph fs d lines max_line_chars st)
            = Raise OverflowError
     end.
Proof.
  intros Hlines Hmax Hcache Hws. cbv zeta.
  assert (Htotal : 0 < lines * Z.max 1 (max_line_chars / 6)) by nia.
  destruct (buffer_words_outcome _ Htotal) as [Hfinite Hsign].
  destruct (py_int (float_of_int (lines * Z.max 1 (max_line_chars / 6))
                    * 1.5)%float) as [buffer_words | e] eqn:Hsize.
  - assert (Hruns := generate_paragraph_runs d lines max_line_chars st ws
                       buffer_words Hlines Hmax Hcache Hws Hsize
                       ltac:(lia)).
    split; [intros _; exact Hruns | split; [exact Hsign | exact Hruns]].
  - split.
    + intro Hsmall. destruct (Hfinite Hsmall) as [b Hb]. discriminate Hb.
    + split; [exact Hsign |]. subst e. unfold generate_paragraph.
      destruct (lines <=? 0) eqn:E1; [apply Z.leb_le in E1; lia |].
      destruct (max_line_chars <=? 0) eqn:E2; [apply Z.leb_le in E2; lia |].
      cbv zeta. unfold bind at 1. cbn [time_time].
      rewrite Hsize. reflexivity.
Qed.

(** ** The fallback words *)

(** C10 (amended). When nothing is cached for a difficulty and no word file
    exists at any of its three search paths, [get_words_for_difficulty]
    returns the built-in fallback list of the difficulty and caches it;
    that list is not empty; and [generate_words] then returns words for
    every positive count (it does not reach "No words available"). *)
Theorem fallback_words_without_files d (st : Gen) :
  word_loader st d = None ->
  (forall filepath,
      In filepath (possible_paths (_file_mappings d)) -> fs filepath = None) ->
  get_words_for_difficulty fs (word_loader st) d
  = (Ok (_get_fallback_words d),
     cache_set (word_loader st) d (_get_fallback_words d))
  /\ _get_fallback_words d <> []
  /\ (forall count,
         0 < count ->
         exists words,
           fst (generate_words fs d count st) = Ok words
           /\ Z.of_nat (List.length words) = count).
Proof.
  intros Hcache Hfiles.
  assert (Hget : get_words_for_difficulty fs (word_loader st) d
                 = (Ok (_get_fallback_words d),
                    cache_set (word_loader st) d (_get_fallback_words d))).
  { unfold get_words_for_difficulty.
    rewrite Hcache, (try_paths_no_file fs _ Hfiles). reflexivity. }
  split; [exact Hget | split; [apply fallback_words_not_empty |]].
  intros count Hcount.
  assert (Hws : has_words st d (_get_fallback_words d)).
  { split; [| apply fallback_words_not_empty].
    unfold words_of, pool. rewrite Hget. reflexivity. }
  destruct (generate_words_runs d count st _ Hcount Hws)
    as [words [st' [Hrun [_ [Hlen _]]]]].
  exists words. rewrite Hrun. split; [reflexivity | exact Hlen].
Qed.

(** ** Two instances with one seed

    Two instances agree when they differ at most by their clock and by what
    they have logged. *)
Definition agree (s1 s2 : Gen) : Prop :=
  _random s1 = _random s2
  /\ word_loader s1 = word_loader s2
  /\ _sources_loaded s1 = _sources_loaded s2
  /\ _allow_phrases s1 = _allow_phrases s2.

Definition same_outcome {A} (V : A -> A -> Prop) (r1 r2 : Result A) : Prop :=
  match r1, r2 with
  | Ok a, Ok b => V a b
  | Raise e1, Raise e2 => e1 = e2
  | _, _ => False
  end.

(** Run on instances that agree, [c1] and [c2] give outcomes related by
    [V] and leave instances that agree. *)
Definition related {A} (V : A -> A -> Prop) (c1 c2 : M A) : Prop :=
  forall s1 s2,
    agree s1 s2 ->
    same_outcome V (fst (c1 s1)) (fst (c2 s2))
    /\ agree (snd (c1 s1)) (snd (c2 s2)).

Definition any {A} (_ _ : A) : Prop := True.

Lemma related_ret {A} (V : A -> A -> Prop) a b :
  V a b -> related V (ret a) (ret b).
Proof. intros Hv s1 s2 Hs. split; [exact Hv | exact Hs]. Qed.

Lemma related_raise {A} (V : A -> A -> Prop) e :
  related V (raise e) (raise e).
Proof. intros s1 s2 Hs. split; [reflexivity | exact Hs]. Qed.

Lemma related_lift {A} (r : Result A) : related eq (lift r) (lift r).
Proof.
  intros s1 s2 Hs. split; [| exact Hs]. destruct r; reflexivity.
Qed.

Lemma related_time : related any time_time time_time.
Proof. intros s1 s2 Hs. split; [exact I | exact Hs]. Qed.

Lemma related_logger r1 r2 : related eq (logger r1) (logger r2).
Proof. intros s1 s2 Hs. split; [reflexivity | exact Hs]. Qed.

Lemma related_set_allow_phrases b :
  related eq (set_allow_phrases b) (set_allow_phrases b).
Proof.
  intros s1 s2 [H1 [H2 [H3 H4]]]. split; [reflexivity |].
  repeat split; assumption.
Qed.

Lemma related_set_sources_loaded b :
  related eq (set_sources_loaded b) (set_sources_loaded b).
Proof.
  intros s1 s2 [H1 [H2 [H3 H4]]]. split; [reflexivity |].
  repeat split; assumption.
Qed.

Lemma related_get_sources_loaded :
  related eq (get _sources_loaded) (get _sources_loaded).
Proof. intros s1 s2 Hs. split; [apply Hs | exact Hs]. Qed.

Lemma related_get_allow_phrases :
  related eq (get _allow_phrases) (get _allow_phrases).
Proof. intros s1 s2 Hs. split; [apply Hs | exact Hs]. Qed.

Lemma related_with_random {A} (f : rng -> A * rng) :
  related eq (with_random f) (with_random f).
Proof.
  intros s1 s2 [H1 [H2 [H3 H4]]]. unfold with_random. rewrite H1.
  destruct (f (_random s2)) as [a g]. split; [reflexivity |].
  repeat split; assumption.
Qed.

Lemma related_loader_get_words d :
  related eq (loader_get_words fs d) (loader_get_words fs d).
Proof.
  intros s1 s2 [H1 [H2 [H3 H4]]]. unfold loader_get_words. rewrite H2.
  destruct (get_words_for_difficulty fs (word_loader s2) d)
    as [[words | e] cache]; (split; [reflexivity |]);
    repeat split; assumption.
Qed.

Lemma related_bind {A B} (V : A -> A -> Prop) (W : B -> B -> Prop)
      (c1 c2 : M A) (k1 k2 : A -> M B) :
  related V c1 c2 ->
  (forall a b, V a b -> related W (k1 a) (k2 b)) ->
  related W (bind c1 k1) (bind c2 k2).
Proof.
  intros Hc Hk s1 s2 Hs. unfold bind.
  destruct (Hc s1 s2 Hs) as [Hout Hnext].
  destruct (c1 s1) as [[a | e1] s1'], (c2 s2) as [[b | e2] s2'];
    cbn [fst snd same_outcome] in *; try contradiction.
  - exact (Hk a b Hout s1' s2' Hnext).
  - split; assumption.
Qed.

Lemma related_try_except {A} (V : A -> A -> Prop) (c1 c2 : M A)
      (h1 h2 : Exc -> M A) :
  related V c1 c2 ->
  (forall e, related V (h1 e) (h2 e)) ->
  related V (try_except c1 h1) (try_except c2 h2).
Proof.
  intros Hc Hh s1 s2 Hs. unfold try_except.
  destruct (Hc s1 s2 Hs) as [Hout Hnext].
  destruct (c1 s1) as [[a | e1] s1'], (c2 s2) as [[b | e2] s2'];
    cbn [fst snd same_outcome] in *; try contradiction.
  - split; assumption.
  - subst e2. exact (Hh e1 s1' s2' Hnext).
Qed.

Lemma related_if {A} (V : A -> A -> Prop) (b : bool) (c1 c2 c1' c2' : M A) :
  related V c1 c2 -> related V c1' c2' ->
  related V (if b then c1 else c1') (if b then c2 else c2').
Proof. destruct b; auto. Qed.

Create HintDb related discriminated.
#[local] Hint Resolve related_raise related_lift related_time related_logger
  related_set_allow_phrases related_set_sources_loaded
  related_get_sources_loaded related_get_allow_phrases
  related_with_random related_loader_get_words : related.
#[local] Hint Extern 1 (related eq (ret _) (ret _)) =>
  apply related_ret; reflexivity : related.

(** Walks through two runs of the same code side by side: a reading of the
    clock may differ between the runs, every other value is shared. *)
Ltac related_step :=
  repeat first
    [ solve [auto with related]
    | match goal with
      | |- related _ (bind time_time _) (bind time_time _) =>
          apply related_bind with (V := any);
          [apply related_time | intros ? ? _]
      | |- related _ (bind _ _) (bind _ _) =>
          apply related_bind with (V := eq);
          [| let a := fresh "a" in let b := fresh "b" in
             let E := fresh "E" in intros a b E; subst b]
      | |- related _ (try_except _ _) (try_except _ _) =>
          apply related_try_except; [| intro]
      | |- related _ (if ?c then _ else _) (if ?c then _ else _) =>
          apply related_if
      | |- related _ (match ?x with _ => _ end) (match ?x with _ => _ end) =>
          destruct x
      end ].

Lemma related_preload ds :
  forall loaded, related eq (preload fs ds loaded) (preload fs ds loaded).
Proof.
  induction ds as [| d ds IH]; intro loaded; cbn [preload].
  - auto with related.
  - apply related_bind with (V := eq); [| intros ? ? <-; apply IH].
    related_step.
Qed.

Lemma related_load_default_sources b :
  related eq (load_default_sources fs b) (load_default_sources fs b).
Proof.
  unfold load_default_sources.
  apply related_bind with (V := eq); [auto with related | intros _ _ _].
  apply related_try_except; [| intro; related_step].
  apply related_bind with (V := eq); [apply related_preload | intros ? ? <-].
  related_step.
Qed.

Lemma related_ensure_sources_loaded :
  related eq (_ensure_sources_loaded fs) (_ensure_sources_loaded fs).
Proof.
  unfold _ensure_sources_loaded.
  apply related_bind with (V := eq);
    [auto with related | intros loaded ? <-].
  destruct loaded; [auto with related |].
  apply related_bind with (V := eq);
    [auto with related | intros allow ? <-].
  apply related_load_default_sources.
Qed.

Lemma related_get_words_for_difficulty d :
  related eq (_get_words_for_difficulty fs d) (_get_words_for_difficulty fs d).
Proof.
  unfold _get_words_for_difficulty.
  apply related_bind with (V := eq);
    [apply related_ensure_sources_loaded | intros ? ? <-].
  auto with related.
Qed.

Lemma related_generate_words d count :
  related eq (generate_words fs d count) (generate_words fs d count).
Proof.
  unfold generate_words. destruct (count <=? 0); [auto with related |].
  apply related_bind with (V := any); [apply related_time | intros t1 t2 _].
  apply related_bind with (V := eq);
    [apply related_get_words_for_difficulty | intros ws ? <-].
  destruct ws as [| w ws]; [auto with related |].
  apply related_bind with (V := eq); [related_step | intros words ? <-].
  apply related_bind with (V := any); [apply related_time | intros e1 e2 _].
  apply related_bind with (V := eq); [apply related_logger | intros _ _ _].
  auto with related.
Qed.

#[local] Hint Resolve related_generate_words : related.

Lemma related_generate_for_session d duration_seconds target_wpm :
  related eq (generate_for_session fs d duration_seconds target_wpm)
             (generate_for_session fs d duration_seconds target_wpm).
Proof. unfold generate_for_session. related_step. Qed.

Lemma related_generate_for_time_selection d minutes :
  related eq (generate_for_time_selection fs d minutes)
             (generate_for_time_selection fs d minutes).
Proof.
  unfold generate_for_time_selection.
  destruct (negb (is_time_option minutes)); [auto with related |].
  apply related_bind with (V := any); [apply related_time | intros t1 t2 _].
  apply related_bind with (V := eq); [auto with related | intros n ? <-].
  apply related_bind with (V := eq); [auto with related | intros _ _ _].
  apply related_bind with (V := eq); [auto with related | intros ws ? <-].
  apply related_bind with (V := any); [apply related_time | intros e1 e2 _].
  apply related_bind with (V := eq); [apply related_logger | intros _ _ _].
  auto with related.
Qed.

Lemma related_for_each {A St} (body : St -> A -> M St) xs :
  (forall st x, related eq (body st x) (body st x)) ->
  forall st, related eq (for_each body xs st) (for_each body xs st).
Proof.
  intro Hbody. induction xs as [| x xs IH]; intro st; cbn [for_each].
  - auto with related.
  - apply related_bind with (V := eq); [apply Hbody | intros ? ? <-; apply IH].
Qed.

Lemma related_paragraph_line d lines max_line_chars ewpl p line_num :
  related eq (paragraph_line fs d lines max_line_chars ewpl p line_num)
             (paragraph_line fs d lines max_line_chars ewpl p line_num).
Proof.
  unfold paragraph_line.
  destruct (pack_words max_line_chars
              (skipn (word_index p) (available_words p))
              EmptyString (word_index p)) as [line wi].
  destruct (negb (truthy line)
            && (wi <? List.length (available_words p))%nat);
    related_step.
Qed.

Lemma related_generate_paragraph d lines max_line_chars :
  related eq (generate_paragraph fs d lines max_line_chars)
             (generate_paragraph fs d lines max_line_chars).
Proof.
  unfold generate_paragraph.
  destruct (lines <=? 0); [auto with related |].
  destruct (max_line_chars <=? 0); [auto with related |].
  cbv zeta.
  apply related_bind with (V := any); [apply related_time | intros t1 t2 _].
  apply related_bind with (V := eq); [apply related_lift | intros n ? <-].
  apply related_bind with (V := eq); [auto with related | intros ws ? <-].
  apply related_bind with (V := eq);
    [apply related_for_each; intros; apply related_paragraph_line
    | intros p ? <-].
  apply related_bind with (V := any); [apply related_time | intros e1 e2 _].
  apply related_bind with (V := eq); [apply related_logger | intros _ _ _].
  auto with related.
Qed.

Lemma related_mixed_loop first_available items :
  forall all_words,
    related eq (mixed_loop fs first_available items all_words)
               (mixed_loop fs first_available items all_words).
Proof.
  induction items as [| [d count] items IH]; intro all_words;
    cbn [mixed_loop].
  - auto with related.
  - apply related_bind with (V := eq); [| intros ? ? <-; apply IH].
    related_step.
Qed.

Lemma related_generate_mixed weights total_count :
  related eq (generate_mixed fs weights total_count)
             (generate_mixed fs weights total_count).
Proof.
  unfold generate_mixed.
  destruct (total_count <=? 0); [auto with related |].
  destruct weights as [| item weights]; [auto with related |].
  apply related_bind with (V := eq); [auto with related | intros ws ? <-].
  apply related_bind with (V := any); [apply related_time | intros t1 t2 _].
  cbv zeta.
  destruct (sum_weights ws =? 0)%float; [auto with related |].
  apply related_bind with (V := eq); [auto with related | intros counts ? <-].
  apply related_bind with (V := eq); [related_step | intros counts' b <-].
  apply related_bind with (V := eq).
  - destruct counts' as [| [first_available c] rest];
      [auto with related | apply related_mixed_loop].
  - intros all_words ? <-.
    apply related_bind with (V := eq); [auto with related | intros ws' b <-].
    apply related_bind with (V := any); [apply related_time | intros e1 e2 _].
    apply related_bind with (V := eq); [apply related_logger | intros _ _ _].
    auto with related.
Qed.

(** A call of one of the five generation methods. *)
Inductive Call : Type :=
| Words (d : Difficulty) (count : Z)
| ForSession (d : Difficulty) (duration_seconds target_wpm : Z)
| ForTimeSelection (d : Difficulty) (minutes : Z)
| AsParagraph (d : Difficulty) (lines max_line_chars : Z)
| Mixed (weights : list (WeightKey * float)) (total_count : Z).

Definition run_call (c : Call) : M (list string) :=
  match c with
  | Words d count => generate_words fs d count
  | ForSession d duration_seconds target_wpm =>
      generate_for_session fs d duration_seconds target_wpm
  | ForTimeSelection d minutes => generate_for_time_selection fs d minutes
  | AsParagraph d lines max_line_chars =>
      generate_paragraph fs d lines max_line_chars
  | Mixed weights total_count => generate_mixed fs weights total_count
  end.

(** The outcomes of a sequence of calls on one instance, call for call. *)
Fixpoint run_calls (calls : list Call) (st : Gen)
  : list (Result (list string)) :=
  match calls with
  | [] => []
  | c :: rest => fst (run_call c st) :: run_calls rest (snd (run_call c st))
  end.

Lemma related_run_call c : related eq (run_call c) (run_call c).
Proof.
  destruct c; cbn [run_call].
  - apply related_generate_words.
  - apply related_generate_for_session.
  - apply related_generate_for_time_selection.
  - apply related_generate_paragraph.
  - apply related_generate_mixed.
Qed.

Lemma same_outcome_eq {A} (r1 r2 : Result A) : same_outcome eq r1 r2 -> r1 = r2.
Proof.
  destruct r1, r2; cbn; intro H; try contradiction; congruence.
Qed.

Lemma run_calls_agree calls :
  forall s1 s2, agree s1 s2 -> run_calls calls s1 = run_calls calls s2.
Proof.
  induction calls as [| c calls IH]; intros s1 s2 Hs; cbn [run_calls].
  - reflexivity.
  - destruct (related_run_call c s1 s2 Hs) as [Hout Hnext].
    f_equal; [exact (same_outcome_eq _ _ Hout) | exact (IH _ _ Hnext)].
Qed.

(** The instance after a sequence of calls. *)
Fixpoint state_after (calls : list Call) (st : Gen) : Gen :=
  match calls with
  | [] => st
  | c :: rest => state_after rest (snd (run_call c st))
  end.

Lemma keeps_generate_for_session d duration_seconds target_wpm :
  keeps (generate_for_session fs d duration_seconds target_wpm).
Proof.
  unfold generate_for_session.
  destruct (duration_seconds <=? 0); [auto with keeps |].
  destruct (target_wpm <=? 0); [auto with keeps |].
  apply keeps_bind; [auto with keeps | intro].
  apply keeps_bind; [auto with keeps | intro].
  apply keeps_generate_words.
Qed.

Lemma keeps_generate_for_time_selection d minutes :
  keeps (generate_for_time_selection fs d minutes).
Proof.
  unfold generate_for_time_selection.
  destruct (negb (is_time_option minutes)); [auto with keeps |].
  apply keeps_bind; [auto with keeps | intro].
  apply keeps_bind; [auto with keeps | intro].
  apply keeps_bind; [auto with keeps | intro].
  apply keeps_bind; [apply keeps_generate_words | intro].
  apply keeps_bind; [auto with keeps | intro].
  apply keeps_bind; auto with keeps.
Qed.

Lemma keeps_for_each {A St} (body : St -> A -> M St) xs :
  (forall st x, keeps (body st x)) -> forall st, keeps (for_each body xs st).
Proof.
  intro Hbody. induction xs as [| x xs IH]; intro st; cbn [for_each].
  - auto with keeps.
  - apply keeps_bind; [apply Hbody | intro; apply IH].
Qed.

Lemma keeps_paragraph_line d lines max_line_chars ewpl p line_num :
  keeps (paragraph_line fs d lines max_line_chars ewpl p line_num).
Proof.
  unfold paragraph_line.
  destruct (pack_words max_line_chars
              (skipn (word_index p) (available_words p))
              EmptyString (word_index p)) as [line wi].
  destruct (negb (truthy line)
            && (wi <? List.length (available_words p))%nat);
    repeat match goal with
           | |- keeps (if ?c then _ else _) => destruct c
           | |- keeps (bind _ _) =>
               apply keeps_bind; [apply keeps_generate_words | intro]
           | |- keeps (ret _) => apply keeps_ret
           end.
Qed.

Lemma keeps_generate_paragraph d lines max_line_chars :
  keeps (generate_paragraph fs d lines max_line_chars).
Proof.
  unfold generate_paragraph.
  destruct (lines <=? 0); [auto with keeps |].
  destruct (max_line_chars <=? 0); [auto with keeps |].
  cbv zeta.
  apply keeps_bind; [auto with keeps | intro].
  apply keeps_bind; [apply keeps_lift | intro].
  apply keeps_bind; [apply keeps_generate_words | intro].
  apply keeps_bind;
    [apply keeps_for_each; intros; apply keeps_paragraph_line | intro].
  apply keeps_bind; [auto with keeps | intro].
  apply keeps_bind; auto with keeps.
Qed.

Lemma keeps_mixed_loop first_available items :
  forall all_words, keeps (mixed_loop fs first_available items all_words).
Proof.
  induction items as [| [d count] items IH]; intro all_words;
    cbn [mixed_loop].
  - auto with keeps.
  - apply keeps_bind; [| intro; apply IH].
    destruct (0 <? count); [| auto with keeps].
    apply keeps_try_except.
    + apply keeps_bind; [apply keeps_generate_words | intro].
      apply keeps_bind; auto with keeps.
    + intro. apply keeps_bind; [auto with keeps | intro].
      destruct (negb (Difficulty_eqb first_available d)); [| auto with keeps].
      apply keeps_try_except.
      * apply keeps_bind; [apply keeps_generate_words | intro].
        apply keeps_bind; auto with keeps.
      * intro. apply keeps_bind; auto with keeps.
Qed.

Lemma keeps_generate_mixed weights total_count :
  keeps (generate_mixed fs weights total_count).
Proof.
  unfold generate_mixed.
  destruct (total_count <=? 0); [auto with keeps |].
  destruct weights as [| item weights]; [auto with keeps |].
  apply keeps_bind; [auto with keeps | intro ws].
  apply keeps_bind; [auto with keeps | intro].
  cbv zeta.
  destruct (sum_weights ws =? 0)%float; [auto with keeps |].
  apply keeps_bind; [auto with keeps | intro counts].
  apply keeps_bind.
  - destruct (0 <? total_count - fold_left Z.add (map snd counts) 0);
      [| auto with keeps].
    apply keeps_bind; [auto with keeps | intro].
    apply keeps_bind; auto with keeps.
  - intro counts'. apply keeps_bind.
    + destruct counts' as [| [first_available c] rest];
        [auto with keeps | apply keeps_mixed_loop].
    + intro. apply keeps_bind; [auto with keeps | intro].
      apply keeps_bind; [auto with keeps | intro].
      apply keeps_bind; auto with keeps.
Qed.

Lemma keeps_run_call c : keeps (run_call c).
Proof.
  destruct c; cbn [run_call].
  - apply keeps_generate_words.
  - apply keeps_generate_for_session.
  - apply keeps_generate_for_time_selection.
  - apply keeps_generate_paragraph.
  - apply keeps_generate_mixed.
Qed.

(** Whatever calls an instance has served since it was built, its cache
    holds no empty word, and the words of a difficulty are those it would
    have found at the start. *)
Lemma state_after_kept calls :
  forall st, sources_kept st (state_after calls st).
Proof.
  induction calls as [| c calls IH]; intro st; cbn [state_after].
  - apply sources_kept_refl.
  - eapply sources_kept_trans; [apply keeps_run_call | apply IH].
Qed.

Lemma reachable_cache_ok seed clock calls :
  cache_ok (word_loader (state_after calls (init seed clock))).
Proof.
  apply (state_after_kept calls (init seed clock)). exact empty_cache_ok.
Qed.

(** C1. Two instances built with the same integer seed over the same word
    files, driven through the same sequence of calls of the five
    generation methods, return the same outcomes call for call (the same
    words, or the same exception), whatever their clocks read. *)
Theorem same_seed_same_output (seed : Z) (clock1 clock2 : nat -> float)
        (calls : list Call) :
  run_calls calls (init seed clock1) = run_calls calls (init seed clock2).
Proof.
  apply run_calls_agree. unfold agree, init. cbn.
  repeat split; reflexivity.
Qed.
End Generator.
End WordGeneratorFacts.

(* ================================================================== *)
(** * The generator at work on concrete word sources *)
(* ================================================================== *)

Module WordGeneratorExamples.
Import WordSourceLoader WordSourceLoaderFacts WordGenerator WordGeneratorFacts.

(** A directory without any word file: every difficulty falls back on the
    built-in words. *)
Definition no_files : FileSystem := fun _ => None.

(** A clock that stands still. *)
Definition still_clock : nat -> float := fun _ => 0%float.

(** A file, decodable as UTF-8, holding the given lines. *)
Definition text_file (lines : list string) : FileView :=
  fun _ => {| lines_read := lines; read_end := EndOfFile |}.

(** A word file for [SIMPLE] that lists the same word twice. *)
Definition repeated_word_file : FileSystem :=
  single_file "simple_words_large.txt" (text_file ["a"; "a"]%string).

(** C5 fails as stated: the pool of [SIMPLE] has two entries, two words are
    asked for, and the two words returned are equal. *)
Lemma generate_words_repeats_a_listed_word :
  let st := init (R := Lcg.random) 42 still_clock in
  words_of repeated_word_file st SIMPLE = Ok ["a"; "a"]%string
  /\ fst (generate_words repeated_word_file SIMPLE 2 st)
     = Ok ["a"; "a"]%string
  /\ ~ NoDup ["a"; "a"]%string.
Proof.
  cbv zeta. split; [reflexivity | split].
  - vm_compute. reflexivity.
  - intro Hnd. inversion Hnd as [| ? ? Hnotin _]. apply Hnotin.
    left. reflexivity.
Qed.

Lemma generate_words_spec_witness :
  exists words,
    fst (generate_words no_files SIMPLE 3
                        (init (R := Lcg.random) 7 still_clock)) = Ok words
    /\ Z.of_nat (List.length words) = 3
    /\ (forall w, In w words -> In w base_words).
Proof.
  assert (Hws : has_words no_files (init (R := Lcg.random) 7 still_clock)
                          SIMPLE base_words).
  { split; [reflexivity | discriminate]. }
  destruct (proj2 (generate_words_spec no_files SIMPLE 3 _ base_words Hws))
    as [words [Hrun [Hlen [Hin _]]]]; [lia |].
  exists words. split; [exact Hrun | split; [exact Hlen | exact Hin]].
Defined.


(** C6 fails as stated: for 90 seconds at 25 words per minute the
    specification's formula gives floor(1.5 * 25 * 1.1) = 41 words, and the
    method asks for 40: the base count 37.5 is truncated to 37 before the
    buffer is applied. *)
Lemma session_word_count_truncates_the_base_count :
  spec_session_word_count 90 25 = 41
  /\ session_word_count 90 25 = Ok 40
  /\ exists words,
       fst (generate_for_session no_files SIMPLE 90 25
                                 (init (R := Lcg.random) 1 still_clock))
       = Ok words
       /\ List.length words = 40%nat.
Proof.
  split; [reflexivity | split; [vm_compute; reflexivity |]].
  eexists. split; [vm_compute; reflexivity | reflexivity].
Qed.

Lemma generate_for_session_spec_witness :
  generate_for_session no_files SIMPLE 60 40
                       (init (R := Lcg.random) 1 still_clock)
  = generate_words no_files SIMPLE 44
      (snd (logger (Info "Session calculation" [60; 40; 44] None)
                   (init (R := Lcg.random) 1 still_clock))).
Proof.
  pose proof (proj2 (generate_for_session_spec
                       no_files SIMPLE 60 40
                       (init (R := Lcg.random) 1 still_clock))) as H.
  assert (Hbase : py_int (float_of_int 60 / 60 * float_of_int 40)%float
                  = Ok 40) by (vm_compute; reflexivity).
  assert (Hbuf : py_int (float_of_int 40 * 1.1)%float = Ok 44)
    by (vm_compute; reflexivity).
  rewrite Hbase, Hbuf in H. apply H; lia.
Defined.

(** C9 fails as stated: [10^400] lines of at most 10 characters are a
    positive number of lines, the pool of [SIMPLE] is not empty, and
    [int(total_estimated_words * 1.5)] raises [OverflowError]: [10^400] is
    too large for a [float]. *)
Lemma generate_paragraph_overflows :
  let st := init (R := Lcg.random) 3 still_clock in
  0 < 10 ^ 400
  /\ words_of no_files st SIMPLE = Ok base_words
  /\ base_words <> []
  /\ fst (generate_paragraph no_files SIMPLE (10 ^ 400) 10 st)
     = Raise OverflowError.
Proof.
  cbv zeta. split; [reflexivity | split; [reflexivity | split]].
  - discriminate.
  - vm_compute. reflexivity.
Qed.

Lemma generate_paragraph_spec_witness :
  exists formatted,
    fst (generate_paragraph no_files SIMPLE 2 10
                            (init (R := Lcg.random) 3 still_clock))
    = Ok formatted
    /\ Z.of_nat (List.length formatted) = 2
    /\ Forall (fun line =>
                 len line <= 10 \/ (In line base_words /\ 10 < len line))
              formatted.
Proof.
  refine (proj1 (generate_paragraph_spec no_files SIMPLE 2 10
                   (init (R := Lcg.random) 3 still_clock) base_words
                   _ _ _ _) _).
  - lia.
  - lia.
  - exact empty_cache_ok.
  - split; [reflexivity | discriminate].
  - vm_compute. reflexivity.
Defined.

(** A word file for [SIMPLE] that holds a comment and no word. *)
Definition comment_only_file : FileSystem :=
  single_file "simple_words_large.txt" (text_file ["# to be filled in"]%string).

(** C10 fails as stated: the word file of [SIMPLE] exists and lists no
    word; [get_words_for_difficulty] returns the empty list, and
    [generate_words], with the sources loaded, raises "No words
    available". *)
Lemma existing_file_without_words :
  let st := init (R := Lcg.random) 1 still_clock in
  get_words_for_difficulty comment_only_file empty_cache SIMPLE
  = (Ok [], cache_set empty_cache SIMPLE [])
  /\ fst (generate_words comment_only_file SIMPLE 5 st) = Raise RuntimeError
  /\ _sources_loaded (snd (generate_words comment_only_file SIMPLE 5 st))
     = true.
Proof.
  cbv zeta. split; [reflexivity | split; vm_compute; reflexivity].
Qed.

Lemma fallback_words_without_files_witness :
  get_words_for_difficulty no_files empty_cache HARD
  = (Ok (_get_fallback_words HARD),
     cache_set empty_cache HARD (_get_fallback_words HARD))
  /\ _get_fallback_words HARD <> [].
Proof.
  destruct (fallback_words_without_files
              no_files HARD (init (R := Lcg.random) 1 still_clock))
    as [Hget [Hne _]].
  - reflexivity.
  - intros filepath _. reflexivity.
  - split; [exact Hget | exact Hne].
Defined.
End WordGeneratorExamples.

(* ================================================================== *)
(** * Properties of the score table *)
(* ================================================================== *)

Module DatabaseManagerFacts.
Import DatabaseManager FloatOrder.

(** The keys of a table are pairwise different, none exceeds the last key
    given out, and the [REAL] columns hold numbers. *)
Definition table_ok (t : Table) : Prop :=
  NoDup (map row_id (rows t))
  /\ Forall (fun r => row_id r <= last_id t) (rows t)
  /\ Forall has_reals (rows t).

(** A sorting query: insertion into a sorted list, equal rows kept in the
    order of their keys. *)
Fixpoint insert_sorted (r : Row) (l : list Row) : list Row :=
  match l with
  | [] => [r]
  | x :: l' => if precedesb x r then x :: insert_sorted r l' else r :: x :: l'
  end.

Definition insertion_order_by (l : list Row) : list Row :=
  fold_right insert_sorted [] l.

(** ** The stored values *)




(** ** The order of the leaderboard *)

Lemma precedes_trans a b c : precedes a b -> precedes b c -> precedes a c.
Proof.
  unfold precedes.
  intros [H1 | [H1 H1']] [H2 | [H2 H2']].
  - left. apply ltb_below in H1, H2. apply ltb_below.
    destruct H1 as [? [? H1]], H2 as [? [? H2]].
    repeat split; try assumption. exact (below_trans _ _ _ H2 H1).
  - left. apply ltb_below in H1. apply eqb_rank in H2. apply ltb_below.
    destruct H1 as [? [? H1]], H2 as [? [? H2]].
    repeat split; try assumption. rewrite <- H2. exact H1.
  - left. apply eqb_rank in H1. apply ltb_below in H2. apply ltb_below.
    destruct H1 as [? [? H1]], H2 as [? [? H2]].
    repeat split; try assumption. rewrite H1. exact H2.
  - right. apply eqb_rank in H1, H2. apply leb_not_below in H1', H2'.
    destruct H1 as [? [? H1]], H2 as [? [? H2]].
    destruct H1' as [? [? H1']], H2' as [? [? H2']].
    split.
    + apply eqb_rank. repeat split; try assumption. congruence.
    + apply leb_not_below. repeat split; try assumption.
      intro Hbelow.
      destruct (below_total (rank (row_accuracy b)) (rank (row_accuracy c)))
        as [Hbc | [Hbc | Hbc]].
      * exact (H2' Hbc).
      * apply H1'. rewrite Hbc. exact Hbelow.
      * apply H1'. exact (below_trans _ _ _ Hbelow Hbc).
Qed.

Lemma precedesb_true a b : precedesb a b = true -> precedes a b.
Proof.
  unfold precedesb, precedes. intro H.
  apply orb_prop in H. destruct H as [H | H]; [left; exact H |].
  apply andb_prop in H. right. exact H.
Qed.

Lemma precedesb_false a b :
  has_reals a -> has_reals b -> precedesb a b = false -> precedes b a.
Proof.
  unfold precedesb, precedes. intros [Hwa Haa] [Hwb Hab] H.
  apply orb_false_iff in H. destruct H as [Hlt H].
  destruct (below_total (rank (row_wpm a)) (rank (row_wpm b)))
    as [Hw | [Hw | Hw]].
  - left. apply ltb_below. auto.
  - right. split; [apply eqb_rank; auto |].
    assert (Heq : (row_wpm a =? row_wpm b)%float = true)
      by (apply eqb_rank; auto).
    rewrite Heq in H. cbn [andb] in H.
    apply leb_not_below. repeat split; try assumption.
    intro Hbelow.
    assert (Hle : (row_accuracy b <=? row_accuracy a)%float = true).
    { apply leb_not_below. repeat split; try assumption.
      intro Hrev. exact (below_irrefl _ (below_trans _ _ _ Hbelow Hrev)). }
    rewrite Hle in H. discriminate.
  - assert (Hgt : (row_wpm b <? row_wpm a)%float = true)
      by (apply ltb_below; auto).
    rewrite Hgt in Hlt. discriminate.
Qed.


(** ** Lists *)




Lemma filter_keeps {A} (P : A -> Prop) (f : A -> bool) (l : list A) :
  Forall P l -> Forall P (filter f l).
Proof.
  intro H. apply Forall_forall. intros x Hx. apply filter_In in Hx.
  exact (proj1 (Forall_forall _ _) H x (proj1 Hx)).
Qed.



Lemma In_firstn {A} (n : nat) (l : list A) (x : A) :
  In x (firstn n l) -> In x l.
Proof.
  intro H. rewrite <- (firstn_skipn n l). apply in_or_app. left. exact H.
Qed.

Lemma In_skipn {A} (n : nat) (l : list A) (x : A) :
  In x (skipn n l) -> In x l.
Proof.
  intro H. rewrite <- (firstn_skipn n l). apply in_or_app. right. exact H.
Qed.















(** The rows a query reads: all of them, or those of a mode. *)
Definition selected (mode_filter : option string) (table : list Row)
  : list Row :=
  match mode_filter with
  | Some m =>
      if truthy m
      then filter (fun r => String.eqb (mode (row_data r)) m) table
      else table
  | None => table
  end.





Section Queries.

Variable order_by : list Row -> list Row.
Hypothesis order_by_permutation : forall l, Permutation l (order_by l).
Hypothesis order_by_sorted :
  forall l, Forall has_reals l -> StronglySorted precedes (order_by l).







(** ** Records saved with increasing speeds *)





(** ** The leaderboard *)

(** What [get_leaderboard] returns for a limit that SQLite accepts: the
    rows of the mode, sorted and cut at the limit. *)
Lemma get_leaderboard_rows db mode_filter limit :
  sql_integer limit = true ->
  fst (get_leaderboard order_by db mode_filter limit)
  = map _row_to_score_record
        (sql_limit limit
                   (order_by (selected mode_filter (rows (scores db))))).
Proof.
  intro Hlimit. unfold get_leaderboard. rewrite Hlimit. cbn [negb fst].
  destruct (connected db); reflexivity.
Qed.







End Queries.

(** ** A query that sorts *)

Lemma insert_sorted_permutation r l : Permutation (r :: l) (insert_sorted r l).
Proof.
  induction l as [| x l IH]; cbn [insert_sorted]; [reflexivity |].
  destruct (precedesb x r); [| reflexivity].
  etransitivity; [apply perm_swap |]. constructor. exact IH.
Qed.

Lemma insertion_order_by_permutation l : Permutation l (insertion_order_by l).
Proof.
  induction l as [| r l IH]; cbn; [constructor |].
  etransitivity; [| apply insert_sorted_permutation].
  constructor. exact IH.
Qed.

Lemma insert_sorted_sorted r l :
  has_reals r -> Forall has_reals l ->
  StronglySorted precedes l -> StronglySorted precedes (insert_sorted r l).
Proof.
  intros Hr Hl Hsorted. induction Hsorted as [| x l Hs IH Hx];
    cbn [insert_sorted].
  - repeat constructor.
  - inversion Hl as [| ? ? Hrx Hrl]. subst.
    destruct (precedesb x r) eqn:E.
    + constructor; [exact (IH Hrl) |].
      apply Forall_forall. intros y Hy.
      eapply Permutation_in in Hy;
        [| symmetry; apply insert_sorted_permutation].
      destruct Hy as [<- | Hy].
      * exact (precedesb_true _ _ E).
      * exact (proj1 (Forall_forall _ _) Hx y Hy).
    + apply precedesb_false in E; [| exact Hrx | exact Hr]. constructor.
      * constructor; assumption.
      * constructor; [exact E |].
        eapply Forall_impl; [| exact Hx].
        intros y Hy. exact (precedes_trans _ _ _ E Hy).
Qed.

Lemma insertion_order_by_sorted l :
  Forall has_reals l -> StronglySorted precedes (insertion_order_by l).
Proof.
  induction 1 as [| r l Hr Hl IH]; cbn; [constructor |].
  apply insert_sorted_sorted; [exact Hr | | exact IH].
  eapply Permutation_Forall; [apply insertion_order_by_permutation | exact Hl].
Qed.

(** ** Fifty-five saves *)



(** The score of a session at [n] words per minute. *)
Definition score_at (n : nat) : ScoreRecord :=
  {| id := None; user_name := "ann"; wpm := float_of_int (Z.of_nat n);
     accuracy := 95%float; level := "beginner"; mode := "practice";
     duration := 60; total_characters := 300; correct_characters := 290 |}.





End DatabaseManagerFacts.

(* ================================================================== *)
(** * Further properties of the performance calculator *)
(* ================================================================== *)

Module TypedTextFacts.
Import PerformanceCalculator PerformanceCalculatorFacts.

(** The number of positions of the common prefix at which the two texts
    differ. *)
Fixpoint mismatches (typed_text target_text : string) : Z :=
  match typed_text, target_text with
  | String a s, String b t =>
      (if Ascii.eqb a b then 0 else 1) + mismatches s t
  | _, _ => 0
  end.

Lemma error_loop_mismatches (s t : string) :
  forall (typed target : string) (k : nat) (acc : Z),
    (forall i, String.get (k + i) typed = String.get i s) ->
    (forall i, String.get (k + i) target = String.get i t) ->
    fold_left (error_step typed target)
              (seq k (Nat.min (String.length s) (String.length t))) acc
    = acc + mismatches s t.
Proof.
  revert t. induction s as [| a s IH]; intros t typed target k acc Hs Ht.
  - simpl. lia.
  - destruct t as [| b t].
    + simpl. lia.
    + cbn [String.length Nat.min seq fold_left mismatches].
      unfold error_step at 2.
      pose proof (Hs 0%nat) as Hs0. pose proof (Ht 0%nat) as Ht0.
      rewrite Nat.add_0_r in Hs0, Ht0. rewrite Hs0, Ht0. cbn [String.get].
      rewrite (IH t typed target (S k)).
      * destruct (Ascii.eqb a b); lia.
      * intro i. specialize (Hs (S i)).
        rewrite Nat.add_succ_r in Hs. exact Hs.
      * intro i. specialize (Ht (S i)).
        rewrite Nat.add_succ_r in Ht. exact Ht.
Qed.

Lemma count_correct_characters_matches typed target :
  _count_correct_characters typed target = matches typed target.
Proof.
  unfold _count_correct_characters.
  rewrite (count_loop_matches typed target typed target 0 0)
    by (intro i; reflexivity).
  reflexivity.
Qed.

Lemma count_errors_mismatches typed target :
  _count_errors typed target
  = mismatches typed target + Z.max 0 (len typed - len target).
Proof.
  unfold _count_errors.
  rewrite (error_loop_mismatches typed target typed target 0 0)
    by (intro i; reflexivity).
  destruct (len target <? len typed) eqn:E.
  - apply Z.ltb_lt in E. lia.
  - apply Z.ltb_ge in E. lia.
Qed.

Lemma matches_mismatches s :
  forall t,
    matches s t + mismatches s t
    = Z.of_nat (Nat.min (String.length s) (String.length t)).
Proof.
  induction s as [| a s IH]; intro t; [reflexivity |].
  destruct t as [| b t]; [reflexivity |].
  cbn [matches mismatches String.length Nat.min].
  specialize (IH t). destruct (Ascii.eqb a b); lia.
Qed.

Lemma mismatches_nonneg s : forall t, 0 <= mismatches s t.
Proof.
  induction s as [| a s IH]; intro t; [reflexivity |].
  destruct t as [| b t]; [reflexivity |].
  cbn [mismatches]. specialize (IH t). destruct (Ascii.eqb a b); lia.
Qed.

Lemma matches_nonneg s : forall t, 0 <= matches s t.
Proof.
  induction s as [| a s IH]; intro t; [reflexivity |].
  destruct t as [| b t]; [reflexivity |].
  cbn [matches]. specialize (IH t). destruct (Ascii.eqb a b); lia.
Qed.

(** X1. Every typed character is counted once: as correct, or as an error.
    So the [incorrect_characters] of [calculate_final_result], computed as
    [total_characters - correct_characters], is [_count_errors]. *)
Theorem typed_characters_are_correct_or_errors (typed target : string) :
  _count_correct_characters typed target + _count_errors typed target
  = len typed
  /\ 0 <= _count_correct_characters typed target
  /\ 0 <= _count_errors typed target.
Proof.
  rewrite count_correct_characters_matches, count_errors_mismatches.
  pose proof (matches_mismatches typed target) as Hsum.
  pose proof (matches_nonneg typed target).
  pose proof (mismatches_nonneg typed target).
  unfold len. lia.
Qed.

Lemma mismatches_zero_prefix s :
  forall t,
    (String.length s <= String.length t)%nat ->
    (mismatches s t = 0 <-> String.prefix s t = true).
Proof.
  induction s as [| a s IH]; intros t Hlen.
  - destruct t; cbn; tauto.
  - destruct t as [| b t]; [cbn in Hlen; lia |].
    cbn [mismatches String.prefix]. cbn [String.length] in Hlen.
    pose proof (mismatches_nonneg s t) as Hpos.
    destruct (Ascii.ascii_dec a b) as [-> | Hneq].
    + rewrite Ascii.eqb_refl. rewrite <- IH by lia. lia.
    + destruct (Ascii.eqb a b) eqn:E.
      * apply Ascii.eqb_eq in E. contradiction.
      * split; [lia | discriminate].
Qed.

Lemma prefix_length s : forall t,
  String.prefix s t = true -> (String.length s <= String.length t)%nat.
Proof.
  induction s as [| a s IH]; intros t H; [cbn; lia |].
  destruct t as [| b t]; [discriminate |].
  cbn [String.prefix] in H. cbn [String.length].
  destruct (Ascii.ascii_dec a b); [| discriminate].
  specialize (IH t H). lia.
Qed.

(** X2. [_count_errors] finds no error exactly when the typed text is a
    beginning of the target text. *)
Theorem no_errors_iff_prefix (typed target : string) :
  _count_errors typed target = 0 <-> String.prefix typed target = true.
Proof.
  rewrite count_errors_mismatches.
  pose proof (mismatches_nonneg typed target) as Hpos.
  split.
  - intro H.
    assert (Hlen : (String.length typed <= String.length target)%nat)
      by (unfold len in H; lia).
    apply mismatches_zero_prefix; [exact Hlen | lia].
  - intro H. pose proof (prefix_length _ _ H) as Hlen.
    apply (mismatches_zero_prefix typed target Hlen) in H.
    unfold len. lia.
Qed.

End TypedTextFacts.

Module TypedWordsFacts.
Import PerformanceCalculator.

(** The number of positions at which two lists of words carry the same
    word. *)
Fixpoint word_matches (typed_words target_words : list string) : Z :=
  match typed_words, target_words with
  | a :: s, b :: t => (if String.eqb a b then 1 else 0) + word_matches s t
  | _, _ => 0
  end.

Lemma word_loop_matches (s t : list string) :
  forall (typed target : list string) (k : nat) (acc : Z),
    (forall i, nth_error typed (k + i) = nth_error s i) ->
    (forall i, nth_error target (k + i) = nth_error t i) ->
    fold_left (word_step typed target)
              (seq k (Nat.min (List.length s) (List.length t))) acc
    = acc + word_matches s t.
Proof.
  revert t. induction s as [| a s IH]; intros t typed target k acc Hs Ht.
  - simpl. lia.
  - destruct t as [| b t].
    + simpl. lia.
    + cbn [List.length Nat.min seq fold_left word_matches].
      unfold word_step at 2.
      pose proof (Hs 0%nat) as Hs0. pose proof (Ht 0%nat) as Ht0.
      rewrite Nat.add_0_r in Hs0, Ht0. rewrite Hs0, Ht0. cbn [nth_error].
      rewrite (IH t typed target (S k)).
      * destruct (String.eqb a b); lia.
      * intro i. specialize (Hs (S i)).
        rewrite Nat.add_succ_r in Hs. exact Hs.
      * intro i. specialize (Ht (S i)).
        rewrite Nat.add_succ_r in Ht. exact Ht.
Qed.

Lemma count_correct_words_matches typed target :
  _count_correct_words typed target = word_matches typed target.
Proof.
  unfold _count_correct_words.
  rewrite (word_loop_matches typed target typed target 0 0)
    by (intro i; reflexivity).
  reflexivity.
Qed.

Lemma word_matches_bounds s :
  forall t,
    0 <= word_matches s t
    <= Z.of_nat (Nat.min (List.length s) (List.length t)).
Proof.
  induction s as [| a s IH]; intro t; [cbn; lia |].
  destruct t as [| b t]; [cbn; lia |].
  cbn [word_matches List.length Nat.min].
  specialize (IH t). destruct (String.eqb a b); lia.
Qed.

Lemma word_matches_all s :
  forall t,
    word_matches s t = Z.of_nat (List.length s) <-> s = firstn (List.length s) t.
Proof.
  induction s as [| a s IH]; intro t; [cbn; tauto |].
  destruct t as [| b t].
  - cbn [word_matches List.length firstn]. split; [lia | discriminate].
  - cbn [word_matches List.length firstn].
    pose proof (word_matches_bounds s t) as Hb.
    destruct (String.eqb_spec a b) as [-> | Hneq].
    + split.
      * intro H. f_equal. apply IH. lia.
      * intro H. injection H as H. apply IH in H. lia.
    + split; [lia |]. intro H. injection H as H _. contradiction.
Qed.

(** X3. Words are compared position by position: the count of correct words is
    at most the length of the shorter list, and every typed word counts
    exactly when the typed words are the first words of the target. *)
Theorem correct_words_by_position (typed_words target_words : list string) :
  0 <= _count_correct_words typed_words target_words
    <= Z.min (Z.of_nat (List.length typed_words))
             (Z.of_nat (List.length target_words))
  /\ (_count_correct_words typed_words target_words
      = Z.of_nat (List.length typed_words)
      <-> typed_words = firstn (List.length typed_words) target_words).
Proof.
  rewrite count_correct_words_matches.
  pose proof (word_matches_bounds typed_words target_words).
  split; [lia | apply word_matches_all].
Qed.

End TypedWordsFacts.

Module GradeFacts.
Import PerformanceCalculator.

(** ** The order of binary64 values *)

(** [<=] on floats is transitive (a comparison with [nan] is false). *)
Lemma SFleb_trans (x y z : spec_float) :
  SFleb x y = true -> SFleb y z = true -> SFleb x z = true.
Proof.
  unfold SFleb, SFcompare.
  destruct x as [sx | sx | | sx mx ex], y as [sy | sy | | sy my ey],
           z as [sz | sz | | sz mz ez];
    try discriminate; try reflexivity;
    try (destruct sx, sy, sz; (discriminate || reflexivity)).
  change (PosDef.Pos.compare_cont Eq) with Pos.compare.
  destruct sx, sy, sz; try discriminate; try reflexivity;
    destruct (Z.compare_spec ex ey), (Z.compare_spec ey ez),
             (Z.compare_spec ex ez);
    try discriminate; try reflexivity; try lia; subst;
    destruct (Pos.compare_spec mx my), (Pos.compare_spec my mz),
             (Pos.compare_spec mx mz);
    cbn; try discriminate; try reflexivity; lia.
Qed.

Lemma leb_trans (x y z : float) :
  (x <=? y)%float = true -> (y <=? z)%float = true -> (x <=? z)%float = true.
Proof. rewrite !leb_spec. apply SFleb_trans. Qed.

(** The seven grades, from the lowest to the highest. *)
Definition grade_rank (grade : string) : nat :=
  if String.eqb grade "Exceptional" then 6
  else if String.eqb grade "Excellent" then 5
  else if String.eqb grade "Very Good" then 4
  else if String.eqb grade "Good" then 3
  else if String.eqb grade "Average" then 2
  else if String.eqb grade "Below Average" then 1
  else 0.

(** X4. A result that is at least as fast and at least as accurate never gets
    a lower grade. *)
Theorem grade_is_monotone (wpm1 accuracy1 wpm2 accuracy2 : float) :
  (wpm1 <=? wpm2)%float = true ->
  (accuracy1 <=? accuracy2)%float = true ->
  (grade_rank (get_performance_grade wpm1 accuracy1)
   <= grade_rank (get_performance_grade wpm2 accuracy2))%nat.
Proof.
  intros Hw Ha.
  assert (Hstep : forall w a : float,
             (w <=? wpm1)%float && (a <=? accuracy1)%float = true ->
             (w <=? wpm2)%float && (a <=? accuracy2)%float = true).
  { intros w a H. apply andb_true_iff in H. destruct H as [H1 H2].
    apply andb_true_iff. split; eapply leb_trans; eassumption. }
  unfold get_performance_grade.
  pose proof (Hstep 80%float 98%float) as H6.
  pose proof (Hstep 70%float 95%float) as H5.
  pose proof (Hstep 60%float 92%float) as H4.
  pose proof (Hstep 50%float 88%float) as H3.
  pose proof (Hstep 40%float 85%float) as H2.
  pose proof (Hstep 30%float 80%float) as H1.
  destruct ((80 <=? wpm1)%float && (98 <=? accuracy1)%float);
    [rewrite (H6 eq_refl); cbn; lia |].
  destruct ((70 <=? wpm1)%float && (95 <=? accuracy1)%float);
    [rewrite (H5 eq_refl);
     destruct ((80 <=? wpm2)%float && (98 <=? accuracy2)%float); cbn; lia |].
  destruct ((60 <=? wpm1)%float && (92 <=? accuracy1)%float);
    [rewrite (H4 eq_refl);
     destruct ((80 <=? wpm2)%float && (98 <=? accuracy2)%float),
              ((70 <=? wpm2)%float && (95 <=? accuracy2)%float); cbn; lia |].
  destruct ((50 <=? wpm1)%float && (88 <=? accuracy1)%float);
    [rewrite (H3 eq_refl);
     destruct ((80 <=? wpm2)%float && (98 <=? accuracy2)%float),
              ((70 <=? wpm2)%float && (95 <=? accuracy2)%float),
              ((60 <=? wpm2)%float && (92 <=? accuracy2)%float); cbn; lia |].
  destruct ((40 <=? wpm1)%float && (85 <=? accuracy1)%float);
    [rewrite (H2 eq_refl);
     destruct ((80 <=? wpm2)%float && (98 <=? accuracy2)%float),
              ((70 <=? wpm2)%float && (95 <=? accuracy2)%float),
              ((60 <=? wpm2)%float && (92 <=? accuracy2)%float),
              ((50 <=? wpm2)%float && (88 <=? accuracy2)%float); cbn; lia |].
  destruct ((30 <=? wpm1)%float && (80 <=? accuracy1)%float);
    [rewrite (H1 eq_refl);
     destruct ((80 <=? wpm2)%float && (98 <=? accuracy2)%float),
              ((70 <=? wpm2)%float && (95 <=? accuracy2)%float),
              ((60 <=? wpm2)%float && (92 <=? accuracy2)%float),
              ((50 <=? wpm2)%float && (88 <=? accuracy2)%float),
              ((40 <=? wpm2)%float && (85 <=? accuracy2)%float); cbn; lia |].
  cbn. lia.
Qed.

Lemma grade_is_monotone_witness :
  (grade_rank (get_performance_grade 52.4 91)
   <= grade_rank (get_performance_grade 61 93.5))%nat.
Proof.
  apply grade_is_monotone; reflexivity.
Defined.

End GradeFacts.

Module KeystrokeFacts.
Import PerformanceCalculator.

(** A keystroke: whether it was correct, whether it was a backspace, and
    the time at which it was recorded. *)
Record Keystroke : Type := {
  is_correct : bool;
  is_backspace : bool;
  pressed_at : float
}.

Definition record (t : Tracker) (k : Keystroke) : Tracker :=
  record_keystroke (is_correct k) (is_backspace k) (pressed_at k) t.

(** The keystrokes of a session, recorded one after the other. *)
Definition record_all (keys : list Keystroke) (t : Tracker) : Tracker :=
  fold_left record keys t.

(** The time from each keystroke to the next. *)
Fixpoint intervals (last : float) (times : list float) : list float :=
  match times with
  | [] => []
  | now :: rest => (now - last)%float :: intervals now rest
  end.

(** The ranks, counted from [i], of the keystrokes that are wrong and are
    not backspaces. *)
Fixpoint mistakes_from (i : nat) (keys : list Keystroke) : list Z :=
  match keys with
  | [] => []
  | k :: rest =>
      if negb (is_backspace k) && negb (is_correct k)
      then Z.of_nat i :: mistakes_from (S i) rest
      else mistakes_from (S i) rest
  end.

Definition backspaces (keys : list Keystroke) : Z :=
  Z.of_nat (List.length (filter is_backspace keys)).

Lemma record_all_from (keys : list Keystroke) :
  forall (t : Tracker) (last : float),
    last_keystroke_time t = Some last ->
    keystroke_times (record_all keys t)
    = keystroke_times t ++ intervals last (map pressed_at keys)
    /\ error_positions (record_all keys t)
       = error_positions t
         ++ mistakes_from (S (List.length (keystroke_times t))) keys
    /\ backspace_count (record_all keys t)
       = backspace_count t + backspaces keys.
Proof.
  induction keys as [| k keys IH]; intros t last Hlast.
  - cbn. rewrite !app_nil_r. unfold backspaces. cbn. repeat split. lia.
  - cbn [record_all fold_left].
    change (fold_left record keys (record t k))
      with (record_all keys (record t k)).
    destruct (IH (record t k) (pressed_at k) eq_refl) as [Htimes [Herr Hback]].
    assert (Hstep : keystroke_times (record t k)
                    = keystroke_times t ++ [(pressed_at k - last)%float]).
    { unfold record, record_keystroke. rewrite Hlast. reflexivity. }
    rewrite Htimes, Herr, Hback, Hstep. clear Htimes Herr Hback IH.
    rewrite length_app. cbn [List.length map intervals mistakes_from].
    rewrite Nat.add_1_r, <- app_assoc. cbn [app].
    unfold record at 1 2, record_keystroke. rewrite Hlast.
    cbn [error_positions backspace_count]. unfold backspaces. cbn [filter].
    rewrite length_app, Nat.add_1_r. cbn [List.length].
    destruct (is_backspace k), (is_correct k); cbn [negb andb List.length];
      rewrite <- ?app_assoc; cbn [app]; repeat split; lia.
Qed.

(** X5. After [reset_session], the tracker holds, for the keystrokes recorded
    since: the intervals between consecutive keystrokes (one fewer than the
    keystrokes), the ranks of the wrong keystrokes, and the number of
    backspaces. *)
Theorem keystrokes_bookkeeping (first : Keystroke) (rest : list Keystroke)
        (t : Tracker) :
  let tracked := record_all (first :: rest) (reset_session t) in
  keystroke_times tracked = intervals (pressed_at first) (map pressed_at rest)
  /\ List.length (keystroke_times tracked) = List.length rest
  /\ error_positions tracked = mistakes_from 0 (first :: rest)
  /\ backspace_count tracked = backspaces (first :: rest).
Proof.
  cbv zeta. cbn [record_all fold_left].
  change (fold_left record rest (record (reset_session t) first))
    with (record_all rest (record (reset_session t) first)).
  destruct (record_all_from rest (record (reset_session t) first)
                            (pressed_at first) eq_refl)
    as [Htimes [Herr Hback]].
  rewrite Htimes, Herr, Hback. cbn [record record_keystroke reset_session
    last_keystroke_time keystroke_times error_positions backspace_count
    app List.length mistakes_from].
  assert (Hlen : forall last times,
             List.length (intervals last times) = List.length times).
  { intros last times. revert last.
    induction times as [| now times IH]; intro last; cbn; [reflexivity |].
    rewrite IH. reflexivity. }
  rewrite Hlen, length_map. unfold backspaces. cbn [filter].
  destruct (is_backspace first), (is_correct first);
    cbn [negb andb app List.length]; repeat split; lia.
Qed.

(** X6. [calculate_keystroke_speed] divides the number of intervals, not of
    keystrokes, by the elapsed time: the first keystroke of a session is
    not counted, and a session of one keystroke has speed 0. *)
Theorem keystroke_speed_counts_intervals (first : Keystroke)
        (rest : list Keystroke) (t : Tracker) (elapsed : float) :
  (0 <? elapsed)%float = true ->
  calculate_keystroke_speed elapsed
                            (record_all (first :: rest) (reset_session t))
  = match rest with
    | [] => 0%float
    | _ :: _ =>
        py_round (float_of_int (Z.of_nat (List.length rest)) / elapsed)%float 2
    end.
Proof.
  intro Hpos. unfold calculate_keystroke_speed.
  rewrite (PerformanceCalculatorFacts.positive_not_leb_zero elapsed Hpos).
  cbn [orb record_all fold_left].
  change (fold_left record rest (record (reset_session t) first))
    with (record_all rest (record (reset_session t) first)).
  destruct (record_all_from rest (record (reset_session t) first)
                            (pressed_at first) eq_refl) as [Htimes _].
  rewrite Htimes. cbn [record record_keystroke reset_session
    last_keystroke_time keystroke_times app].
  destruct rest as [| second rest]; [reflexivity |].
  cbn [map intervals List.length]. repeat f_equal.
  clear. generalize (pressed_at second). 
  induction rest as [| k rest IH]; intro last; cbn; [reflexivity |].
  rewrite IH. reflexivity.
Qed.

Lemma keystroke_speed_counts_intervals_witness :
  calculate_keystroke_speed
    2 (record_all [{| is_correct := true; is_backspace := false;
                      pressed_at := 10 |};
                   {| is_correct := false; is_backspace := false;
                      pressed_at := 10.5 |};
                   {| is_correct := true; is_backspace := true;
                      pressed_at := 11 |}] new_tracker)
  = 1%float.
Proof.
  exact (keystroke_speed_counts_intervals
           {| is_correct := true; is_backspace := false; pressed_at := 10 |}
           [{| is_correct := false; is_backspace := false;
               pressed_at := 10.5 |};
            {| is_correct := true; is_backspace := true; pressed_at := 11 |}]
           new_tracker 2 eq_refl).
Defined.

End KeystrokeFacts.


(* ================================================================== *)
(** * Further properties of the word source loader *)
(* ================================================================== *)

Module LoaderCacheFacts.
Import WordSourceLoader WordSourceLoaderFacts.

(** ** What stays in the cache *)

Lemma loaded_words_cached fs cache d words cache' :
  get_words_for_difficulty fs cache d = (Ok words, cache') ->
  cache' d = Some words.
Proof.
  unfold get_words_for_difficulty.
  destruct (cache d) as [cached |] eqn:Hcached.
  - intro H. injection H as <- <-. exact Hcached.
  - destruct (try_paths fs (possible_paths (_file_mappings d)))
      as [[loaded | e] |]; intro H; try discriminate;
      injection H as <- <-; apply cache_set_same.
Qed.

Lemma cached_words_returned fs cache d words :
  cache d = Some words ->
  get_words_for_difficulty fs cache d = (Ok words, cache).
Proof.
  intro H. unfold get_words_for_difficulty. rewrite H. reflexivity.
Qed.

Lemma cached_entry_stays fs cache d d' words :
  cache d = Some words ->
  snd (get_words_for_difficulty fs cache d') d = Some words.
Proof.
  intro H. unfold get_words_for_difficulty.
  destruct (cache d') as [cached |] eqn:Hcached; [exact H |].
  assert (Hneq : d <> d') by (intros ->; congruence).
  destruct (try_paths fs (possible_paths (_file_mappings d')))
    as [[loaded | e] |]; cbn [snd];
    rewrite ?cache_set_other by exact Hneq; exact H.
Qed.

(** Calls of [get_words_for_difficulty] made one after the other, each
    with the files as they are at that time. *)
Definition later_calls (calls : list (FileSystem * Difficulty))
           (cache : Cache) : Cache :=
  fold_left (fun cache call =>
               snd (get_words_for_difficulty (fst call) cache (snd call)))
            calls cache.

Lemma later_calls_keep_entry calls :
  forall cache d words,
    cache d = Some words -> later_calls calls cache d = Some words.
Proof.
  induction calls as [| [fs' d'] calls IH]; intros cache d words H;
    [exact H |].
  cbn [later_calls fold_left fst snd]. apply IH.
  apply cached_entry_stays. exact H.
Qed.

(** X7. Once [get_words_for_difficulty] has returned the words of a
    difficulty, it returns the same words on every later call, whatever
    has been loaded in between and whatever has become of the files; such
    a call leaves the cache as it is. *)
Theorem loaded_words_are_kept fs cache d words cache' :
  get_words_for_difficulty fs cache d = (Ok words, cache') ->
  forall calls fs',
    get_words_for_difficulty fs' (later_calls calls cache') d
    = (Ok words, later_calls calls cache').
Proof.
  intros Hget calls fs'. apply cached_words_returned.
  apply later_calls_keep_entry.
  exact (loaded_words_cached fs cache d words cache' Hget).
Qed.

(** ** Errors *)

Lemma try_encodings_raises view allow_phrases encodings :
  forall words e,
    try_encodings view allow_phrases encodings words = Raise e ->
    e = PermissionError \/ e = ValueError.
Proof.
  induction encodings as [| encoding rest IH]; intros words e H;
    cbn [try_encodings] in H.
  - injection H as <-. right. reflexivity.
  - destruct (read_end (view encoding)).
    + discriminate.
    + exact (IH _ _ H).
    + injection H as <-. left. reflexivity.
    + exact (IH _ _ H).
Qed.

Lemma try_paths_raises fs paths e :
  try_paths fs paths = Some (Raise e) ->
  e = PermissionError \/ e = ValueError.
Proof.
  induction paths as [| filepath rest IH]; cbn [try_paths]; [discriminate |].
  unfold load_file.
  destruct (fs filepath) as [view |]; [| exact IH].
  destruct (try_encodings view true encodings_to_try []) as [words | e']
    eqn:Hrun; [discriminate |].
  destruct (try_encodings_raises _ _ _ _ _ Hrun) as [-> | ->];
    intro H; injection H as <-; [left | right]; reflexivity.
Qed.

(** X8. [get_words_for_difficulty] raises [PermissionError] or [ValueError]
    and nothing else (a missing file is never an error: the next path, or
    the built-in list, is used instead); and a call that raises caches
    nothing, so that the next call reads the files again. *)
Theorem loader_errors fs cache d e cache' :
  get_words_for_difficulty fs cache d = (Raise e, cache') ->
  (e = PermissionError \/ e = ValueError)
  /\ cache' = cache
  /\ cache d = None.
Proof.
  unfold get_words_for_difficulty.
  destruct (cache d) as [cached |]; [discriminate |].
  destruct (try_paths fs (possible_paths (_file_mappings d)))
    as [[loaded | e'] |] eqn:Hpaths; try discriminate.
  intro H. injection H as <- <-.
  split; [exact (try_paths_raises _ _ _ Hpaths) | split; reflexivity].
Qed.

(** ** The search path *)

Lemma try_paths_first_existing fs before :
  forall filepath after view,
    (forall p, In p before -> fs p = None) ->
    fs filepath = Some view ->
    try_paths fs (before ++ filepath :: after)
    = Some (try_encodings view true encodings_to_try []).
Proof.
  induction before as [| p before IH]; intros filepath after view Hnone Hview.
  - cbn [app try_paths]. unfold load_file. rewrite Hview.
    destruct (try_encodings view true encodings_to_try []) as [words | e]
      eqn:Hrun; [reflexivity |].
    destruct (try_encodings_raises _ _ _ _ _ Hrun) as [-> | ->]; reflexivity.
  - cbn [app try_paths]. unfold load_file at 1.
    rewrite (Hnone p (or_introl eq_refl)).
    apply IH; [| exact Hview]. intros q Hq. apply Hnone. right. exact Hq.
Qed.

(** X9. The words of a difficulty that is not cached are those of the first
    of its three paths at which a file exists: the paths after it are not
    looked at, nor is the built-in list, even when that file cannot be
    read. *)
Theorem first_existing_file_decides fs cache d before filepath after view :
  cache d = None ->
  possible_paths (_file_mappings d) = before ++ filepath :: after ->
  (forall p, In p before -> fs p = None) ->
  fs filepath = Some view ->
  fst (get_words_for_difficulty fs cache d)
  = try_encodings view true encodings_to_try [].
Proof.
  intros Hcache Hpaths Hnone Hview. unfold get_words_for_difficulty.
  rewrite Hcache, Hpaths.
  rewrite (try_paths_first_existing fs before filepath after view Hnone Hview).
  destruct (try_encodings view true encodings_to_try []); reflexivity.
Qed.

(** ** The difficulties that are available *)

Definition has_entries (fs : FileSystem) (cache : Cache) (d : Difficulty)
  : bool :=
  match pool fs cache d with
  | Ok (_ :: _) => true
  | _ => false
  end.

Lemma available_loop_spec fs cache difficulties :
  forall available cache',
    (forall d, pool fs cache' d = pool fs cache d) ->
    fst (available_loop fs difficulties available cache')
    = available ++ filter (has_entries fs cache) difficulties.
Proof.
  induction difficulties as [| d rest IH]; intros available cache' Hsame;
    cbn [available_loop filter].
  - rewrite app_nil_r. reflexivity.
  - pose proof (Hsame d) as Hd. unfold pool at 1 in Hd.
    assert (Hnext : forall d',
               pool fs (snd (get_words_for_difficulty fs cache' d)) d'
               = pool fs cache d').
    { intro d'. rewrite get_words_keeps_pools. apply Hsame. }
    unfold has_entries at 1. rewrite <- Hd.
    destruct (get_words_for_difficulty fs cache' d) as [[[| w ws] | e] c];
      cbn [fst snd] in *.
    + apply IH. exact Hnext.
    + rewrite (IH _ _ Hnext), <- app_assoc. reflexivity.
    + apply IH. exact Hnext.
Qed.

(** X10. [get_available_difficulties] lists, in the order of their definition,
    the difficulties for which [get_word_count_for_difficulty] counts at
    least one word. *)
Theorem available_difficulties_have_words fs cache :
  fst (get_available_difficulties fs cache)
  = filter (fun d => 0 <? fst (get_word_count_for_difficulty fs cache d))
           all_difficulties.
Proof.
  unfold get_available_difficulties.
  rewrite (available_loop_spec fs cache all_difficulties [] cache)
    by reflexivity.
  cbn [app]. apply filter_ext. intro d.
  unfold has_entries, pool, get_word_count_for_difficulty.
  destruct (get_words_for_difficulty fs cache d) as [[[| w ws] | e] c];
    reflexivity.
Qed.

(** ** Examples *)

(** A directory whose only word file lies under [SPEED]. *)
Definition speed_directory : FileSystem :=
  single_file "SPEED/simple_words_large.txt"
              (WordGeneratorExamples.text_file ["cat"; "dog"]%string).

(** A directory whose word file for [SIMPLE] may not be read. *)
Definition locked_file : FileSystem :=
  single_file "simple_words_large.txt"
              (fun _ => {| lines_read := []; read_end := Denied |}).

Lemma loaded_words_are_kept_witness :
  get_words_for_difficulty
    locked_file
    (later_calls [(WordGeneratorExamples.no_files, MEDIUM)]
                 (cache_set empty_cache SIMPLE ["cat"; "dog"]%string))
    SIMPLE
  = (Ok ["cat"; "dog"]%string,
     later_calls [(WordGeneratorExamples.no_files, MEDIUM)]
                 (cache_set empty_cache SIMPLE ["cat"; "dog"]%string)).
Proof.
  apply (loaded_words_are_kept speed_directory empty_cache SIMPLE
           ["cat"; "dog"]%string
           (cache_set empty_cache SIMPLE ["cat"; "dog"]%string)).
  reflexivity.
Defined.

Lemma loader_errors_witness :
  get_words_for_difficulty locked_file empty_cache SIMPLE
  = (Raise PermissionError, empty_cache)
  /\ (PermissionError = PermissionError \/ PermissionError = ValueError).
Proof.
  split; [reflexivity |].
  apply (loader_errors locked_file empty_cache SIMPLE PermissionError
           empty_cache).
  reflexivity.
Defined.

Lemma first_existing_file_decides_witness :
  fst (get_words_for_difficulty speed_directory empty_cache SIMPLE)
  = Ok ["cat"; "dog"]%string.
Proof.
  apply (first_existing_file_decides
           speed_directory empty_cache SIMPLE
           ["simple_words_large.txt"%string]
           "SPEED/simple_words_large.txt"%string
           ["../simple_words_large.txt"%string]
           (WordGeneratorExamples.text_file ["cat"; "dog"]%string)).
  - reflexivity.
  - reflexivity.
  - intros p [<- | []]. reflexivity.
  - reflexivity.
Defined.

End LoaderCacheFacts.

Module LoadFileFacts.
Import WordSourceLoader WordSourceLoaderFacts.

(** ** The entries of a decoded file *)

(** A stripped line that is kept: not empty, and not a comment. *)
Definition is_entry (line : string) : bool :=
  truthy line && negb (startswith line "#").

(** The entries a kept line gives. *)
Definition entries_of_line (allow_phrases : bool) (line : string)
  : list string :=
  if allow_phrases then [line]
  else if contains " " line then filter truthy (map strip (split line))
       else [line].

(** The entries of a file, from its lines: the lines are stripped, the
    empty ones and the comments are dropped, and the others give their
    entries, in the order of the file. *)
Definition entries (allow_phrases : bool) (lines : list string)
  : list string :=
  flat_map (entries_of_line allow_phrases) (filter is_entry (map strip lines)).

Lemma process_line_entries allow_phrases words line :
  process_line allow_phrases words line
  = words ++ entries allow_phrases [line].
Proof.
  unfold process_line, entries, entries_of_line, is_entry.
  cbn [map filter].
  destruct (truthy (strip line)); cbn [negb orb andb flat_map];
    [| rewrite app_nil_r; reflexivity].
  destruct (startswith (strip line) "#"); cbn [negb flat_map];
    [rewrite app_nil_r; reflexivity |].
  rewrite app_nil_r. destruct allow_phrases; [reflexivity |].
  destruct (contains " " (strip line)); reflexivity.
Qed.

Lemma entries_cons allow_phrases line lines :
  entries allow_phrases (line :: lines)
  = entries allow_phrases [line] ++ entries allow_phrases lines.
Proof.
  unfold entries. cbn [map filter].
  destruct (is_entry (strip line)); cbn [flat_map app];
    [rewrite app_nil_r |]; reflexivity.
Qed.

Lemma process_lines_entries allow_phrases lines :
  forall words,
    fold_left (process_line allow_phrases) lines words
    = words ++ entries allow_phrases lines.
Proof.
  induction lines as [| line lines IH]; intro words; cbn [fold_left].
  - unfold entries. cbn. rewrite app_nil_r. reflexivity.
  - rewrite IH, process_line_entries, (entries_cons allow_phrases line lines),
      app_assoc. reflexivity.
Qed.

(** X11. When every attempt that fails has delivered no line before it
    fails, and none is denied, [load_file] returns the entries of the first
    encoding that decodes the file. *)
Theorem load_file_entries fs filepath allow_phrases view lines :
  fs filepath = Some view ->
  first_decoding view encodings_to_try = Some lines ->
  (forall encoding, read_end (view encoding) <> Denied) ->
  (forall encoding, read_end (view encoding) = EndOfFile
                    \/ lines_read (view encoding) = []) ->
  load_file fs filepath allow_phrases = Ok (entries allow_phrases lines).
Proof.
  intros Hview Hfirst Hperm Hclean. unfold load_file. rewrite Hview.
  rewrite (try_encodings_result view allow_phrases encodings_to_try
             [] lines Hfirst Hperm).
  rewrite (carried_over_clean view allow_phrases encodings_to_try [] Hclean).
  rewrite process_lines_entries. reflexivity.
Qed.

(** ** Entries without spaces *)

Definition spaceless (s : string) : Prop :=
  Forall (fun c => isspace c = false) (list_ascii_of_string s).

Lemma spaceless_no_space s : spaceless s -> contains " " s = false.
Proof.
  unfold spaceless. induction s as [| c s IH]; cbn; intro H; [reflexivity |].
  inversion H as [| ? ? Hc Hs]. subst.
  rewrite (IH Hs), orb_false_r.
  destruct (Ascii.eqb_spec c " ") as [-> | _]; [discriminate | reflexivity].
Qed.

Lemma rstrip_spaceless s : spaceless s -> rstrip s = s.
Proof.
  unfold spaceless. induction s as [| c s IH]; cbn; intro H; [reflexivity |].
  inversion H as [| ? ? Hc Hs]. subst.
  rewrite (IH Hs), Hc. destruct s; reflexivity.
Qed.

Lemma strip_spaceless s : spaceless s -> strip s = s.
Proof.
  intro H. unfold strip.
  assert (Hl : lstrip s = s).
  { destruct s as [| c s]; [reflexivity |]. cbn.
    inversion H as [| ? ? Hc _]. rewrite Hc. reflexivity. }
  rewrite Hl. apply rstrip_spaceless. exact H.
Qed.

Lemma split_aux_spaceless s :
  forall cur,
    Forall (fun c => isspace c = false) cur ->
    Forall spaceless (split_aux s cur).
Proof.
  assert (Hflush : forall cur rest,
             Forall (fun c => isspace c = false) cur ->
             Forall spaceless rest ->
             Forall spaceless
                    match cur with
                    | [] => rest
                    | _ :: _ => string_of_list_ascii (rev cur) :: rest
                    end).
  { intros cur rest Hcur Hrest. destruct cur as [| c cur]; [exact Hrest |].
    constructor; [| exact Hrest]. unfold spaceless.
    rewrite list_ascii_of_string_of_list_ascii. apply Forall_rev. exact Hcur. }
  induction s as [| c s IH]; intros cur Hcur; cbn [split_aux].
  - apply Hflush; [exact Hcur | constructor].
  - destruct (isspace c) eqn:Hc.
    + apply Hflush; [exact Hcur | apply IH; constructor].
    + apply IH. constructor; assumption.
Qed.

Lemma process_line_no_space words line :
  Forall (fun w => contains " " w = false) words ->
  Forall (fun w => contains " " w = false) (process_line false words line).
Proof.
  intro Hwords. unfold process_line.
  destruct (negb (truthy (strip line)) || startswith (strip line) "#");
    [exact Hwords |].
  destruct (contains " " (strip line)) eqn:Hspace.
  - apply Forall_app. split; [exact Hwords |].
    apply Forall_forall. intros w Hw. apply filter_In in Hw.
    destruct Hw as [Hw _]. apply in_map_iff in Hw.
    destruct Hw as [token [<- Htoken]].
    assert (Hs : spaceless token).
    { exact (proj1 (Forall_forall _ _)
                   (split_aux_spaceless (strip line) [] (Forall_nil _))
                   token Htoken). }
    rewrite (strip_spaceless token Hs). apply spaceless_no_space. exact Hs.
  - apply Forall_app. split; [exact Hwords |]. repeat constructor.
    exact Hspace.
Qed.

Lemma try_encodings_no_space view encodings :
  forall words result,
    Forall (fun w => contains " " w = false) words ->
    try_encodings view false encodings words = Ok result ->
    Forall (fun w => contains " " w = false) result.
Proof.
  induction encodings as [| encoding rest IH]; intros words result Hwords Hrun;
    cbn [try_encodings] in Hrun; [discriminate |].
  assert (Hnext : Forall (fun w => contains " " w = false)
                         (fold_left (process_line false)
                                    (lines_read (view encoding)) words)).
  { clear Hrun. revert words Hwords.
    induction (lines_read (view encoding)) as [| line lines IHl];
      intros words Hwords; cbn [fold_left]; [exact Hwords |].
    apply IHl. apply process_line_no_space. exact Hwords. }
  destruct (read_end (view encoding)).
  - injection Hrun as <-. exact Hnext.
  - exact (IH _ _ Hnext Hrun).
  - discriminate.
  - exact (IH _ _ Hnext Hrun).
Qed.

(** X12. With [allow_phrases=False], no entry that [load_file] returns contains
    a space: every phrase has been split into its words. *)
Theorem load_file_splits_phrases fs filepath words :
  load_file fs filepath false = Ok words ->
  Forall (fun w => contains " " w = false) words.
Proof.
  unfold load_file. destruct (fs filepath) as [view |]; [| discriminate].
  apply try_encodings_no_space. constructor.
Qed.

(** ** Examples *)

(** A small word list with a comment, a blank line, a phrase and a word
    with spaces around it. *)
Definition phrase_file : FileSystem :=
  single_file "words.txt"
              (WordGeneratorExamples.text_file
                 ["# greetings"; ""; "good morning"; "  hello "]%string).

(** A word list whose first line ends in the byte 233, the Latin-1 code of
    an accented letter, followed by the line [good morning]: read as UTF-8,
    the byte 233 before the end of the line makes the decoding of the first
    chunk fail, before any line is handed out; read as Latin-1, every byte
    decodes. *)
Definition accented_first_line : FileView :=
  fun encoding =>
    match encoding with
    | utf_8 | utf_8_sig => {| lines_read := []; read_end := DecodeError |}
    | latin_1 | cp1252 =>
        {| lines_read := [WordSourceLoaderFacts.accented_word;
                          "good morning"%string];
           read_end := EndOfFile |}
    end.

Lemma load_file_entries_witness :
  load_file (WordSourceLoaderFacts.single_file "words.txt" accented_first_line)
            "words.txt" false
  = Ok [WordSourceLoaderFacts.accented_word; "good"; "morning"]%string
  /\ load_file phrase_file "words.txt" true
     = Ok ["good morning"; "hello"]%string.
Proof.
  split.
  - apply (load_file_entries
             (WordSourceLoaderFacts.single_file "words.txt"
                                                accented_first_line)
             "words.txt" false accented_first_line
             [WordSourceLoaderFacts.accented_word; "good morning"%string]).
    + reflexivity.
    + reflexivity.
    + intros encoding. destruct encoding; discriminate.
    + intros encoding. destruct encoding;
        [right | right | left | left]; reflexivity.
  - apply (load_file_entries
             phrase_file "words.txt" true
             (WordGeneratorExamples.text_file
                ["# greetings"; ""; "good morning"; "  hello "]%string)
             ["# greetings"; ""; "good morning"; "  hello "]%string).
    + reflexivity.
    + reflexivity.
    + intros encoding. discriminate.
    + intros encoding. left. reflexivity.
Defined.

Lemma load_file_splits_phrases_witness :
  Forall (fun w => contains " " w = false) ["good"; "morning"; "hello"]%string.
Proof.
  apply (load_file_splits_phrases phrase_file "words.txt").
  reflexivity.
Defined.

End LoadFileFacts.

(* ================================================================== *)
(** * Further properties of the word generator *)
(* ================================================================== *)

Module TimeSelectionFacts.
Import WordSourceLoader WordSourceLoaderFacts WordGenerator WordGeneratorFacts.

Section Generator.

Context {R : PyRandom}.
Variable fs : FileSystem.

Lemma time_option_cases minutes :
  In minutes time_options ->
  is_time_option minutes = true
  /\ calculate_word_count_for_time minutes = Ok (70 * minutes).
Proof.
  intro H. cbn in H.
  destruct H as [<- | [<- | [<- | [<- | [<- | [<- | []]]]]]];
    split; reflexivity.
Qed.

Lemma not_time_option minutes :
  ~ In minutes time_options -> is_time_option minutes = false.
Proof.
  intro H. unfold is_time_option.
  destruct (existsb (Z.eqb minutes) time_options) eqn:E; [| reflexivity].
  apply existsb_exists in E. destruct E as [m [Hin Heq]].
  apply Z.eqb_eq in Heq. subst m. contradiction.
Qed.

Lemma time_selection_runs d minutes (st : @Gen R) ws :
  In minutes time_options ->
  has_words fs st d ws ->
  exists words st',
    generate_for_time_selection fs d minutes st = (Ok words, st')
    /\ Z.of_nat (List.length words) = 70 * minutes
    /\ (forall w, In w words -> In w ws).
Proof.
  intros Hopt Hws.
  destruct (time_option_cases minutes Hopt) as [His Hcount].
  assert (Hpos : 0 < 70 * minutes).
  { cbn in Hopt. lia. }
  unfold generate_for_time_selection. rewrite His, Hcount.
  cbn [negb]. unfold bind at 1. cbn [time_time].
  unfold bind at 1. cbn [lift]. unfold bind at 1. cbn [logger].
  match goal with
  | |- context [bind _ _ ?s] => set (st0 := s)
  end.
  assert (Hws0 : has_words fs st0 d ws) by exact Hws.
  destruct (generate_words_runs fs d (70 * minutes) st0 ws Hpos Hws0)
    as [words [st1 [Hrun [_ [Hlen [Hin _]]]]]].
  rewrite (bind_ok _ _ _ _ _ Hrun).
  exists words. eexists. split; [reflexivity | split; assumption].
Qed.

Lemma time_selection_refused d minutes (st : @Gen R) :
  ~ In minutes time_options ->
  generate_for_time_selection fs d minutes st = (Raise ValueError, st).
Proof.
  intro Hnot. unfold generate_for_time_selection.
  rewrite (not_time_option minutes Hnot). reflexivity.
Qed.

(** X13. For each of the six time options, [generate_for_time_selection]
    returns 70 words per minute, all from the words of the difficulty;
    for any other number of minutes it raises [ValueError] at once (and so
    does [calculate_word_count_for_time]), leaving the generator as it
    was. *)
Theorem time_selection_gives_seventy_words_a_minute
        d minutes (st : @Gen R) ws :
  (In minutes time_options ->
   has_words fs st d ws ->
   calculate_word_count_for_time minutes = Ok (70 * minutes)
   /\ exists words,
        fst (generate_for_time_selection fs d minutes st) = Ok words
        /\ Z.of_nat (List.length words) = 70 * minutes
        /\ (forall w, In w words -> In w ws))
  /\ (~ In minutes time_options ->
      calculate_word_count_for_time minutes = Raise ValueError
      /\ generate_for_time_selection fs d minutes st = (Raise ValueError, st)).
Proof.
  split.
  - intros Hopt Hws.
    split; [exact (proj2 (time_option_cases minutes Hopt)) |].
    destruct (time_selection_runs d minutes st ws Hopt Hws)
      as [words [st' [Hrun Hrest]]].
    exists words. rewrite Hrun. split; [reflexivity | exact Hrest].
  - intro Hnot. split; [| exact (time_selection_refused d minutes st Hnot)].
    unfold calculate_word_count_for_time.
    rewrite (not_time_option minutes Hnot). reflexivity.
Qed.

End Generator.

Lemma time_selection_gives_seventy_words_a_minute_witness :
  exists words,
    fst (generate_for_time_selection
           WordGeneratorExamples.no_files MEDIUM 2
           (init (R := Lcg.random) 5 WordGeneratorExamples.still_clock))
    = Ok words
    /\ Z.of_nat (List.length words) = 140.
Proof.
  destruct (proj1 (time_selection_gives_seventy_words_a_minute
                     (R := Lcg.random) WordGeneratorExamples.no_files MEDIUM 2
                     (init (R := Lcg.random) 5
                           WordGeneratorExamples.still_clock)
                     (_get_fallback_words MEDIUM)))
    as [_ [words [Hrun [Hlen _]]]].
  - cbn. tauto.
  - split; [reflexivity | discriminate].
  - exists words. split; [exact Hrun | exact Hlen].
Defined.

End TimeSelectionFacts.

Module MixedInputFacts.
Import WordSourceLoader WordSourceLoaderFacts WordGenerator WordGeneratorFacts.

Section Generator.

Context {R : PyRandom}.
Variable fs : FileSystem.

(** An item of [weights] that the validation refuses. *)
Definition invalid_item (item : WeightKey * float) : Prop :=
  fst item = NotADifficulty \/ (snd item <? 0)%float = true.

Lemma validate_weights_invalid weights :
  Exists invalid_item weights ->
  validate_weights weights = Raise ValueError.
Proof.
  induction weights as [| [key weight] rest IH]; intro H.
  - inversion H.
  - cbn [validate_weights]. destruct key as [d |]; [| reflexivity].
    destruct (weight <? 0)%float eqn:Hneg; [reflexivity |].
    inversion H as [? ? [Hkey | Hw] | ? ? Hrest]; subst; cbn in *.
    + discriminate.
    + congruence.
    + rewrite (IH Hrest). reflexivity.
Qed.

(** What the generator draws from: its pseudo-random source and its word
    cache. *)
Definition untouched (st st' : @Gen R) : Prop :=
  _random st' = _random st /\ word_loader st' = word_loader st.

(** X14. [generate_mixed] raises [ValueError] for a total that is not positive,
    for an empty dictionary, for a key that is no [Difficulty], for a
    negative weight and for weights that add up to zero; in each case no
    word has been drawn and no file read. *)
Theorem generate_mixed_rejects weights total_count (st : @Gen R) :
  let outcome := generate_mixed fs weights total_count st in
  (total_count <= 0 \/ weights = [] \/ Exists invalid_item weights
   \/ (exists checked,
          validate_weights weights = Ok checked
          /\ (sum_weights checked =? 0)%float = true)) ->
  fst outcome = Raise ValueError /\ untouched st (snd outcome).
Proof.
  cbv zeta. intro Hbad.
  assert (Hrun : exists st',
             generate_mixed fs weights total_count st = (Raise ValueError, st')
             /\ untouched st st').
  { unfold generate_mixed, untouched.
    destruct (total_count <=? 0) eqn:Htotal.
    { exists st. repeat split. }
    apply Z.leb_gt in Htotal.
    destruct weights as [| item weights].
    { exists st. repeat split. }
    destruct Hbad as [Hle | [Hnil | [Hinv | [checked [Hval Hsum]]]]].
    - lia.
    - discriminate.
    - rewrite (validate_weights_invalid _ Hinv). exists st. repeat split.
    - rewrite Hval. unfold bind at 1. cbn [lift].
      unfold bind at 1. cbn [time_time]. rewrite Hsum.
      eexists. split; [reflexivity | split; reflexivity]. }
  destruct Hrun as [st' [Hrun Hsame]]. rewrite Hrun. split; [reflexivity |].
  exact Hsame.
Qed.

End Generator.

Lemma generate_mixed_rejects_witness :
  fst (generate_mixed WordGeneratorExamples.no_files
                      [(Key SIMPLE, 0.5%float); (Key HARD, (-0.5)%float)] 10
                      (init (R := Lcg.random) 1
                            WordGeneratorExamples.still_clock))
  = Raise ValueError.
Proof.
  apply (generate_mixed_rejects (R := Lcg.random)
           WordGeneratorExamples.no_files
           [(Key SIMPLE, 0.5%float); (Key HARD, (-0.5)%float)] 10
           (init (R := Lcg.random) 1 WordGeneratorExamples.still_clock)).
  right. right. left. apply Exists_cons_tl. apply Exists_cons_hd.
  right. reflexivity.
Defined.

End MixedInputFacts.


Module MixedShareFacts.
Import WordSourceLoader WordSourceLoaderFacts WordGenerator WordGeneratorFacts.

Section Generator.

Context {R : PyRandom}.
Variable fs : FileSystem.

(** What the loop over [difficulty_counts] appends for one item: as many
    words as the item counts, all of them words of its difficulty. *)
Definition share_of (st : @Gen R) (item : Difficulty * Z)
           (words : list string) : Prop :=
  Z.of_nat (List.length words) = Z.max 0 (snd item)
  /\ forall w, In w words ->
               exists ws, words_of fs st (fst item) = Ok ws /\ In w ws.

(** When every difficulty that is to give words has some, the loop appends
    the share of each item, in the order of the items. *)
Lemma mixed_loop_runs first_available items :
  forall all_words (st : @Gen R),
    (forall d c, In (d, c) items -> 0 < c -> exists ws, has_words fs st d ws) ->
    exists shares st',
      mixed_loop fs first_available items all_words st
      = (Ok (all_words ++ List.concat shares), st')
      /\ sources_kept fs st st'
      /\ Forall2 (share_of st) items shares.
Proof.
  induction items as [| [d c] rest IH]; intros all_words st Hhave.
  - exists [], st. cbn. rewrite app_nil_r.
    split; [reflexivity | split; [apply sources_kept_refl | constructor]].
  - cbn [mixed_loop]. destruct (0 <? c) eqn:Hc.
    + apply Z.ltb_lt in Hc.
      destruct (Hhave d c (or_introl eq_refl) Hc) as [ws Hws].
      destruct (generate_words_runs fs d c st ws Hc Hws)
        as [words [st1 [Hrun [Hkept [Hlen [Hin _]]]]]].
      unfold bind at 1, try_except. rewrite (bind_ok _ _ _ _ _ Hrun).
      cbn [logger bind ret].
      match goal with
      | |- context [mixed_loop fs first_available rest _ ?s] =>
          set (st2 := s)
      end.
      assert (Hkept2 : sources_kept fs st st2).
      { eapply sources_kept_trans; [exact Hkept |].
        apply same_loader_kept. reflexivity. }
      destruct (IH (all_words ++ words) st2) as [shares [st' [Hloop [Hk Hall]]]].
      { intros d' c' Hin' Hc'.
        destruct (Hhave d' c' (or_intror Hin') Hc') as [ws' Hws'].
        exists ws'. exact (has_words_kept fs _ _ _ _ Hkept2 Hws'). }
      exists (words :: shares), st'. split; [| split].
      * rewrite Hloop. cbn [List.concat]. rewrite <- app_assoc. reflexivity.
      * eapply sources_kept_trans; eassumption.
      * constructor.
        -- split; [cbn [snd]; lia |]. intros w Hw. exists ws.
           split; [exact (proj1 Hws) | exact (Hin w Hw)].
        -- eapply Forall2_impl; [| exact Hall].
           intros item share [Hshare Hfrom]. split; [exact Hshare |].
           intros w Hw. destruct (Hfrom w Hw) as [ws' [Hpool Hw']].
           exists ws'. split; [| exact Hw'].
           rewrite <- (proj1 Hkept2 (fst item)). exact Hpool.
    + apply Z.ltb_ge in Hc. unfold bind at 1. cbn [ret].
      destruct (IH all_words st) as [shares [st' [Hloop [Hk Hall]]]].
      { intros d' c' Hin'. apply Hhave. right. exact Hin'. }
      exists ([] :: shares), st'. split; [| split].
      * rewrite Hloop. reflexivity.
      * exact Hk.
      * constructor; [| exact Hall].
        split; [cbn [snd List.length]; lia | intros w []].
Qed.

Lemma seventy_thirty_counts (d1 d2 : Difficulty) :
  validate_weights [(Key d1, 0.7%float); (Key d2, 0.3%float)]
  = Ok [(d1, 0.7%float); (d2, 0.3%float)]
  /\ sum_weights [(d1, 0.7%float); (d2, 0.3%float)] = 1%float
  /\ allocate 100 [(d1, (0.7 / 1)%float); (d2, (0.3 / 1)%float)]
     = Ok [(d1, 70); (d2, 30)].
Proof.
  split; [reflexivity | split; [reflexivity |]].
  vm_compute. reflexivity.
Qed.

(** With the weights 0.7 and 0.3 and a total of 100, the shares are 70 and
    30 and nothing is left over: the fractional parts are not sorted. *)
Lemma seventy_thirty (d1 d2 : Difficulty) (st : @Gen R) ws1 ws2 :
  has_words fs st d1 ws1 ->
  has_words fs st d2 ws2 ->
  exists words1 words2 words st',
    generate_mixed fs [(Key d1, 0.7%float); (Key d2, 0.3%float)] 100 st
    = (Ok words, st')
    /\ Permutation (words1 ++ words2) words
    /\ List.length words1 = 70%nat
    /\ List.length words2 = 30%nat
    /\ (forall w, In w words1 -> In w ws1)
    /\ (forall w, In w words2 -> In w ws2).
Proof.
  intros Hws1 Hws2.
  destruct (seventy_thirty_counts d1 d2) as [Hval [Hsum Halloc]].
  unfold generate_mixed. change (100 <=? 0) with false. cbv iota.
  rewrite Hval. unfold bind at 1. cbn [lift].
  unfold bind at 1. cbn [time_time]. cbv zeta.
  rewrite Hsum. change (1 =? 0)%float with false. cbv iota.
  cbn [map fst snd]. rewrite Halloc.
  unfold bind at 1. cbn [lift].
  change (0 <? 100 - fold_left Z.add (map snd [(d1, 70); (d2, 30)]) 0)
    with false.
  cbv iota. unfold bind at 1. cbn [ret].
  match goal with
  | |- context [bind _ _ ?s] => set (st0 := s)
  end.
  destruct (mixed_loop_runs d1 [(d1, 70); (d2, 30)] [] st0)
    as [shares [st1 [Hloop [_ Hshares]]]].
  { intros d c [Heq | [Heq | []]] _; injection Heq as <- <-;
      [exists ws1; exact Hws1 | exists ws2; exact Hws2]. }
  inversion Hshares as [| ? words1 ? rest [Hlen1 Hin1] Hrest]. subst.
  inversion Hrest as [| ? words2 ? rest' [Hlen2 Hin2] Hnil]. subst.
  inversion Hnil. subst. clear Hshares Hrest Hnil.
  cbn [app List.concat fst snd] in *. rewrite app_nil_r in Hloop.
  unfold bind at 1. rewrite Hloop.
  unfold bind at 1, with_random.
  pose proof (shuffle_spec (_random st1) (words1 ++ words2)) as Hperm.
  destruct (shuffle (_random st1) (words1 ++ words2)) as [words g].
  cbn [fst] in Hperm.
  exists words1, words2, words. eexists.
  split; [reflexivity |]. split; [exact Hperm |].
  split; [lia |]. split; [lia |]. split.
  - intros w Hw. destruct (Hin1 w Hw) as [ws [Hpool Hin]].
    assert (ws = ws1) by (destruct Hws1 as [H1 _];
                          change (words_of fs st0 d1) with (words_of fs st d1)
                            in Hpool; congruence).
    subst ws. exact Hin.
  - intros w Hw. destruct (Hin2 w Hw) as [ws [Hpool Hin]].
    assert (ws = ws2) by (destruct Hws2 as [H2 _];
                          change (words_of fs st0 d2) with (words_of fs st d2)
                            in Hpool; congruence).
    subst ws. exact Hin.
Qed.

(** ** Where the words of [generate_mixed] come from *)

(** A call of [generate_words] that returns has found words for the
    difficulty, and returns some of them. *)
Lemma generate_words_origin d count (st st' : @Gen R) words :
  generate_words fs d count st = (Ok words, st') ->
  sources_kept fs st st'
  /\ exists ws, words_of fs st d = Ok ws /\ forall w, In w words -> In w ws.
Proof.
  intro Hrun.
  split; [pose proof (keeps_generate_words fs d count st) as Hkept;
          rewrite Hrun in Hkept; exact Hkept |].
  assert (Hinv : 0 < count /\ exists ws, has_words fs st d ws).
  { unfold generate_words in Hrun.
    destruct (count <=? 0) eqn:Hle; [discriminate |].
    apply Z.leb_gt in Hle. split; [exact Hle |].
    unfold bind at 1 in Hrun. cbn [time_time] in Hrun.
    match type of Hrun with
    | context [bind _ _ ?s] => set (st0 := s) in Hrun
    end.
    unfold bind at 1, _get_words_for_difficulty, bind at 1 in Hrun.
    pose proof (keeps_ensure_sources_loaded fs st0) as [Hsame _].
    destruct (_ensure_sources_loaded fs st0) as [[[] | e] st1];
      [| discriminate].
    cbn [snd] in Hsame.
    pose proof (loader_get_words_outcome fs d st1) as Hout.
    destruct (loader_get_words fs d st1) as [[ws | e] st2];
      [| discriminate].
    cbn [fst] in Hout.
    destruct ws as [| w0 ws]; [discriminate |].
    exists (w0 :: ws). split; [| discriminate].
    change (words_of fs st d) with (words_of fs st0 d).
    rewrite <- Hsame. symmetry. exact Hout. }
  destruct Hinv as [Hcount [ws Hws]].
  destruct (generate_words_runs fs d count st ws Hcount Hws)
    as [words' [st'' [Hrun' [_ [_ [Hin _]]]]]].
  rewrite Hrun in Hrun'. injection Hrun' as <- _.
  exists ws. split; [exact (proj1 Hws) | exact Hin].
Qed.

(** A word of one of the difficulties [keys]. *)
Definition from_one_of (st : @Gen R) (keys : list Difficulty) (w : string)
  : Prop :=
  exists d ws, In d keys /\ words_of fs st d = Ok ws /\ In w ws.

Lemma mixed_loop_origin (st0 : @Gen R) keys first_available items :
  In first_available keys ->
  incl (map fst items) keys ->
  forall all_words (st st' : @Gen R) words,
    sources_kept fs st0 st ->
    Forall (from_one_of st0 keys) all_words ->
    mixed_loop fs first_available items all_words st = (Ok words, st') ->
    Forall (from_one_of st0 keys) words.
Proof.
  intros Hfirst. induction items as [| [d c] rest IH];
    intros Hkeys all_words st st' words Hkept Hall Hrun; cbn [mixed_loop] in Hrun.
  - injection Hrun as <- _. exact Hall.
  - assert (Hd : In d keys) by (apply Hkeys; left; reflexivity).
    assert (Hrest : incl (map fst rest) keys).
    { intros k Hk. apply Hkeys. right. exact Hk. }
    assert (Hdraw : forall d' st1 st2 drawn,
               In d' keys ->
               sources_kept fs st0 st1 ->
               generate_words fs d' c st1 = (Ok drawn, st2) ->
               sources_kept fs st0 st2
               /\ Forall (from_one_of st0 keys) (all_words ++ drawn)).
    { intros d' st1 st2 drawn Hd' Hk1 Hgen.
      destruct (generate_words_origin d' c st1 st2 drawn Hgen)
        as [Hk2 [ws [Hpool Hin]]].
      split; [eapply sources_kept_trans; eassumption |].
      apply Forall_app. split; [exact Hall |].
      apply Forall_forall. intros w Hw. exists d', ws.
      split; [exact Hd' |]. split; [| exact (Hin w Hw)].
      rewrite <- (proj1 Hk1 d'). exact Hpool. }
    assert (Hlog : forall (s : @Gen R) r,
               sources_kept fs st0 s ->
               sources_kept fs st0 (snd (logger r s))).
    { intros s r Hs. eapply sources_kept_trans; [exact Hs |].
      apply same_loader_kept. reflexivity. }
    unfold bind at 1 in Hrun.
    destruct (0 <? c).
    + unfold try_except at 1, bind at 1 in Hrun.
      pose proof (keeps_generate_words fs d c st) as Hk1.
      destruct (generate_words fs d c st) as [[drawn | e] st1] eqn:Hgen.
      * destruct (Hdraw d st st1 drawn Hd Hkept Hgen) as [Hk Hnew].
        cbn [logger bind ret] in Hrun.
        eapply (IH Hrest); [| exact Hnew | exact Hrun].
        apply Hlog with (s := st1)
                        (r := Info "Generated words for difficulty"
                                   [Z.of_nat (List.length drawn)] None).
        exact Hk.
      * cbn [snd] in Hk1.
        assert (Hkept1 : sources_kept fs st0 st1)
          by (eapply sources_kept_trans; eassumption).
        unfold bind at 1 in Hrun. cbn [logger] in Hrun.
        match type of Hrun with
        | context [if ?b then _ else _] => destruct b
        end.
        -- unfold try_except, bind at 1 in Hrun.
           match type of Hrun with
           | context [generate_words fs first_available c ?s] =>
               pose proof (keeps_generate_words fs first_available c s) as Hk2;
               assert (Hs : sources_kept fs st0 s)
                 by (apply (Hlog st1 (Warning "Could not generate words"));
                     exact Hkept1);
               destruct (generate_words fs first_available c s)
                 as [[drawn | e'] st2] eqn:Hgen2
           end.
           ++ destruct (Hdraw first_available _ st2 drawn Hfirst Hs Hgen2)
                as [Hk Hnew].
              cbn [logger bind ret] in Hrun.
              eapply (IH Hrest); [| exact Hnew | exact Hrun].
              apply Hlog with (s := st2)
                              (r := Info "Compensated"
                                         [Z.of_nat (List.length drawn)] None).
              exact Hk.
           ++ cbn [snd] in Hk2. cbn [logger bind ret] in Hrun.
              eapply (IH Hrest); [| exact Hall | exact Hrun].
              apply Hlog with (s := st2) (r := Error "Could not compensate").
              eapply sources_kept_trans; eassumption.
        -- cbn [ret] in Hrun.
           eapply (IH Hrest); [| exact Hall | exact Hrun].
           apply (Hlog st1 (Warning "Could not generate words")).
           exact Hkept1.
    + cbn [ret] in Hrun. exact (IH Hrest _ _ _ _ Hkept Hall Hrun).
Qed.

Lemma validate_weights_keys weights :
  forall checked,
    validate_weights weights = Ok checked ->
    map fst weights = map Key (map fst checked).
Proof.
  induction weights as [| [key weight] rest IH]; intros checked H;
    cbn [validate_weights] in H.
  - injection H as <-. reflexivity.
  - destruct key as [d |]; [| discriminate].
    destruct (weight <? 0)%float; [discriminate |].
    destruct (validate_weights rest) as [checked' | e]; [| discriminate].
    injection H as <-. cbn. rewrite (IH checked' eq_refl). reflexivity.
Qed.

Lemma allocate_keys total_count normalized_weights :
  forall counts,
    allocate total_count normalized_weights = Ok counts ->
    map fst counts = map fst normalized_weights.
Proof.
  induction normalized_weights as [| [d weight] rest IH]; intros counts H;
    cbn [allocate] in H.
  - injection H as <-. reflexivity.
  - destruct (py_int (float_of_int total_count * weight)%float);
      [| discriminate].
    destruct (allocate total_count rest) as [counts' | e]; [| discriminate].
    injection H as <-. cbn. rewrite (IH counts' eq_refl). reflexivity.
Qed.

Lemma increment_keys d counts : map fst (increment d counts) = map fst counts.
Proof.
  induction counts as [| [d' c] rest IH]; cbn [increment]; [reflexivity |].
  destruct (Difficulty_eqb d' d); cbn; [| rewrite IH]; reflexivity.
Qed.

Lemma increments_keys (parts : list (float * Difficulty)) :
  forall counts,
    map fst (fold_left (fun counts part => increment (snd part) counts)
                       parts counts)
    = map fst counts.
Proof.
  induction parts as [| part parts IH]; intro counts; cbn [fold_left];
    [reflexivity |].
  rewrite IH. apply increment_keys.
Qed.

(** Sharing out the leftover changes neither the instance nor the
    difficulties that are counted. *)
Lemma leftover_keys (b : bool) (parts : Result (list (float * Difficulty)))
      (n : nat) (counts : list (Difficulty * Z)) (st0 st1 : @Gen R) outcome :
  (if b
   then
     fractional_parts <- lift parts ;;
     fractional_parts <- lift (sort_reverse fractional_parts) ;;
     ret (fold_left (fun counts part => increment (snd part) counts)
                    (firstn n fractional_parts) counts)
   else ret counts) st0 = (outcome, st1) ->
  st1 = st0
  /\ forall counts', outcome = Ok counts' ->
                     map fst counts' = map fst counts.
Proof.
  destruct b.
  - unfold bind at 1. cbn [lift].
    destruct parts as [unsorted | e].
    + unfold bind at 1. cbn [lift].
      destruct (sort_reverse unsorted) as [sorted | e]; cbn [ret];
        intro H; injection H as <- <-; (split; [reflexivity |]);
        intros counts' Heq; [| discriminate].
      injection Heq as <-. apply increments_keys.
    + intro H. injection H as <- <-. split; [reflexivity | discriminate].
  - cbn [ret]. intro H. injection H as <- <-.
    split; [reflexivity |]. intros counts' Heq. injection Heq as <-.
    reflexivity.
Qed.

(** X15. Whatever [generate_mixed] returns, every word of it is a word of one
    of the difficulties that [weights] lists: a difficulty that fails is
    made up for by the first listed one, or not at all. *)
Theorem mixed_words_come_from_the_listed_difficulties
        weights total_count (st : @Gen R) words :
  fst (generate_mixed fs weights total_count st) = Ok words ->
  forall w,
    In w words ->
    exists d ws,
      In (Key d) (map fst weights)
      /\ words_of fs st d = Ok ws
      /\ In w ws.
Proof.
  intro Hrun.
  assert (Hall : exists keys,
             map fst weights = map Key keys
             /\ Forall (from_one_of st keys) words).
  { unfold generate_mixed in Hrun.
    destruct (total_count <=? 0); [discriminate |].
    destruct weights as [| item weights]; [discriminate |].
    destruct (validate_weights (item :: weights)) as [checked | e] eqn:Hval;
      [| discriminate].
    exists (map fst checked).
    split; [exact (validate_weights_keys _ _ Hval) |].
    unfold bind at 1 in Hrun. cbn [lift] in Hrun.
    unfold bind at 1 in Hrun. cbn [time_time] in Hrun. cbv zeta in Hrun.
    destruct (sum_weights checked =? 0)%float; [discriminate |].
    match type of Hrun with
    | context [allocate total_count ?nw] =>
        set (normalized := nw) in Hrun;
        assert (Hnorm : map fst normalized = map fst checked)
          by (unfold normalized; rewrite map_map; reflexivity);
        destruct (allocate total_count normalized) as [counts | e]
          eqn:Halloc; [| discriminate]
    end.
    apply allocate_keys in Halloc. rewrite Hnorm in Halloc.
    unfold bind at 1 in Hrun. cbn [lift] in Hrun.
    match type of Hrun with
    | context [bind _ _ ?s] => set (st0 := s) in Hrun
    end.
    assert (Hkept0 : sources_kept fs st st0)
      by (apply same_loader_kept; reflexivity).
    unfold bind at 1 in Hrun.
    match type of Hrun with
    | context [(if ?b then ?c1 else ?c2) st0] =>
        destruct ((if b then c1 else c2) st0) as [outcome st1] eqn:Hc
    end.
    apply leftover_keys in Hc. destruct Hc as [-> Hkeys].
    destruct outcome as [counts' | e]; [| discriminate].
    specialize (Hkeys counts' eq_refl). rewrite Halloc in Hkeys.
    unfold bind at 1 in Hrun.
    assert (Hloop : forall all_words st1,
               match counts' with
               | [] => ret []
               | (first_available, _) :: _ =>
                   mixed_loop fs first_available counts' []
               end st0 = (Ok all_words, st1) ->
               Forall (from_one_of st (map fst checked)) all_words).
    { intros all_words st1 Hl.
      destruct counts' as [| [first_available c] rest].
      - injection Hl as <- _. constructor.
      - assert (Hfirst : In first_available (map fst checked))
          by (rewrite <- Hkeys; left; reflexivity).
        assert (Hincl : incl (map fst ((first_available, c) :: rest))
                             (map fst checked))
          by (rewrite Hkeys; apply incl_refl).
        exact (mixed_loop_origin st (map fst checked) first_available
                 ((first_available, c) :: rest) Hfirst Hincl
                 [] st0 st1 all_words Hkept0 (Forall_nil _) Hl). }
    match type of Hrun with
    | context [match ?c st0 with _ => _ end] =>
        destruct (c st0) as [[all_words | e] st1] eqn:Hl; [| discriminate]
    end.
    specialize (Hloop all_words st1 eq_refl).
    unfold bind at 1, with_random in Hrun.
    pose proof (shuffle_incl (_random st1) all_words) as Hincl.
    destruct (shuffle (_random st1) all_words) as [shuffled g].
    cbn [fst] in Hincl. cbn in Hrun. injection Hrun as <-.
    apply Forall_forall. intros w Hw.
    exact (proj1 (Forall_forall _ _) Hloop w (Hincl w Hw)). }
  destruct Hall as [keys [Hkeys Hall]].
  intros w Hw.
  destruct (proj1 (Forall_forall _ _) Hall w Hw) as [d [ws [Hd [Hpool Hin]]]].
  exists d, ws. split; [| split; assumption].
  rewrite Hkeys. apply in_map. exact Hd.
Qed.

End Generator.

Lemma mixed_words_come_from_the_listed_difficulties_witness :
  exists d ws,
    In (Key d) [Key SIMPLE; Key HARD]
    /\ words_of WordGeneratorExamples.no_files
                (init (R := Lcg.random) 1 WordGeneratorExamples.still_clock) d
       = Ok ws
    /\ In "anymore"%string ws.
Proof.
  apply (mixed_words_come_from_the_listed_difficulties
           (R := Lcg.random) WordGeneratorExamples.no_files
           [(Key SIMPLE, 1%float); (Key HARD, 1%float)] 4
           (init (R := Lcg.random) 1 WordGeneratorExamples.still_clock)
           ["anymore"; "academy"; "out"; "not"]%string).
  - vm_compute. reflexivity.
  - left. reflexivity.
Defined.

End MixedShareFacts.

Module SourcesFacts.
Import WordSourceLoader WordSourceLoaderFacts WordGenerator WordGeneratorFacts.

Section Generator.

Context {R : PyRandom}.
Variable fs : FileSystem.

(** ** [reload_sources] *)

(** X16. After [reload_sources] nothing is cached and the sources count as not
    loaded; the pseudo-random source is where it was. The next generation
    reads the word files as they are then ([fs'] below), and draws from
    their words. *)
Theorem reload_sources_forgets_the_cache (st : @Gen R) :
  let st' := snd (reload_sources st) in
  fst (reload_sources st) = Ok tt
  /\ word_loader st' = empty_cache
  /\ _sources_loaded st' = false
  /\ _random st' = _random st
  /\ (forall (fs' : FileSystem) d ws count,
         pool fs' empty_cache d = Ok ws ->
         ws <> [] ->
         0 < count ->
         exists words,
           fst (generate_words fs' d count st') = Ok words
           /\ Z.of_nat (List.length words) = count
           /\ (forall w, In w words -> In w ws)).
Proof.
  cbv zeta. repeat split.
  intros fs' d ws count Hpool Hne Hcount.
  assert (Hws : has_words fs' (snd (reload_sources st)) d ws).
  { split; [exact Hpool | exact Hne]. }
  destruct (generate_words_runs fs' d count _ ws Hcount Hws)
    as [words [st1 [Hrun [_ [Hlen [Hin _]]]]]].
  exists words. rewrite Hrun. repeat split; assumption.
Qed.

(** X17. As long as [reload_sources] is not called, the words that are cached
    for a difficulty are the ones [generate_words] draws from, whatever
    the word files hold by then ([fs'] below). *)
Theorem cached_words_outlive_the_files (st : @Gen R) d ws :
  word_loader st d = Some ws ->
  ws <> [] ->
  forall (fs' : FileSystem) count,
    0 < count ->
    exists words,
      fst (generate_words fs' d count st) = Ok words
      /\ Z.of_nat (List.length words) = count
      /\ (forall w, In w words -> In w ws).
Proof.
  intros Hcached Hne fs' count Hcount.
  assert (Hws : has_words fs' st d ws).
  { split; [| exact Hne].
    unfold words_of, pool, get_words_for_difficulty. rewrite Hcached.
    reflexivity. }
  destruct (generate_words_runs fs' d count st ws Hcount Hws)
    as [words [st1 [Hrun [_ [Hlen [Hin _]]]]]].
  exists words. rewrite Hrun. repeat split; assumption.
Qed.

(** ** [load_default_sources] *)

(** The two flags of the instance are not touched by the loop that loads
    the difficulties. *)
Lemma preload_flags difficulties :
  forall loaded (st : @Gen R) outcome st',
    preload fs difficulties loaded st = (outcome, st') ->
    _sources_loaded st' = _sources_loaded st
    /\ _allow_phrases st' = _allow_phrases st.
Proof.
  induction difficulties as [| d rest IH]; intros loaded st outcome st' Hrun;
    cbn [preload] in Hrun.
  - injection Hrun as _ <-. split; reflexivity.
  - unfold bind at 1, try_except, bind at 1, loader_get_words in Hrun.
    destruct (get_words_for_difficulty fs (word_loader st) d)
      as [[[| w ws] | e] cache]; cbn [ret logger bind fst snd] in Hrun;
      apply IH in Hrun; exact Hrun.
Qed.

(** A difficulty without any entry: its words cannot be loaded, or there
    are none. *)
Definition no_entries (st : @Gen R) (d : Difficulty) : Prop :=
  match words_of fs st d with
  | Ok (_ :: _) => False
  | _ => True
  end.

Lemma preload_nothing difficulties :
  forall loaded (st : @Gen R),
    (forall d, In d difficulties -> no_entries st d) ->
    fst (preload fs difficulties loaded st) = Ok loaded.
Proof.
  induction difficulties as [| d rest IH]; intros loaded st Hnone;
    cbn [preload]; [reflexivity |].
  pose proof (Hnone d (or_introl eq_refl)) as Hd. unfold no_entries in Hd.
  rewrite <- (loader_get_words_outcome fs d st) in Hd.
  pose proof (keeps_loader_get_words fs d st) as [Hkept _].
  assert (Hrest : forall st1,
             (forall d', words_of fs st1 d' = words_of fs st d') ->
             fst (preload fs rest loaded st1) = Ok loaded).
  { intros st1 Hsame. apply IH. intros d' Hd'. unfold no_entries.
    rewrite Hsame. exact (Hnone d' (or_intror Hd')). }
  unfold bind at 1, try_except, bind at 1.
  destruct (loader_get_words fs d st) as [[[| w ws] | e] st1];
    cbn [fst snd] in *.
  - cbn [ret]. apply Hrest. exact Hkept.
  - destruct Hd.
  - cbn [logger bind ret]. apply Hrest. exact Hkept.
Qed.

Lemma load_default_sources_loaded b (st st' : @Gen R) :
  load_default_sources fs b st = (Ok tt, st') ->
  _sources_loaded st' = true /\ _allow_phrases st' = b.
Proof.
  unfold load_default_sources, bind at 1. cbn [set_allow_phrases].
  unfold try_except, bind at 1.
  match goal with
  | |- context [preload fs all_difficulties [] ?s] =>
      destruct (preload fs all_difficulties [] s) as [[loaded | e] st1]
        eqn:Hpre
  end; apply preload_flags in Hpre; destruct Hpre as [_ Hallow];
    cbn [_allow_phrases] in Hallow.
  - destruct loaded as [| d0 loaded]; cbn; [discriminate |].
    intro H. injection H as <-. cbn. split; [reflexivity | exact Hallow].
  - cbn. discriminate.
Qed.

(** X18. [load_default_sources] succeeds, and marks the sources as loaded, as
    soon as one difficulty has an entry; when none has, it raises
    [RuntimeError] and leaves the sources marked as they were. In both
    cases the flag it is given is stored. *)
Theorem load_default_sources_outcome b (st : @Gen R) :
  ((exists d ws, has_words fs st d ws) ->
   fst (load_default_sources fs b st) = Ok tt
   /\ _sources_loaded (snd (load_default_sources fs b st)) = true)
  /\ ((forall d, no_entries st d) ->
      fst (load_default_sources fs b st) = Raise RuntimeError
      /\ _sources_loaded (snd (load_default_sources fs b st))
         = _sources_loaded st)
  /\ _allow_phrases (snd (load_default_sources fs b st)) = b.
Proof.
  split; [| split].
  - intros [d [ws Hws]].
    destruct (load_default_sources_runs fs b st d ws Hws) as [st' Hrun].
    rewrite Hrun. split; [reflexivity |].
    exact (proj1 (load_default_sources_loaded b st st' Hrun)).
  - intro Hnone.
    assert (Hrun : exists st',
               load_default_sources fs b st = (Raise RuntimeError, st')
               /\ _sources_loaded st' = _sources_loaded st).
    { unfold load_default_sources, bind at 1. cbn [set_allow_phrases].
      unfold try_except, bind at 1.
      match goal with
      | |- context [preload fs all_difficulties [] ?s] =>
          pose proof (preload_nothing all_difficulties [] s
                        (fun d _ => Hnone d)) as Hout;
          destruct (preload fs all_difficulties [] s) as [outcome st1]
            eqn:Hpre
      end.
      apply preload_flags in Hpre. destruct Hpre as [Hflag _].
      cbn [fst _sources_loaded] in *. subst outcome. cbn.
      eexists. split; [reflexivity | exact Hflag]. }
    destruct Hrun as [st' [Hrun Hflag]]. rewrite Hrun.
    split; [reflexivity | exact Hflag].
  - assert (Hrun : exists outcome st',
               load_default_sources fs b st = (outcome, st')
               /\ _allow_phrases st' = b).
    { unfold load_default_sources, bind at 1. cbn [set_allow_phrases].
      unfold try_except, bind at 1.
      match goal with
      | |- context [preload fs all_difficulties [] ?s] =>
          destruct (preload fs all_difficulties [] s)
            as [[loaded | e] st1] eqn:Hpre
      end; apply preload_flags in Hpre; destruct Hpre as [_ Hallow];
        cbn [_allow_phrases] in Hallow.
      - destruct loaded as [| d0 loaded]; cbn;
          eexists; eexists; (split; [reflexivity | exact Hallow]).
      - cbn. eexists. eexists. split; [reflexivity | exact Hallow]. }
    destruct Hrun as [outcome [st' [Hrun Hallow]]]. rewrite Hrun.
    exact Hallow.
Qed.

End Generator.

Lemma cached_words_outlive_the_files_witness :
  exists words,
    fst (generate_words
           (R := Lcg.random) WordGeneratorExamples.repeated_word_file SIMPLE 2
           (snd (generate_words
                   (R := Lcg.random) WordGeneratorExamples.no_files SIMPLE 1
                   (init (R := Lcg.random) 3
                         WordGeneratorExamples.still_clock))))
    = Ok words
    /\ (forall w, In w words -> In w base_words).
Proof.
  destruct (cached_words_outlive_the_files
              (R := Lcg.random)
              (snd (generate_words
                      (R := Lcg.random) WordGeneratorExamples.no_files
                      SIMPLE 1
                      (init (R := Lcg.random) 3
                            WordGeneratorExamples.still_clock)))
              SIMPLE base_words)
    with (fs' := WordGeneratorExamples.repeated_word_file) (count := 2)
    as [words [Hrun [_ Hin]]].
  - vm_compute. reflexivity.
  - discriminate.
  - lia.
  - exists words. split; [exact Hrun | exact Hin].
Defined.

End SourcesFacts.

Module PhraseFlagFacts.
Import WordSourceLoader WordSourceLoaderFacts WordGenerator WordGeneratorFacts.

Section Generator.

Context {R : PyRandom}.
Variable fs : FileSystem.

Abbreviation Gen := (@WordGenerator.Gen R).
Abbreviation M := (@WordGenerator.M R).

(** Two instances are alike when they differ at most by the flag
    [_allow_phrases], by their clock and by what they have logged. *)
Definition alike (s1 s2 : Gen) : Prop :=
  _random s1 = _random s2
  /\ word_loader s1 = word_loader s2
  /\ _sources_loaded s1 = _sources_loaded s2.

(** Run on instances that are alike, [c1] and [c2] give outcomes related
    by [V] and leave instances that are alike. *)
Definition blind {A} (V : A -> A -> Prop) (c1 c2 : M A) : Prop :=
  forall s1 s2,
    alike s1 s2 ->
    same_outcome V (fst (c1 s1)) (fst (c2 s2))
    /\ alike (snd (c1 s1)) (snd (c2 s2)).

Lemma blind_ret {A} (V : A -> A -> Prop) a b :
  V a b -> blind V (ret a) (ret b).
Proof. intros Hv s1 s2 Hs. split; [exact Hv | exact Hs]. Qed.

Lemma blind_raise {A} (V : A -> A -> Prop) e : blind V (raise e) (raise e).
Proof. intros s1 s2 Hs. split; [reflexivity | exact Hs]. Qed.

Lemma blind_lift {A} (r : Result A) : blind eq (lift r) (lift r).
Proof. intros s1 s2 Hs. split; [| exact Hs]. destruct r; reflexivity. Qed.

Lemma blind_time : blind any time_time time_time.
Proof. intros s1 s2 Hs. split; [exact I | exact Hs]. Qed.

Lemma blind_logger r1 r2 : blind eq (logger r1) (logger r2).
Proof. intros s1 s2 Hs. split; [reflexivity | exact Hs]. Qed.

(** Storing two different flags leaves the instances alike. *)
Lemma blind_set_allow_phrases b1 b2 :
  blind eq (set_allow_phrases b1) (set_allow_phrases b2).
Proof. intros s1 s2 Hs. split; [reflexivity | exact Hs]. Qed.

Lemma blind_set_sources_loaded b :
  blind eq (set_sources_loaded b) (set_sources_loaded b).
Proof.
  intros s1 s2 [H1 [H2 H3]]. split; [reflexivity |].
  repeat split; assumption.
Qed.

Lemma blind_get_sources_loaded :
  blind eq (get _sources_loaded) (get _sources_loaded).
Proof. intros s1 s2 Hs. split; [apply Hs | exact Hs]. Qed.

(** Reading the flag may give two different values. *)
Lemma blind_get_allow_phrases :
  blind any (get _allow_phrases) (get _allow_phrases).
Proof. intros s1 s2 Hs. split; [exact I | exact Hs]. Qed.

Lemma blind_with_random {A} (f : rng -> A * rng) :
  blind eq (with_random f) (with_random f).
Proof.
  intros s1 s2 [H1 [H2 H3]]. unfold with_random. rewrite H1.
  destruct (f (_random s2)) as [a g]. split; [reflexivity |].
  repeat split; assumption.
Qed.

Lemma blind_loader_get_words d :
  blind eq (loader_get_words fs d) (loader_get_words fs d).
Proof.
  intros s1 s2 [H1 [H2 H3]]. unfold loader_get_words. rewrite H2.
  destruct (get_words_for_difficulty fs (word_loader s2) d)
    as [[words | e] cache]; (split; [reflexivity |]);
    repeat split; assumption.
Qed.

Lemma blind_bind {A B} (V : A -> A -> Prop) (W : B -> B -> Prop)
      (c1 c2 : M A) (k1 k2 : A -> M B) :
  blind V c1 c2 ->
  (forall a b, V a b -> blind W (k1 a) (k2 b)) ->
  blind W (bind c1 k1) (bind c2 k2).
Proof.
  intros Hc Hk s1 s2 Hs. unfold bind.
  destruct (Hc s1 s2 Hs) as [Hout Hnext].
  destruct (c1 s1) as [[a | e1] s1'], (c2 s2) as [[b | e2] s2'];
    cbn [fst snd same_outcome] in *; try contradiction.
  - exact (Hk a b Hout s1' s2' Hnext).
  - split; assumption.
Qed.

Lemma blind_try_except {A} (V : A -> A -> Prop) (c1 c2 : M A)
      (h1 h2 : Exc -> M A) :
  blind V c1 c2 ->
  (forall e, blind V (h1 e) (h2 e)) ->
  blind V (try_except c1 h1) (try_except c2 h2).
Proof.
  intros Hc Hh s1 s2 Hs. unfold try_except.
  destruct (Hc s1 s2 Hs) as [Hout Hnext].
  destruct (c1 s1) as [[a | e1] s1'], (c2 s2) as [[b | e2] s2'];
    cbn [fst snd same_outcome] in *; try contradiction.
  - split; assumption.
  - subst e2. exact (Hh e1 s1' s2' Hnext).
Qed.

Lemma blind_if {A} (V : A -> A -> Prop) (b : bool) (c1 c2 c1' c2' : M A) :
  blind V c1 c2 -> blind V c1' c2' ->
  blind V (if b then c1 else c1') (if b then c2 else c2').
Proof. destruct b; auto. Qed.

Create HintDb blind discriminated.
#[local] Hint Resolve blind_raise blind_lift blind_time blind_logger
  blind_set_allow_phrases blind_set_sources_loaded
  blind_get_sources_loaded blind_with_random blind_loader_get_words : blind.
#[local] Hint Extern 1 (blind eq (ret _) (ret _)) =>
  apply blind_ret; reflexivity : blind.

(** Walks through two runs of the same code side by side. *)
Ltac blind_step :=
  repeat first
    [ solve [auto with blind]
    | match goal with
      | |- blind _ (bind time_time _) (bind time_time _) =>
          apply blind_bind with (V := any);
          [apply blind_time | intros ? ? _]
      | |- blind _ (bind _ _) (bind _ _) =>
          apply blind_bind with (V := eq);
          [| let a := fresh "a" in let b := fresh "b" in
             let E := fresh "E" in intros a b E; subst b]
      | |- blind _ (try_except _ _) (try_except _ _) =>
          apply blind_try_except; [| intro]
      | |- blind _ (if ?c then _ else _) (if ?c then _ else _) =>
          apply blind_if
      | |- blind _ (match ?x with _ => _ end) (match ?x with _ => _ end) =>
          destruct x
      end ].

Lemma blind_preload ds :
  forall loaded, blind eq (preload fs ds loaded) (preload fs ds loaded).
Proof.
  induction ds as [| d ds IH]; intro loaded; cbn [preload].
  - auto with blind.
  - apply blind_bind with (V := eq); [| intros ? ? <-; apply IH].
    blind_step.
Qed.

(** [load_default_sources] does the same for either value of its flag. *)
Lemma blind_load_default_sources b1 b2 :
  blind eq (load_default_sources fs b1) (load_default_sources fs b2).
Proof.
  unfold load_default_sources.
  apply blind_bind with (V := eq); [auto with blind | intros _ _ _].
  apply blind_try_except; [| intro; blind_step].
  apply blind_bind with (V := eq); [apply blind_preload | intros ? ? <-].
  blind_step.
Qed.

Lemma blind_ensure_sources_loaded :
  blind eq (_ensure_sources_loaded fs) (_ensure_sources_loaded fs).
Proof.
  unfold _ensure_sources_loaded.
  apply blind_bind with (V := eq);
    [apply blind_get_sources_loaded | intros loaded ? <-].
  destruct loaded; [auto with blind |].
  apply blind_bind with (V := any);
    [apply blind_get_allow_phrases | intros allow1 allow2 _].
  apply blind_load_default_sources.
Qed.

Lemma blind_get_words_for_difficulty d :
  blind eq (_get_words_for_difficulty fs d) (_get_words_for_difficulty fs d).
Proof.
  unfold _get_words_for_difficulty.
  apply blind_bind with (V := eq);
    [apply blind_ensure_sources_loaded | intros ? ? <-].
  auto with blind.
Qed.

Lemma blind_generate_words d count :
  blind eq (generate_words fs d count) (generate_words fs d count).
Proof.
  unfold generate_words. destruct (count <=? 0); [auto with blind |].
  apply blind_bind with (V := any); [apply blind_time | intros t1 t2 _].
  apply blind_bind with (V := eq);
    [apply blind_get_words_for_difficulty | intros ws ? <-].
  destruct ws as [| w ws]; [auto with blind |].
  apply blind_bind with (V := eq); [blind_step | intros words ? <-].
  apply blind_bind with (V := any); [apply blind_time | intros e1 e2 _].
  apply blind_bind with (V := eq); [apply blind_logger | intros _ _ _].
  auto with blind.
Qed.

#[local] Hint Resolve blind_generate_words : blind.

Lemma blind_generate_for_session d duration_seconds target_wpm :
  blind eq (generate_for_session fs d duration_seconds target_wpm)
           (generate_for_session fs d duration_seconds target_wpm).
Proof. unfold generate_for_session. blind_step. Qed.

Lemma blind_generate_for_time_selection d minutes :
  blind eq (generate_for_time_selection fs d minutes)
           (generate_for_time_selection fs d minutes).
Proof.
  unfold generate_for_time_selection.
  destruct (negb (is_time_option minutes)); [auto with blind |].
  apply blind_bind with (V := any); [apply blind_time | intros t1 t2 _].
  apply blind_bind with (V := eq); [auto with blind | intros n ? <-].
  apply blind_bind with (V := eq); [auto with blind | intros _ _ _].
  apply blind_bind with (V := eq); [auto with blind | intros ws ? <-].
  apply blind_bind with (V := any); [apply blind_time | intros e1 e2 _].
  apply blind_bind with (V := eq); [apply blind_logger | intros _ _ _].
  auto with blind.
Qed.

Lemma blind_for_each {A St} (body : St -> A -> M St) xs :
  (forall st x, blind eq (body st x) (body st x)) ->
  forall st, blind eq (for_each body xs st) (for_each body xs st).
Proof.
  intro Hbody. induction xs as [| x xs IH]; intro st; cbn [for_each].
  - auto with blind.
  - apply blind_bind with (V := eq); [apply Hbody | intros ? ? <-; apply IH].
Qed.

Lemma blind_paragraph_line d lines max_line_chars ewpl p line_num :
  blind eq (paragraph_line fs d lines max_line_chars ewpl p line_num)
           (paragraph_line fs d lines max_line_chars ewpl p line_num).
Proof.
  unfold paragraph_line.
  destruct (pack_words max_line_chars
              (skipn (word_index p) (available_words p))
              EmptyString (word_index p)) as [line wi].
  destruct (negb (truthy line)
            && (wi <? List.length (available_words p))%nat);
    blind_step.
Qed.

Lemma blind_generate_paragraph d lines max_line_chars :
  blind eq (generate_paragraph fs d lines max_line_chars)
           (generate_paragraph fs d lines max_line_chars).
Proof.
  unfold generate_paragraph.
  destruct (lines <=? 0); [auto with blind |].
  destruct (max_line_chars <=? 0); [auto with blind |].
  cbv zeta.
  apply blind_bind with (V := any); [apply blind_time | intros t1 t2 _].
  apply blind_bind with (V := eq); [apply blind_lift | intros n ? <-].
  apply blind_bind with (V := eq); [auto with blind | intros ws ? <-].
  apply blind_bind with (V := eq);
    [apply blind_for_each; intros; apply blind_paragraph_line
    | intros p ? <-].
  apply blind_bind with (V := any); [apply blind_time | intros e1 e2 _].
  apply blind_bind with (V := eq); [apply blind_logger | intros _ _ _].
  auto with blind.
Qed.

Lemma blind_mixed_loop first_available items :
  forall all_words,
    blind eq (mixed_loop fs first_available items all_words)
             (mixed_loop fs first_available items all_words).
Proof.
  induction items as [| [d count] items IH]; intro all_words;
    cbn [mixed_loop].
  - auto with blind.
  - apply blind_bind with (V := eq); [| intros ? ? <-; apply IH].
    blind_step.
Qed.

Lemma blind_generate_mixed weights total_count :
  blind eq (generate_mixed fs weights total_count)
           (generate_mixed fs weights total_count).
Proof.
  unfold generate_mixed.
  destruct (total_count <=? 0); [auto with blind |].
  destruct weights as [| item weights]; [auto with blind |].
  apply blind_bind with (V := eq); [auto with blind | intros ws ? <-].
  apply blind_bind with (V := any); [apply blind_time | intros t1 t2 _].
  cbv zeta.
  destruct (sum_weights ws =? 0)%float; [auto with blind |].
  apply blind_bind with (V := eq); [auto with blind | intros counts ? <-].
  apply blind_bind with (V := eq); [blind_step | intros counts' b <-].
  apply blind_bind with (V := eq).
  - destruct counts' as [| [first_available c] rest];
      [auto with blind | apply blind_mixed_loop].
  - intros all_words ? <-.
    apply blind_bind with (V := eq); [auto with blind | intros ws' b <-].
    apply blind_bind with (V := any); [apply blind_time | intros e1 e2 _].
    apply blind_bind with (V := eq); [apply blind_logger | intros _ _ _].
    auto with blind.
Qed.

Lemma blind_run_call c : blind eq (run_call fs c) (run_call fs c).
Proof.
  destruct c; cbn [run_call].
  - apply blind_generate_words.
  - apply blind_generate_for_session.
  - apply blind_generate_for_time_selection.
  - apply blind_generate_paragraph.
  - apply blind_generate_mixed.
Qed.

Lemma run_calls_alike calls :
  forall s1 s2, alike s1 s2 -> run_calls fs calls s1 = run_calls fs calls s2.
Proof.
  induction calls as [| c calls IH]; intros s1 s2 Hs; cbn [run_calls].
  - reflexivity.
  - destruct (blind_run_call c s1 s2 Hs) as [Hout Hnext].
    f_equal; [exact (same_outcome_eq _ _ Hout) | exact (IH _ _ Hnext)].
Qed.

(** X19. The flag [allow_phrases] of [load_default_sources] has no effect on
    what the generator returns: whether it is given as [True] or as
    [False], the call has the same outcome, and every later sequence of
    calls of the five generation methods returns the same, call for call.
    (The flag is stored, and handed back to [load_default_sources]; the
    loader reads every file with phrases allowed.) *)
Theorem allow_phrases_is_ignored (st : Gen) (calls : list Call) :
  fst (load_default_sources fs true st)
  = fst (load_default_sources fs false st)
  /\ run_calls fs calls (snd (load_default_sources fs true st))
     = run_calls fs calls (snd (load_default_sources fs false st)).
Proof.
  assert (Hst : alike st st) by (repeat split).
  destruct (blind_load_default_sources true false st st Hst) as [Hout Hnext].
  split; [exact (same_outcome_eq _ _ Hout) |].
  apply run_calls_alike. exact Hnext.
Qed.

End Generator.

End PhraseFlagFacts.

(* ================================================================== *)
(** * Further properties of the score table *)
(* ================================================================== *)

Module LeaderboardFacts.
Import DatabaseManager FloatOrder DatabaseManagerFacts.

Lemma StronglySorted_across {A} (R : A -> A -> Prop) (l1 l2 : list A) :
  StronglySorted R (l1 ++ l2) ->
  forall a b, In a l1 -> In b l2 -> R a b.
Proof.
  induction l1 as [| x l1 IH]; cbn; intros H a b Ha Hb; [destruct Ha |].
  inversion H as [| ? ? Hl Hx]. subst.
  destruct Ha as [<- | Ha].
  - apply (proj1 (Forall_forall _ _) Hx). apply in_or_app. right. exact Hb.
  - exact (IH Hl a b Ha Hb).
Qed.


Section Queries.

Variable order_by : list Row -> list Row.
Hypothesis order_by_permutation : forall l, Permutation l (order_by l).
Hypothesis order_by_sorted :
  forall l, Forall has_reals l -> StronglySorted precedes (order_by l).

(** ** A score below the fifty that are stored *)



(** ** The leaderboard of a mode *)

(** The rows of a mode. *)
Definition of_mode (m : string) (r : Row) : bool :=
  String.eqb (mode (row_data r)) m.

(** X21. [get_leaderboard(mode, limit)], for a mode that is given and a limit
    from 0 to [2^63 - 1], returns at most [limit] records, as many as there
    are when the mode has fewer; each is a stored row of that mode; and no
    stored row of the mode that is left out stands before a returned one
    in the order (wpm descending, accuracy descending). For a limit of
    [2^63] or more it returns no record at all. *)
Theorem leaderboard_holds_the_best db m limit :
  table_ok (scores db) ->
  truthy m = true ->
  0 <= limit ->
  let board := fst (get_leaderboard order_by db (Some m) limit) in
  (2 ^ 63 <= limit -> board = [])
  /\ (limit < 2 ^ 63 ->
      List.length board
      = Nat.min (Z.to_nat limit)
                (List.length (filter (of_mode m) (rows (scores db))))
      /\ (forall record,
             In record board ->
             mode record = m
             /\ exists r, In r (rows (scores db))
                          /\ record = _row_to_score_record r)
      /\ (forall r record,
             In r (rows (scores db)) ->
             mode (row_data r) = m ->
             ~ In (_row_to_score_record r) board ->
             In record board ->
             record_precedes record (_row_to_score_record r))).
Proof.
  intros [_ [_ Hreals]] Hm Hlimit. cbv zeta. split.
  - intro Hbig. unfold get_leaderboard.
    assert (Hout : sql_integer limit = false).
    { unfold sql_integer. apply andb_false_iff. right. apply Z.ltb_ge.
      exact Hbig. }
    rewrite Hout. reflexivity.
  - intro Hsmall.
    rewrite get_leaderboard_rows
      by (unfold sql_integer; apply andb_true_intro; split;
          [apply Z.leb_le | apply Z.ltb_lt]; lia).
    unfold selected. rewrite Hm.
    change (fun r : Row => String.eqb (mode (row_data r)) m) with (of_mode m).
    set (chosen := filter (of_mode m) (rows (scores db))).
    unfold sql_limit.
    destruct (limit <? 0) eqn:E; [apply Z.ltb_lt in E; lia |]. clear E.
    set (n := Z.to_nat limit).
    pose proof (order_by_permutation chosen) as Hperm.
    split; [| split].
    + rewrite length_map, length_firstn, <- (Permutation_length Hperm).
      reflexivity.
    + intros record Hin. apply in_map_iff in Hin.
      destruct Hin as [r [<- Hr]]. apply In_firstn in Hr.
      eapply Permutation_in in Hr; [| symmetry; exact Hperm].
      apply filter_In in Hr. destruct Hr as [Hr Hmode].
      split; [apply String.eqb_eq; exact Hmode |].
      exists r. split; [exact Hr | reflexivity].
    + intros r record Hr Hmode Hout Hin.
      apply in_map_iff in Hin. destruct Hin as [a [<- Ha]].
      assert (Hsel : In r (order_by chosen)).
      { eapply Permutation_in; [exact Hperm |]. apply filter_In.
        split; [exact Hr | apply String.eqb_eq; exact Hmode]. }
      rewrite <- (firstn_skipn n (order_by chosen)) in Hsel.
      apply in_app_or in Hsel. destruct Hsel as [Hsel | Hsel].
      * exfalso. apply Hout. apply in_map. exact Hsel.
      * assert (Hsorted : StronglySorted precedes
                            (firstn n (order_by chosen)
                             ++ skipn n (order_by chosen))).
        { rewrite firstn_skipn. apply order_by_sorted.
          apply filter_keeps. exact Hreals. }
        exact (StronglySorted_across _ _ _ Hsorted a r Ha Hsel).
Qed.

End Queries.

(** ** A full table *)

(** Fifty stored rows, with the keys 1 to 50 and speeds from 101 to 150
    words per minute. *)
Definition stored_row (i : nat) : Row :=
  {| row_id := Z.of_nat i;
     row_data := stored (score_at (100 + i)) |}.

Definition full_db : Db :=
  {| connected := true;
     scores := {| rows := map stored_row (seq 1 50); last_id := 50 |} |}.

Lemma full_db_ok : table_ok (scores full_db).
Proof.
  split; [| split]; cbn [scores full_db rows last_id].
  - rewrite map_map. cbn [stored_row row_id].
    apply Finite.Injective_map_NoDup; [| apply seq_NoDup].
    intros a b H. lia.
  - apply Forall_map, Forall_forall. intros i Hi. apply in_seq in Hi.
    cbn [stored_row row_id]. lia.
  - apply Forall_forall. intros r Hr.
    assert (Hall : forallb (fun r => negb (is_nan (row_wpm r))
                                     && negb (is_nan (row_accuracy r)))
                           (map stored_row (seq 1 50)) = true)
      by (vm_compute; reflexivity).
    pose proof (proj1 (forallb_forall _ _) Hall r Hr) as H.
    apply andb_prop in H. destruct H as [Hw Ha].
    apply negb_true_iff in Hw, Ha. split; assumption.
Qed.


Lemma leaderboard_holds_the_best_witness :
  List.length (fst (get_leaderboard insertion_order_by full_db
                                     (Some "practice"%string) 10))
  = 10%nat
  /\ fst (get_leaderboard insertion_order_by full_db
                          (Some "practice"%string) (2 ^ 63)) = [].
Proof.
  destruct (leaderboard_holds_the_best
              insertion_order_by insertion_order_by_permutation
              insertion_order_by_sorted full_db "practice"%string 10)
    as [_ Hsmall].
  - exact full_db_ok.
  - reflexivity.
  - lia.
  - destruct (Hsmall ltac:(lia)) as [Hlen _].
    split; [rewrite Hlen; reflexivity | reflexivity].
Defined.

End LeaderboardFacts.

(* ================================================================== *)
(** * Further properties of the session engine *)
(* ================================================================== *)

Module SessionLifeCycleFacts.
Import DatabaseManager SpeedEngine.

Section Engine.

Variable World : Type.
Variable gen_text gen_time_text :
  GameMode -> DifficultyLevel -> Z -> World -> Result string * World.
Variable dynamic_duration : string -> DifficultyLevel -> GameMode -> Z.
Variable clock_now : World -> Z * World.
Variable make_session_id : string -> Z -> string.
Variable final_score : GameSession -> ScoreRecord.

Abbreviation start :=
  (start_session World gen_text dynamic_duration clock_now make_session_id).
Abbreviation start_timed :=
  (start_time_based_session World gen_time_text clock_now make_session_id).
Abbreviation finish := (end_session World clock_now final_score).
Abbreviation active := (is_session_active World).

(** X22. [end_session] on an active session returns a score record, leaves the
    session inactive, and calls every registered callback once, in the
    order of registration, with that record; ending again returns
    nothing and calls no callback. *)
Theorem end_session_notifies_once (e : Engine World) :
  active e = true ->
  exists record,
    fst (finish e) = Some record
    /\ active (snd (finish e)) = false
    /\ callback_calls World (snd (finish e))
       = callback_calls World e
         ++ map (fun callback => (callback, Some record))
                (session_end_callbacks World e)
    /\ finish (snd (finish e)) = (None, snd (finish e)).
Proof.
  intro Hactive.
  assert (Hrun : exists record e',
             finish e = (Some record, e')
             /\ active e' = false
             /\ callback_calls World e'
                = callback_calls World e
                  ++ map (fun callback => (callback, Some record))
                         (session_end_callbacks World e)).
  { unfold end_session. rewrite Hactive. cbn [negb].
    unfold is_session_active in Hactive. unfold _finalize_session.
    destruct (current_session World e) as [session |]; [| discriminate].
    destruct (clock_now (world World e)) as [ended w1].
    eexists. eexists. split; [reflexivity |]. split; reflexivity. }
  destruct Hrun as [record [e' [Hrun [Hidle Hcalls]]]].
  exists record. rewrite Hrun. cbn [fst snd].
  split; [reflexivity |]. split; [exact Hidle |]. split; [exact Hcalls |].
  unfold end_session. rewrite Hidle. reflexivity.
Qed.

(** X23. After [end_session] or [reset_session], whatever the engine was
    doing, no session is active, so that neither start method answers
    false: it returns true when its text generator returns a text, and
    raises what the generator raises otherwise. [reset_session] drops the
    session without producing a score: no callback is called. *)
Theorem a_session_can_follow (e : Engine World) user mode difficulty n :
  (forall e',
      e' = snd (finish e) \/ e' = reset_session World e ->
      active e' = false
      /\ fst (start user mode difficulty n e')
         = match fst (gen_text mode difficulty n (world World e')) with
           | Ok _ => Ok true
           | Raise exc => Raise exc
           end
      /\ fst (start_timed user mode difficulty n e')
         = match fst (gen_time_text mode difficulty n (world World e')) with
           | Ok _ => Ok true
           | Raise exc => Raise exc
           end)
  /\ current_session World (reset_session World e) = None
  /\ callback_calls World (reset_session World e) = callback_calls World e.
Proof.
  assert (Hstart : forall e', active e' = false ->
             fst (start user mode difficulty n e')
             = match fst (gen_text mode difficulty n (world World e')) with
               | Ok _ => Ok true
               | Raise exc => Raise exc
               end
             /\ fst (start_timed user mode difficulty n e')
                = match fst (gen_time_text mode difficulty n
                                           (world World e')) with
                  | Ok _ => Ok true
                  | Raise exc => Raise exc
                  end).
  { intros e' Hidle. unfold start_session, start_time_based_session.
    rewrite Hidle.
    destruct (gen_text mode difficulty n (world World e'))
      as [[text | exc] w1];
      destruct (gen_time_text mode difficulty n (world World e'))
        as [[text' | exc'] w1']; cbn [fst];
      try (destruct (clock_now w1) as [t w2];
           destruct (clock_now w2) as [s w3]);
      try (destruct (clock_now w1') as [t' w2'];
           destruct (clock_now w2') as [s' w3']);
      split; reflexivity. }
  assert (Hended : active (snd (finish e)) = false).
  { unfold end_session. destruct (active e) eqn:Hactive; cbn [negb].
    - unfold is_session_active in Hactive. unfold _finalize_session.
      destruct (current_session World e) as [session |]; [| discriminate].
      destruct (clock_now (world World e)) as [ended w1]. reflexivity.
    - exact Hactive. }
  split; [| split; reflexivity].
  intros e' [-> | ->].
  - split; [exact Hended | exact (Hstart _ Hended)].
  - split; [reflexivity | exact (Hstart (reset_session World e) eq_refl)].
Qed.

End Engine.

Lemma end_session_notifies_once_witness :
  let started :=
    snd (start_session unit SpeedEngineFacts.fixed_text (fun _ _ _ => 60)
                       (fun w => (0, w)) (fun user _ => user)
                       "ann" PRACTICE BEGINNER 60
                       SpeedEngineFacts.idle_engine) in
  exists record,
    fst (end_session unit (fun w => (0, w)) SpeedEngineFacts.zero_score
                     started) = Some record
    /\ callback_calls unit
         (snd (end_session unit (fun w => (0, w))
                           SpeedEngineFacts.zero_score started))
       = [(1%nat, Some record); (2%nat, Some record)].
Proof.
  cbv zeta.
  destruct (end_session_notifies_once
              unit (fun w => (0, w)) SpeedEngineFacts.zero_score
              (snd (start_session unit SpeedEngineFacts.fixed_text
                                  (fun _ _ _ => 60)
                                  (fun w => (0, w)) (fun user _ => user)
                                  "ann" PRACTICE BEGINNER 60
                                  SpeedEngineFacts.idle_engine)))
    as [record [Hrecord [_ [Hcalls _]]]].
  - reflexivity.
  - exists record. split; [exact Hrecord | exact Hcalls].
Defined.

End SessionLifeCycleFacts.

(* ================================================================== *)
(** * Properties of the target texts *)
(* ================================================================== *)

Module TargetTextFacts.
Import WordSourceLoader WordGenerator WordGeneratorFacts SpeedEngine.

Section Texts.

Context {R : PyRandom}.
Variable fs : FileSystem.
Variable WordManager : Type.
Variables get_practice_text get_challenge_text get_accuracy_text
          get_speed_text get_endurance_text :
  DifficultyLevel -> Z -> WordManager -> Result string * WordManager.

Abbreviation Sources := (@SpeedEngine.Sources R WordManager).

Abbreviation target_text_of :=
  (_generate_target_text fs WordManager get_practice_text get_challenge_text
                         get_accuracy_text get_speed_text get_endurance_text).
Abbreviation time_based_text_of :=
  (_generate_time_based_text fs WordManager get_challenge_text
                             get_accuracy_text get_speed_text
                             get_endurance_text).
Abbreviation legacy_time_based :=
  (legacy_time_based_text WordManager get_challenge_text get_accuracy_text
                          get_speed_text get_endurance_text).

(** The second difficulty of the accuracy mode. *)
Definition harder (d : Difficulty) : Difficulty :=
  if negb (Difficulty_eqb d HARD) then HARD else EXTRA_HARD.

(** X24. In the accuracy mode the engine asks [generate_mixed] for 100 words
    with the weights 0.7 and 0.3. These shares are whole numbers, 70 and
    30, so that no leftover is shared out and no fractional parts are
    sorted: the text always consists of 70 words of the difficulty and 30
    words of the harder one, shuffled, and the legacy word manager is not
    used. *)
Theorem accuracy_text_is_seventy_thirty
        difficulty duration (w : Sources) generator ws1 ws2 :
  word_generator WordManager w = Some generator ->
  has_words fs generator (difficulty_map difficulty) ws1 ->
  has_words fs generator (harder (difficulty_map difficulty)) ws2 ->
  exists words1 words2 words,
    fst (target_text_of ACCURACY_FOCUS difficulty duration w)
    = Ok (String.concat " " words)
    /\ word_manager WordManager (snd (target_text_of ACCURACY_FOCUS difficulty duration w))
       = word_manager WordManager w
    /\ Permutation (words1 ++ words2) words
    /\ List.length words1 = 70%nat
    /\ List.length words2 = 30%nat
    /\ (forall x, In x words1 -> In x ws1)
    /\ (forall x, In x words2 -> In x ws2).
Proof.
  intros Hgen Hws1 Hws2.
  destruct (MixedShareFacts.seventy_thirty
              fs (difficulty_map difficulty)
              (harder (difficulty_map difficulty)) generator ws1 ws2
              Hws1 Hws2)
    as [words1 [words2 [words [g' [Hrun Hrest]]]]].
  exists words1, words2, words.
  unfold _generate_target_text, generator_or_legacy. rewrite Hgen.
  unfold advanced_target_text. cbv zeta.
  fold (harder (difficulty_map difficulty)).
  rewrite (bind_ok _ _ _ _ _ Hrun). cbn [WordGenerator.ret fst snd word_manager].
  split; [reflexivity | split; [reflexivity | exact Hrest]].
Qed.

(** X25. For a time-based session the mode makes no difference as long as the
    generator answers: for each of the six time options the text consists
    of 70 words per minute of the difficulty. For any other number of
    minutes the generator's [ValueError] is caught, and the outcome is the
    one of the legacy word manager for [minutes * 60] seconds: its text, or
    the exception it raises, which nothing catches. *)
Theorem time_based_text_or_legacy
        mode difficulty minutes (w : Sources) generator ws :
  word_generator WordManager w = Some generator ->
  (In minutes time_options ->
   has_words fs generator (difficulty_map difficulty) ws ->
   exists words,
     fst (time_based_text_of mode difficulty minutes w)
     = Ok (String.concat " " words)
     /\ word_manager WordManager (snd (time_based_text_of mode difficulty minutes w))
        = word_manager WordManager w
     /\ Z.of_nat (List.length words) = 70 * minutes
     /\ (forall x, In x words -> In x ws))
  /\ (~ In minutes time_options ->
      time_based_text_of mode difficulty minutes w
      = (fst (legacy_time_based mode difficulty minutes (word_manager WordManager w)),
         {| word_generator := Some generator;
            word_manager :=
              snd (legacy_time_based mode difficulty minutes
                                     (word_manager WordManager w)) |})).
Proof.
  intro Hgen. split.
  - intros Hopt Hws.
    destruct (TimeSelectionFacts.time_selection_runs
                fs (difficulty_map difficulty) minutes generator ws Hopt Hws)
      as [words [g' [Hrun Hrest]]].
    exists words.
    unfold _generate_time_based_text, generator_or_legacy. rewrite Hgen.
    unfold advanced_time_based_text. cbv zeta.
    destruct mode; rewrite (bind_ok _ _ _ _ _ Hrun);
      cbn [WordGenerator.ret fst snd word_manager];
      (split; [reflexivity | split; [reflexivity | exact Hrest]]).
  - intro Hnot.
    pose proof (TimeSelectionFacts.time_selection_refused
                  fs (difficulty_map difficulty) minutes generator Hnot)
      as Hrun.
    unfold _generate_time_based_text, generator_or_legacy. rewrite Hgen.
    unfold advanced_time_based_text. cbv zeta.
    destruct mode; rewrite (bind_raise _ _ _ _ _ Hrun);
      destruct (legacy_time_based _ difficulty minutes (word_manager WordManager w));
      reflexivity.
Qed.

End Texts.

(** ** Examples *)

(** An engine whose generator has no word file, and whose legacy word
    manager gives the same text in every mode but the accuracy mode, where
    the two upper levels give it. *)
Definition legacy_text (_ : DifficultyLevel) (_ : Z) (manager : unit)
  : Result string * unit := (Ok "the quick brown fox"%string, manager).

Definition legacy_accuracy_text
  : DifficultyLevel -> Z -> unit -> Result string * unit :=
  WordManager.get_accuracy_text unit legacy_text.

Definition example_generator : @WordGenerator.Gen Lcg.random :=
  init (R := Lcg.random) 11 WordGeneratorExamples.still_clock.

Definition example_sources : @SpeedEngine.Sources Lcg.random unit :=
  {| word_generator := Some example_generator; word_manager := tt |}.

Lemma accuracy_text_is_seventy_thirty_witness :
  exists words,
    fst (_generate_target_text (R := Lcg.random)
           WordGeneratorExamples.no_files unit
           legacy_text legacy_text legacy_accuracy_text legacy_text
           legacy_text
           ACCURACY_FOCUS INTERMEDIATE 60 example_sources)
    = Ok (String.concat " " words)
    /\ List.length words = 100%nat.
Proof.
  destruct (accuracy_text_is_seventy_thirty
              (R := Lcg.random) WordGeneratorExamples.no_files unit
              legacy_text legacy_text legacy_accuracy_text legacy_text
              legacy_text
              INTERMEDIATE 60 example_sources example_generator
              (_get_fallback_words MEDIUM) (_get_fallback_words HARD))
    as [words1 [words2 [words [Htext [_ [Hperm [Hlen1 [Hlen2 _]]]]]]]].
  - reflexivity.
  - split; [reflexivity | discriminate].
  - split; [reflexivity | discriminate].
  - exists words. split; [exact Htext |].
    rewrite <- (Permutation_length Hperm), length_app, Hlen1, Hlen2.
    reflexivity.
Defined.

(** Four minutes are no time option: the generator refuses, and in the
    accuracy mode a beginner is left with the [TypeError] of the legacy
    word manager, while the speed mode gets the legacy text. *)
Lemma time_based_text_or_legacy_witness :
  fst (_generate_time_based_text (R := Lcg.random)
         WordGeneratorExamples.no_files unit
         legacy_text legacy_accuracy_text legacy_text legacy_text
         ACCURACY_FOCUS BEGINNER 4 example_sources)
  = Raise TypeError
  /\ fst (_generate_time_based_text (R := Lcg.random)
            WordGeneratorExamples.no_files unit
            legacy_text legacy_accuracy_text legacy_text legacy_text
            SPEED_BURST BEGINNER 4 example_sources)
     = Ok "the quick brown fox"%string.
Proof.
  assert (Hnot : ~ In 4 time_options).
  { cbn. intros [H | [H | [H | [H | [H | [H | []]]]]]]; discriminate. }
  split.
  - rewrite (proj2 (time_based_text_or_legacy
                      (R := Lcg.random) WordGeneratorExamples.no_files unit
                      legacy_text legacy_accuracy_text legacy_text
                      legacy_text
                      ACCURACY_FOCUS BEGINNER 4 example_sources
                      example_generator [] eq_refl) Hnot).
    reflexivity.
  - rewrite (proj2 (time_based_text_or_legacy
                      (R := Lcg.random) WordGeneratorExamples.no_files unit
                      legacy_text legacy_accuracy_text legacy_text
                      legacy_text
                      SPEED_BURST BEGINNER 4 example_sources
                      example_generator [] eq_refl) Hnot).
    reflexivity.
Defined.

End TargetTextFacts.

Module ParagraphWordsFacts.
Import WordSourceLoader WordSourceLoaderFacts WordGenerator WordGeneratorFacts.

(** ** Lines as words joined by spaces *)

Lemma string_app_assoc (a b c : string) :
  ((a ++ b) ++ c = a ++ (b ++ c))%string.
Proof. induction a as [| x a IH]; cbn; [| rewrite IH]; reflexivity. Qed.

Lemma join_truthy (words : list string) :
  all_truthy words -> words <> [] ->
  truthy (String.concat " " words) = true.
Proof.
  intros Hall Hne. destruct words as [| w rest]; [contradiction |].
  inversion Hall as [| ? ? Hw _]. subst.
  destruct rest; cbn [String.concat]; [exact Hw |].
  destruct w; [discriminate | reflexivity].
Qed.

Lemma join_snoc (words : list string) (w : string) :
  words <> [] ->
  String.concat " " (words ++ [w])
  = (String.concat " " words ++ " " ++ w)%string.
Proof.
  induction words as [| x rest IH]; intro Hne; [contradiction |].
  destruct rest as [| y rest]; [reflexivity |].
  change ((x :: y :: rest) ++ [w]) with (x :: ((y :: rest) ++ [w])).
  assert (Hcons : forall l : list string,
             l <> [] ->
             String.concat " " (x :: l)
             = (x ++ " " ++ String.concat " " l)%string).
  { intros l Hl. destruct l; [contradiction | reflexivity]. }
  rewrite (Hcons ((y :: rest) ++ [w])) by discriminate.
  rewrite (Hcons (y :: rest)) by discriminate.
  rewrite IH by discriminate.
  rewrite !string_app_assoc. reflexivity.
Qed.

(** The loop that fills a line joins the words it takes, in their order,
    with single spaces. *)
Lemma pack_words_join max_line_chars upcoming :
  forall taken wi,
    all_truthy upcoming ->
    all_truthy taken ->
    exists k,
      (k <= List.length upcoming)%nat
      /\ pack_words max_line_chars upcoming (String.concat " " taken) wi
         = (String.concat " " (taken ++ firstn k upcoming), (wi + k)%nat).
Proof.
  induction upcoming as [| word rest IH]; intros taken wi Hup Htaken;
    cbn [pack_words].
  - exists 0%nat. cbn. rewrite app_nil_r, Nat.add_0_r.
    split; [lia | reflexivity].
  - inversion Hup as [| ? ? Hword Hrest]. subst.
    assert (Htest : (if truthy (String.concat " " taken)
                     then (String.concat " " taken ++ " " ++ word)%string
                     else word)
                    = String.concat " " (taken ++ [word])).
    { destruct taken as [| t taken']; [reflexivity |].
      rewrite (join_truthy _ Htaken) by discriminate.
      symmetry. apply join_snoc. discriminate. }
    rewrite Htest.
    destruct (len (String.concat " " (taken ++ [word])) <=? max_line_chars).
    + destruct (IH (taken ++ [word]) (S wi) Hrest) as [k [Hk Hpack]].
      { apply Forall_app. split; [exact Htaken | repeat constructor].
        exact Hword. }
      exists (S k). rewrite Hpack, <- app_assoc. cbn [firstn app List.length].
      split; [lia |]. f_equal. lia.
    + exists 0%nat. cbn [firstn]. rewrite app_nil_r, Nat.add_0_r.
      split; [lia | reflexivity].
Qed.

Section Generator.

Context {R : PyRandom}.
Variable fs : FileSystem.

(** One round of the loop over the lines, entered with a word left in the
    buffer, stores the join of one or more words of the buffer. *)
Lemma paragraph_line_words d lines max_line_chars ewpl p line_num
      (st st' : @Gen R) p' :
  all_truthy (available_words p) ->
  (word_index p < List.length (available_words p))%nat ->
  paragraph_line fs d lines max_line_chars ewpl p line_num st = (Ok p', st') ->
  exists words,
    words <> []
    /\ incl words (available_words p)
    /\ formatted_lines p' = formatted_lines p ++ [String.concat " " words].
Proof.
  intros Havail Hwi Hrun.
  assert (Hup : all_truthy (skipn (word_index p) (available_words p))).
  { apply Forall_forall. intros w Hw.
    apply (proj1 (Forall_forall _ _) Havail).
    rewrite <- (firstn_skipn (word_index p)). apply in_or_app. right.
    exact Hw. }
  destruct (pack_words_join max_line_chars
              (skipn (word_index p) (available_words p)) [] (word_index p)
              Hup (Forall_nil _)) as [k [Hk Hpack]].
  cbn [String.concat app] in Hpack.
  set (taken := firstn k (skipn (word_index p) (available_words p))) in *.
  assert (Htaken : incl taken (available_words p)).
  { intros w Hw. unfold taken in Hw.
    rewrite <- (firstn_skipn (word_index p) (available_words p)).
    apply in_or_app. right.
    rewrite <- (firstn_skipn k (skipn (word_index p) (available_words p))).
    apply in_or_app. left. exact Hw. }
  assert (Hstored : forall line wi,
             (if (List.length (available_words p) <=? wi)%nat
                 && (line_num <? lines - 1)
              then
                additional_words <-
                  generate_words fs d (ewpl * (lines - line_num)) ;;
                ret {| available_words :=
                         available_words p ++ additional_words;
                       word_index := wi;
                       formatted_lines := formatted_lines p ++ [line] |}
              else
                ret {| available_words := available_words p;
                       word_index := wi;
                       formatted_lines := formatted_lines p ++ [line] |}) st
             = (Ok p', st') ->
             formatted_lines p' = formatted_lines p ++ [line]).
  { intros line wi H.
    destruct ((List.length (available_words p) <=? wi)%nat
              && (line_num <? lines - 1)).
    - unfold bind in H.
      destruct (generate_words fs d (ewpl * (lines - line_num)) st)
        as [[additional | e] st1]; [| discriminate].
      cbn [ret] in H. injection H as <- _. reflexivity.
    - cbn [ret] in H. injection H as <- _. reflexivity. }
  unfold paragraph_line in Hrun. rewrite Hpack in Hrun.
  destruct (truthy (String.concat " " taken)) eqn:Hline.
  - cbn [negb andb] in Hrun. rewrite Hline in Hrun. cbn [negb andb] in Hrun.
    exists taken. split; [| split; [exact Htaken |]].
    + intro Hnil. rewrite Hnil in Hline. discriminate.
    + exact (Hstored _ _ Hrun).
  - assert (Hk0 : k = 0%nat).
    { destruct k as [| k]; [reflexivity |].
      assert (Hne : taken <> []).
      { unfold taken. rewrite (skipn_head _ _ Hwi). discriminate. }
      assert (Hall : all_truthy taken).
      { apply Forall_forall. intros w Hw.
        exact (proj1 (Forall_forall _ _) Havail w (Htaken w Hw)). }
      rewrite (join_truthy taken Hall Hne) in Hline. discriminate. }
    subst k. rewrite Nat.add_0_r in Hrun. cbn [negb andb] in Hrun.
    apply Nat.ltb_lt in Hwi. rewrite Hwi in Hrun. apply Nat.ltb_lt in Hwi.
    set (word := nth (word_index p) (available_words p) EmptyString) in *.
    assert (Hin : In word (available_words p)) by (apply nth_In; exact Hwi).
    assert (Hword : truthy word = true)
      by exact (proj1 (Forall_forall _ _) Havail word Hin).
    rewrite Hword in Hrun. cbn [negb andb] in Hrun.
    exists [word]. split; [discriminate |]. split.
    + intros w [<- | []]. exact Hin.
    + exact (Hstored _ _ Hrun).
Qed.

(** The loop over the lines stores, round after round, joins of words of
    the pool. *)
Lemma paragraph_loop_words d lines max_line_chars ws ewpl :
  0 < lines ->
  all_truthy ws ->
  1 <= ewpl ->
  forall k i p (st : @Gen R),
    Z.of_nat i + Z.of_nat k = lines ->
    has_words fs st d ws ->
    paragraph_ok max_line_chars ws p ->
    List.length (formatted_lines p) = i ->
    ((0 < k)%nat ->
     (word_index p < List.length (available_words p))%nat) ->
    exists p' st' groups,
      for_each (paragraph_line fs d lines max_line_chars ewpl)
               (map Z.of_nat (seq i k)) p st = (Ok p', st')
      /\ formatted_lines p'
         = formatted_lines p ++ map (String.concat " ") groups
      /\ List.length groups = k
      /\ Forall (fun words => words <> [] /\ incl words ws) groups.
Proof.
  intros Hlines Htruthy Hewpl.
  induction k as [| k IH]; intros i p st Hsum Hws Hok Hlen Hwi.
  - exists p, st, []. cbn. rewrite app_nil_r.
    split; [reflexivity | split; [reflexivity | split; [reflexivity |]]].
    constructor.
  - cbn [seq map for_each].
    destruct (paragraph_line_runs fs d lines max_line_chars ws Hlines Htruthy
                ewpl p (Z.of_nat i) st Hewpl)
      as [p1 [st1 [Hrun [Hkept [Hok1 [Hlen1 Hwi1]]]]]];
      [lia | exact Hws | exact Hok | apply Hwi; lia |].
    assert (Havail : all_truthy (available_words p)).
    { apply Forall_forall. intros w Hw.
      exact (proj1 (Forall_forall _ _) Htruthy w (proj1 Hok w Hw)). }
    destruct (paragraph_line_words d lines max_line_chars ewpl p (Z.of_nat i)
                st st1 p1 Havail (Hwi ltac:(lia)) Hrun)
      as [words [Hne [Hincl Hfmt]]].
    rewrite (bind_ok _ _ _ _ _ Hrun).
    destruct (IH (S i) p1 st1) as [p' [st' [groups [Hrest [Hfmt' [Hn Hall]]]]]].
    + lia.
    + exact (has_words_kept fs _ _ _ _ Hkept Hws).
    + exact Hok1.
    + lia.
    + intro Hk. apply Hwi1. lia.
    + exists p', st', (words :: groups). split; [exact Hrest |].
      split; [| split; [cbn; lia |]].
      * rewrite Hfmt', Hfmt, <- app_assoc. reflexivity.
      * constructor; [| exact Hall]. split; [exact Hne |].
        intros w Hw. exact (proj1 Hok w (Hincl w Hw)).
Qed.

(** X26. For positive [lines] and [max_line_chars], fewer than [2^1021]
    estimated words ([lines * max(1, max_line_chars // 6)]) and a difficulty
    whose pool is not empty, [generate_paragraph] returns [lines] lines, and
    every line consists of one or more words of the pool, joined by single
    spaces; so no line is empty. *)
Theorem paragraph_lines_are_words_of_the_pool
        d lines max_line_chars (st : @Gen R) ws :
  0 < lines ->
  0 < max_line_chars ->
  lines * Z.max 1 (max_line_chars / 6) < 2 ^ 1021 ->
  cache_ok (word_loader st) ->
  has_words fs st d ws ->
  exists groups,
    fst (generate_paragraph fs d lines max_line_chars st)
    = Ok (map (String.concat " ") groups)
    /\ Z.of_nat (List.length groups) = lines
    /\ Forall (fun words =>
                 words <> []
                 /\ (forall w, In w words -> In w ws)
                 /\ truthy (String.concat " " words) = true)
              groups.
Proof.
  intros Hlines Hmax Hsmall Hcache Hws.
  assert (Htruthy : all_truthy ws).
  { exact (get_words_truthy fs _ d ws Hcache (proj1 Hws)). }
  unfold generate_paragraph.
  destruct (lines <=? 0) eqn:E1; [apply Z.leb_le in E1; lia |].
  destruct (max_line_chars <=? 0) eqn:E2; [apply Z.leb_le in E2; lia |].
  cbv zeta.
  set (ewpl := Z.max 1 (max_line_chars / 6)) in *.
  assert (Hewpl : 1 <= ewpl) by lia.
  unfold bind at 1. cbn [time_time].
  assert (Htotal : 0 < lines * ewpl) by nia.
  destruct (buffer_words_outcome _ Htotal) as [Hfinite Hsign].
  destruct (Hfinite Hsmall) as [buffer_words Hsize].
  rewrite Hsize in Hsign |- *.
  unfold bind at 1, lift.
  match goal with
  | |- context [bind _ _ ?s] => set (st0 := s)
  end.
  assert (Hws0 : has_words fs st0 d ws) by exact Hws.
  assert (Hbuffer : 0 < buffer_words) by lia.
  destruct (generate_words_runs fs d _ st0 ws Hbuffer Hws0)
    as [available [st1 [Hrun [Hkept [Hlen [Hin _]]]]]].
  rewrite (bind_ok _ _ _ _ _ Hrun).
  destruct (paragraph_loop_words d lines max_line_chars ws ewpl
              Hlines Htruthy Hewpl
              (Z.to_nat lines) 0%nat
              {| available_words := available; word_index := 0;
                 formatted_lines := [] |} st1)
    as [p [st2 [groups [Hloop [Hfmt [Hcount Hall]]]]]].
  - lia.
  - exact (has_words_kept fs _ _ _ _ Hkept Hws0).
  - split; [exact Hin | constructor].
  - reflexivity.
  - intros _. cbn [word_index available_words]. lia.
  - unfold range. rewrite (bind_ok _ _ _ _ _ Hloop).
    unfold bind, time_time, logger, ret. cbn [fst].
    exists groups. cbn [formatted_lines app] in Hfmt. rewrite Hfmt.
    split; [reflexivity |]. split; [lia |].
    eapply Forall_impl; [| exact Hall].
    intros words [Hne Hincl]. split; [exact Hne |]. split; [exact Hincl |].
    apply join_truthy; [| exact Hne].
    apply Forall_forall. intros w Hw.
    exact (proj1 (Forall_forall _ _) Htruthy w (Hincl w Hw)).
Qed.

End Generator.

Lemma paragraph_lines_are_words_of_the_pool_witness :
  exists groups,
    fst (generate_paragraph
           (R := Lcg.random) WordGeneratorExamples.no_files MEDIUM 3 20
           (init (R := Lcg.random) 9 WordGeneratorExamples.still_clock))
    = Ok (map (String.concat " ") groups)
    /\ Z.of_nat (List.length groups) = 3.
Proof.
  destruct (paragraph_lines_are_words_of_the_pool
              (R := Lcg.random) WordGeneratorExamples.no_files MEDIUM 3 20
              (init (R := Lcg.random) 9 WordGeneratorExamples.still_clock)
              (_get_fallback_words MEDIUM))
    as [groups [Hrun [Hlen _]]].
  - lia.
  - lia.
  - vm_compute. reflexivity.
  - exact empty_cache_ok.
  - split; [reflexivity | discriminate].
  - exists groups. split; [exact Hrun | exact Hlen].
Defined.

End ParagraphWordsFacts.

Module FallbackFacts.
Import WordSourceLoader WordSourceLoaderFacts WordGenerator WordGeneratorFacts.

(** ** The built-in lists *)

(** No built-in list holds a word twice. *)
Lemma fallback_words_distinct d : NoDup (_get_fallback_words d).
Proof.
  assert (H : nodup string_dec (_get_fallback_words d)
              = _get_fallback_words d)
    by (destruct d; vm_compute; reflexivity).
  rewrite <- H. apply NoDup_nodup.
Qed.

Section Generator.

Context {R : PyRandom}.
Variable fs : FileSystem.

(** X27. Without word files, the words of a difficulty are its built-in
    list, which holds no word twice: so [generate_words], asked for at most
    as many words as the list holds, returns that many words of the list,
    pairwise different. *)
Theorem fallback_words_are_drawn_without_repeats d count (st : @Gen R) :
  word_loader st d = None ->
  (forall filepath,
      In filepath (possible_paths (_file_mappings d)) -> fs filepath = None) ->
  0 < count <= Z.of_nat (List.length (_get_fallback_words d)) ->
  exists words,
    fst (generate_words fs d count st) = Ok words
    /\ Z.of_nat (List.length words) = count
    /\ NoDup words
    /\ (forall w, In w words -> In w (_get_fallback_words d)).
Proof.
  intros Hcache Hfiles [Hpos Hfit].
  assert (Hws : has_words fs st d (_get_fallback_words d)).
  { split; [| apply fallback_words_not_empty].
    unfold words_of, pool, get_words_for_difficulty.
    rewrite Hcache, (try_paths_no_file fs _ Hfiles). reflexivity. }
  destruct (generate_words_runs fs d count st _ Hpos Hws)
    as [words [st' [Hrun [_ [Hlen [Hin Hdistinct]]]]]].
  destruct (Hdistinct Hfit) as [positions [Hnd Hall]].
  exists words. rewrite Hrun.
  split; [reflexivity |]. split; [exact Hlen |]. split; [| exact Hin].
  exact (positions_distinct_words _ positions words
           (fallback_words_distinct d) Hnd Hall).
Qed.

End Generator.

Lemma fallback_words_are_drawn_without_repeats_witness :
  exists words,
    fst (generate_words (R := Lcg.random) WordGeneratorExamples.no_files
                        EXTRA_HARD 91
                        (init (R := Lcg.random) 2
                              WordGeneratorExamples.still_clock))
    = Ok words
    /\ Z.of_nat (List.length words) = 91
    /\ NoDup words.
Proof.
  destruct (fallback_words_are_drawn_without_repeats
              (R := Lcg.random) WordGeneratorExamples.no_files EXTRA_HARD 91
              (init (R := Lcg.random) 2 WordGeneratorExamples.still_clock))
    as [words [Hrun [Hlen [Hnd _]]]].
  - reflexivity.
  - intros filepath _. reflexivity.
  - cbn. lia.
  - exists words. split; [exact Hrun | split; [exact Hlen | exact Hnd]].
Defined.

End FallbackFacts.

Module CyclingFacts.
Import WordSourceLoader WordSourceLoaderFacts WordGenerator WordGeneratorFacts.

Section Generator.

Context {R : PyRandom}.
Variable fs : FileSystem.

(** How often a word occurs in a list. *)
Definition occurrences (w : string) (words : list string) : Z :=
  Z.of_nat (count_occ string_dec words w).

Lemma occurrences_app w l1 l2 :
  occurrences w (l1 ++ l2) = occurrences w l1 + occurrences w l2.
Proof. unfold occurrences. rewrite count_occ_app. lia. Qed.

Lemma occurrences_permutation w l1 l2 :
  Permutation l1 l2 -> occurrences w l1 = occurrences w l2.
Proof.
  intro H. unfold occurrences. f_equal.
  apply (Permutation_count_occ string_dec). exact H.
Qed.

(** A shuffled copy of a list without repeats holds each of its words
    once; a sample of it holds each word at most once. *)
Lemma shuffled_once g (ws : list string) w :
  NoDup ws -> In w ws -> occurrences w (fst (shuffle g ws)) = 1.
Proof.
  intros Hnd Hin.
  rewrite <- (occurrences_permutation w ws _ (shuffle_spec g ws)).
  unfold occurrences.
  rewrite (proj1 (NoDup_count_occ' string_dec ws) Hnd w Hin). reflexivity.
Qed.

Lemma sampled_at_most_once g (ws : list string) k w :
  NoDup ws -> (k <= List.length ws)%nat ->
  0 <= occurrences w (fst (sample g ws k)) <= 1.
Proof.
  intros Hnd Hk.
  destruct (sample_spec g ws k Hk) as [positions [Hpos [Hall _]]].
  pose proof (positions_distinct_words ws positions _ Hnd Hpos Hall) as Hd.
  pose proof (proj1 (NoDup_count_occ string_dec _) Hd w) as Hle.
  unfold occurrences. lia.
Qed.

(** The loop of [generate_words] takes every word of a pool without
    repeats equally often, up to one. *)
Lemma fill_batches_occurrences available remaining selected g w :
  available <> [] ->
  NoDup available ->
  In w available ->
  0 <= remaining ->
  let n := Z.of_nat (List.length available) in
  let taken :=
    occurrences w (fst (fill_batches available remaining selected g))
    - occurrences w selected in
  remaining / n <= taken <= remaining / n + 1
  /\ (remaining mod n = 0 -> taken = remaining / n).
Proof.
  funelim (fill_batches available remaining selected g).
  - intros _ _ _ Hrem. pose proof (proj1 (Z.ltb_ge _ _) e) as Hle.
    cbn [fst]. cbv zeta.
    assert (remaining_count = 0) by lia. subst remaining_count.
    rewrite Zdiv_0_l.
    split; [lia | intros _; lia].
  - intros Hne. contradiction.
  - intros Hne Hnd Hin Hrem. cbv zeta.
    pose proof (proj1 (Z.ltb_lt _ _) Hpos) as Hgt.
    set (pool := s :: l) in *.
    set (n := Z.of_nat (List.length pool)) in *.
    assert (Hn : 0 < n) by (unfold n, pool; cbn [List.length]; lia).
    set (batch := Z.min remaining_count n) in *.
    set (drawn := if batch =? n
                  then shuffle g pool
                  else sample g pool (Z.to_nat batch)) in *.
    assert (Hrest : 0 <= remaining_count - batch) by lia.
    destruct (H w Hne Hnd Hin Hrest) as [Hbounds Hexact].
    cbv zeta in Hbounds, Hexact. fold n in Hbounds, Hexact.
    rewrite occurrences_app in Hbounds, Hexact.
    destruct (batch =? n) eqn:E.
    + apply Z.eqb_eq in E.
      assert (Hone : occurrences w (fst drawn) = 1)
        by (subst drawn; apply shuffled_once; assumption).
      assert (Hdiv : (remaining_count - batch) / n = remaining_count / n - 1).
      { rewrite E.
        replace remaining_count with ((remaining_count - n) + 1 * n) at 2
          by lia.
        rewrite Z.div_add by lia. lia. }
      assert (Hmod : (remaining_count - batch) mod n = remaining_count mod n).
      { rewrite E.
        replace remaining_count with ((remaining_count - n) + 1 * n) at 2
          by lia.
        rewrite Z.mod_add by lia. reflexivity. }
      rewrite Hdiv in Hbounds, Hexact. rewrite Hmod in Hexact.
      split; [lia | intro Hz; specialize (Hexact Hz); lia].
    + apply Z.eqb_neq in E.
      assert (Hsmall : batch = remaining_count /\ remaining_count < n) by lia.
      destruct Hsmall as [Hb Hlt].
      assert (Hk : (Z.to_nat batch <= List.length pool)%nat)
        by (unfold n in Hlt; lia).
      assert (Hsome : 0 <= occurrences w (fst drawn) <= 1)
        by (subst drawn; apply sampled_at_most_once; assumption).
      assert (Hdiv : (remaining_count - batch) / n = 0)
        by (replace (remaining_count - batch) with 0 by lia;
            apply Zdiv_0_l).
      assert (Hmod : (remaining_count - batch) mod n = 0)
        by (replace (remaining_count - batch) with 0 by lia;
            apply Zmod_0_l).
      rewrite Hdiv in Hbounds, Hexact.
      specialize (Hexact Hmod).
      rewrite (Z.div_small remaining_count n) by lia.
      split; [lia |]. intro Hz.
      rewrite (Z.mod_small remaining_count n) in Hz by lia. lia.
Qed.

(** X28. When more words are asked for than the pool holds, the pool is used
    evenly: if it holds no word twice, each of its [n] words is returned
    [count / n] times or once more, and exactly [count / n] times when
    [count] is a multiple of [n]. *)
Theorem generate_words_cycles_evenly d count (st : @Gen R) ws :
  has_words fs st d ws ->
  NoDup ws ->
  Z.of_nat (List.length ws) < count ->
  let n := Z.of_nat (List.length ws) in
  exists words,
    fst (generate_words fs d count st) = Ok words
    /\ forall w,
         In w ws ->
         count / n <= occurrences w words <= count / n + 1
         /\ (count mod n = 0 -> occurrences w words = count / n).
Proof.
  intros Hws Hnd Hover. cbv zeta.
  assert (Hcount : 0 < count) by lia.
  unfold generate_words.
  destruct (count <=? 0) eqn:Hle; [apply Z.leb_le in Hle; lia |].
  unfold bind at 1. cbn [time_time].
  match goal with
  | |- context [bind _ _ ?s] => set (st0 := s)
  end.
  assert (Hws0 : has_words fs st0 d ws) by exact Hws.
  destruct (get_words_for_difficulty_runs fs st0 d ws Hws0) as [st1 [Hrun _]].
  rewrite (bind_ok _ _ _ _ _ Hrun).
  destruct Hws as [_ Hne].
  destruct ws as [| w0 ws0] eqn:Hpool; [contradiction |].
  rewrite <- Hpool in *.
  destruct (count <=? Z.of_nat (List.length ws)) eqn:Hfit;
    [apply Z.leb_le in Hfit; lia |].
  assert (H0 : 0 <= count) by lia.
  pose proof (fun w Hin =>
                fill_batches_occurrences ws count [] (_random st1) w
                                         Hne Hnd Hin H0) as Hocc.
  cbv zeta in Hocc.
  unfold bind, with_random.
  destruct (fill_batches ws count [] (_random st1)) as [selected g1].
  cbn [fst snd _random] in *.
  pose proof (shuffle_spec g1 selected) as Hperm.
  destruct (shuffle g1 selected) as [words g2].
  cbn [fst snd time_time logger ret] in *.
  exists words. split; [reflexivity |].
  intros w Hin. specialize (Hocc w Hin).
  rewrite <- (occurrences_permutation w selected words Hperm).
  unfold occurrences at 2 4 in Hocc. cbn [count_occ] in Hocc.
  rewrite !Z.sub_0_r in Hocc. exact Hocc.
Qed.

End Generator.

Lemma generate_words_cycles_evenly_witness :
  exists words,
    fst (generate_words (R := Lcg.random) WordGeneratorExamples.no_files
                        SIMPLE 60
                        (init (R := Lcg.random) 4
                              WordGeneratorExamples.still_clock))
    = Ok words
    /\ occurrences "the" words = 2.
Proof.
  destruct (generate_words_cycles_evenly
              (R := Lcg.random) WordGeneratorExamples.no_files SIMPLE 60
              (init (R := Lcg.random) 4 WordGeneratorExamples.still_clock)
              base_words)
    as [words [Hrun Hocc]].
  - split; [reflexivity | discriminate].
  - exact (FallbackFacts.fallback_words_distinct SIMPLE).
  - cbn. lia.
  - exists words. split; [exact Hrun |].
    destruct (Hocc "the"%string) as [_ Hexact]; [left; reflexivity |].
    exact (Hexact eq_refl).
Defined.

End CyclingFacts.

(* ================================================================== *)
(** * The speed and the accuracy of a typed text *)
(* ================================================================== *)

Module AccuracyFacts.
Import PerformanceCalculator PerformanceCalculatorFacts.



End AccuracyFacts.
